(** * Tenant-scoped retrieval and blind polling: a shallow embedding

    The Python services of the backend (app/services/courage,
    app/services/memory, app/services/ghostwriter) are rendered as Rocq
    functions over explicit database states.  A SQLAlchemy session is a
    record of tables (lists of rows); an [async def] that may raise returns
    a [result]; [datetime.utcnow()] is an explicit argument. *)

From Stdlib Require Import List ZArith QArith Qabs String Ascii Bool Lia.
From Stdlib Require Import Permutation Sorted.
Import ListNotations.

Local Open Scope string_scope.
Local Open Scope Z_scope.

(** ** Common vocabulary *)

(** [uuid.UUID] values and naive UTC datetimes are opaque ordered keys. *)
Definition UUID := Z.
Definition datetime := Z.

(** The exceptions the services raise or let through. *)
Inductive exn : Type :=
| ValueError (msg : string)
| MultipleResultsFound
| KeyError (key : Z)
| AttributeError (msg : string)
| DBAPIError (msg : string)
| ProviderError (msg : string).

Inductive result (A : Type) : Type :=
| Ok (a : A)
| Raise (e : exn).

Arguments Ok {A} a.
Arguments Raise {A} e.

Definition bind {A B : Type} (r : result A) (k : A -> result B) : result B :=
  match r with
  | Ok a => k a
  | Raise e => Raise e
  end.

Notation "x <- r ;; k" := (bind r (fun x => k))
  (at level 61, r at next level, right associativity).

(** Python truthiness of [Optional[str]] and of lists. *)
Definition truthy_str (s : option string) : bool :=
  match s with
  | Some (String _ _) => true
  | _ => false
  end.

Definition nonempty {A : Type} (l : list A) : bool :=
  match l with
  | [] => false
  | _ :: _ => true
  end.

Definition sum (l : list Z) : Z := fold_right Z.add 0 l.

(** Python's [max]/[min] of a non-empty list; the default is only used for
    the guarded empty case. *)
Definition max (l : list Z) : Z :=
  match l with
  | [] => 0
  | x :: t => fold_left Z.max t x
  end.

Definition min (l : list Z) : Z :=
  match l with
  | [] => 0
  | x :: t => fold_left Z.min t x
  end.

Definition len {A : Type} (l : list A) : Z := Z.of_nat (List.length l).

(** [Result.scalar_one_or_none()]. *)
Definition scalar_one_or_none {A : Type} (rows : list A) : result (option A) :=
  match rows with
  | [] => Ok None
  | [r] => Ok (Some r)
  | _ :: _ :: _ => Raise MultipleResultsFound
  end.

(** ** app/models: the rows the services read and write *)

Record User : Type := mkUser {
  user_pk : UUID;
  full_name : string
}.

Inductive DealStage : Type :=
| INBOUND | SCREENING | FIRST_MEETING | DEEP_DIVE | IC_REVIEW
| TERM_SHEET_STAGE | DUE_DILIGENCE | CLOSED | PASSED.

Definition is_passed (s : option DealStage) : bool :=
  match s with
  | Some PASSED => true
  | _ => false
  end.

Record Deal : Type := mkDeal {
  deal_pk : UUID;
  deal_firm_id : UUID;
  company_name : string;
  description : option string;
  one_liner : option string;
  stage : option DealStage;
  sector : option string;
  asking_valuation : option Q;
  pass_reason : option string;
  deal_updated_at : option datetime
}.

Record ConvictionPoll : Type := mkPoll {
  id : UUID;
  deal_id : UUID;
  firm_id : UUID;
  is_active : bool;
  is_revealed : bool;
  reveal_threshold : Z;
  closes_at : option datetime;
  divergence_score : option Z;
  average_score : option Z
}.

Record PollVote : Type := mkVote {
  vote_pk : UUID;
  poll_id : UUID;
  user_id : UUID;
  conviction_score : Z;
  red_flags : option (list string);
  red_flag_notes : option string;
  green_flags : option (list string);
  green_flag_notes : option string;
  private_notes : option string;
  submitted_at : datetime;
  updated_at : datetime
}.

(** app/schemas/polling.py *)
Record PollVoteCreate : Type := mkVoteCreate {
  c_conviction_score : Z;
  c_red_flags : option (list string);
  c_red_flag_notes : option string;
  c_green_flags : option (list string);
  c_green_flag_notes : option string;
  c_private_notes : option string
}.

Record PollVoteResponse : Type := mkVoteResponse {
  r_id : UUID;
  r_poll_id : UUID;
  r_conviction_score : Z;
  r_red_flags : option (list string);
  r_green_flags : option (list string);
  r_submitted_at : datetime;
  r_user_id : option UUID;
  r_user_name : option string;
  r_red_flag_notes : option string;
  r_green_flag_notes : option string
}.

(** The part of the session the polling services touch.  [fresh] stands
    for the [uuid.uuid4] default of the primary keys. *)
Record PollDB : Type := mkPollDB {
  polls : list ConvictionPoll;
  votes : list PollVote;
  users : list User;
  deals : list Deal;
  fresh : UUID
}.

Definition get_poll (db : PollDB) (pid : UUID) : option ConvictionPoll :=
  find (fun p => id p =? pid) (polls db).

(** Flushing a mutated ORM object rewrites the row with its primary key. *)
Definition flush_poll (db : PollDB) (poll : ConvictionPoll) : PollDB :=
  mkPollDB
    (map (fun p => if id p =? id poll then poll else p) (polls db))
    (votes db) (users db) (deals db) (fresh db).

Definition flush_vote (db : PollDB) (vote : PollVote) : PollDB :=
  mkPollDB (polls db)
    (map (fun v => if vote_pk v =? vote_pk vote then vote else v) (votes db))
    (users db) (deals db) (fresh db).

Definition add_vote (db : PollDB) (vote : PollVote) : PollDB :=
  mkPollDB (polls db) (votes db ++ [vote]) (users db) (deals db)
    (fresh db + 1).

(** [select(PollVote).where(PollVote.poll_id == poll_id)] *)
Definition votes_of (db : PollDB) (pid : UUID) : list PollVote :=
  filter (fun v => poll_id v =? pid) (votes db).

(** [select(ConvictionPoll).where(ConvictionPoll.id == poll_id,
    ConvictionPoll.firm_id == self.firm_id)] *)
Definition polls_by (db : PollDB) (pid firm : UUID) : list ConvictionPoll :=
  filter (fun p => (id p =? pid) && (firm_id p =? firm)) (polls db).

(** [select(PollVote).where(PollVote.poll_id == poll_id,
    PollVote.user_id == user_id)] *)
Definition votes_by (db : PollDB) (pid uid : UUID) : list PollVote :=
  filter (fun v => (poll_id v =? pid) && (user_id v =? uid)) (votes db).

(** The [PollVote.user] and [ConvictionPoll.deal] relationships. *)
Definition vote_user (db : PollDB) (v : PollVote) : option User :=
  find (fun u => user_pk u =? user_id v) (users db).

Definition poll_deal (db : PollDB) (p : ConvictionPoll) : option Deal :=
  find (fun d => deal_pk d =? deal_id p) (deals db).

Record ConvictionPollCreate : Type := mkPollCreate {
  cp_deal_id : UUID;
  cp_title : string;
  cp_description : option string;
  cp_closes_at : option datetime;
  cp_ic_meeting_date : option datetime;
  cp_reveal_threshold : Z
}.

(** [db.add(poll)] followed by the flush that assigns the key. *)
Definition add_poll (db : PollDB) (poll : ConvictionPoll) : PollDB :=
  mkPollDB (polls db ++ [poll]) (votes db) (users db) (deals db)
    (fresh db + 1).

(** [ConvictionPoll.calculate_divergence] (app/models/polling.py), with the
    [votes] relationship read from the table. *)
Definition calculate_divergence (db : PollDB) (poll : ConvictionPoll)
  : option Z :=
  let votes := votes_of db (id poll) in
  if negb (nonempty votes) then None
  else
    let scores := map conviction_score votes in
    if len scores <? 2 then None
    else Some (max scores - min scores).

(** ** app/services/courage/polling.py *)

Module PollingService.

Definition not_found : exn := ValueError "Poll not found or access denied".

(** [_check_reveal_threshold]: counts the votes and, by the source's own
    comment, leaves the reveal manual. *)
Definition _check_reveal_threshold (db : PollDB) (poll : ConvictionPoll)
  : PollDB :=
  let count := len (votes_of db (id poll)) in
  if (reveal_threshold poll <=? count) && negb (is_revealed poll)
  then db
  else db.

Definition submit_vote (self_firm_id : UUID) (now : datetime) (db : PollDB)
    (pid uid : UUID) (data : PollVoteCreate) : result (PollDB * PollVote) :=
  match get_poll db pid with
  | None => Raise not_found
  | Some poll =>
    if negb (firm_id poll =? self_firm_id) then Raise not_found
    else if negb (is_active poll) then
      Raise (ValueError "Poll is no longer active")
    else if match closes_at poll with
            | Some t => t <? now
            | None => false
            end
    then Raise (ValueError "Poll has closed")
    else
      existing_vote <- scalar_one_or_none (votes_by db pid uid) ;;
      let '(db1, vote) :=
        match existing_vote with
        | Some e =>
          let vote :=
            mkVote (vote_pk e) (poll_id e) (user_id e)
              (c_conviction_score data)
              (c_red_flags data) (c_red_flag_notes data)
              (c_green_flags data) (c_green_flag_notes data)
              (c_private_notes data)
              (submitted_at e) now in
          (flush_vote db vote, vote)
        | None =>
          let vote :=
            mkVote (fresh db) pid uid
              (c_conviction_score data)
              (c_red_flags data) (c_red_flag_notes data)
              (c_green_flags data) (c_green_flag_notes data)
              (c_private_notes data)
              now now in
          (add_vote db vote, vote)
        end in
      Ok (_check_reveal_threshold db1 poll, vote)
  end.

Definition reveal_poll (self_firm_id : UUID) (db : PollDB)
    (pid revealed_by : UUID) : result (PollDB * ConvictionPoll) :=
  match get_poll db pid with
  | None => Raise not_found
  | Some poll =>
    if negb (firm_id poll =? self_firm_id) then Raise not_found
    else
      let votes := votes_of db pid in
      let poll :=
        if nonempty votes then
          let scores := map conviction_score votes in
          mkPoll (id poll) (deal_id poll) (firm_id poll) false true
            (reveal_threshold poll) (closes_at poll)
            (Some (max scores - min scores))
            (Some (sum scores / len scores))
        else
          mkPoll (id poll) (deal_id poll) (firm_id poll) false true
            (reveal_threshold poll) (closes_at poll)
            (divergence_score poll) (average_score poll) in
      Ok (flush_poll db poll, poll)
  end.

(** One response per vote; identity and notes are filled in only under the
    source's guard.  [include_identities] is accepted and never read. *)
Definition vote_response (db : PollDB) (poll : ConvictionPoll)
    (requester_id : UUID) (vote : PollVote) : PollVoteResponse :=
  if is_revealed poll || (user_id vote =? requester_id) then
    mkVoteResponse (vote_pk vote) (poll_id vote) (conviction_score vote)
      (red_flags vote) (green_flags vote) (submitted_at vote)
      (Some (user_id vote))
      (option_map full_name (vote_user db vote))
      (red_flag_notes vote) (green_flag_notes vote)
  else
    mkVoteResponse (vote_pk vote) (poll_id vote) (conviction_score vote)
      (red_flags vote) (green_flags vote) (submitted_at vote)
      None None None None.

Definition get_poll_votes (self_firm_id : UUID) (db : PollDB)
    (pid requester_id : UUID) (include_identities : bool)
  : result (list PollVoteResponse) :=
  match get_poll db pid with
  | None => Raise not_found
  | Some poll =>
    if negb (firm_id poll =? self_firm_id) then Raise not_found
    else Ok (map (vote_response db poll requester_id) (votes_of db pid))
  end.

(** [create_poll]: the deal must be the tenant's; the poll row takes the
    column defaults ([is_active] true, [is_revealed] false, no aggregates)
    and the next primary key.  Title, description and meeting date are
    columns the poll record does not carry. *)
Definition create_poll (self_firm_id : UUID) (db : PollDB)
    (data : ConvictionPollCreate) (created_by : UUID)
  : result (PollDB * ConvictionPoll) :=
  match find (fun d => deal_pk d =? cp_deal_id data) (deals db) with
  | None => Raise (ValueError "Deal not found or access denied")
  | Some deal =>
    if negb (deal_firm_id deal =? self_firm_id)
    then Raise (ValueError "Deal not found or access denied")
    else
      let poll :=
        mkPoll (fresh db) (cp_deal_id data) self_firm_id true false
          (cp_reveal_threshold data) (cp_closes_at data) None None in
      Ok (add_poll db poll, poll)
  end.

Definition get_user_vote (db : PollDB) (pid uid : UUID)
  : result (option PollVote) :=
  scalar_one_or_none (votes_by db pid uid).

End PollingService.

(** ** Sorting and counting as Python does them *)

(** [sorted] and [list.sort] are stable; [reverse=True] keeps the original
    order of equal keys.  [sort_by le] is the stable insertion sort for the
    boolean order [le]. *)
Fixpoint insert_by {A : Type} (le : A -> A -> bool) (x : A) (l : list A)
  : list A :=
  match l with
  | [] => [x]
  | y :: t => if le x y then x :: y :: t else y :: insert_by le x t
  end.

Definition sort_by {A : Type} (le : A -> A -> bool) (l : list A) : list A :=
  fold_right (insert_by le) [] l.

(** [collections.Counter(l)]: counts in first-seen order. *)
Fixpoint counter_add (flag : string) (c : list (string * Z))
  : list (string * Z) :=
  match c with
  | [] => [(flag, 1)]
  | (f, n) :: t =>
    if String.eqb f flag then (f, n + 1) :: t else (f, n) :: counter_add flag t
  end.

Definition Counter (l : list string) : list (string * Z) :=
  fold_left (fun c f => counter_add f c) l [].

(** [Counter.most_common(n)]: highest counts first, ties in first-seen
    order. *)
Definition most_common (n : nat) (c : list (string * Z))
  : list (string * Z) :=
  firstn n (sort_by (fun x y => snd y <=? snd x) c).

(** [d[k] += 1] on a dict with integer keys: a missing key raises. *)
Fixpoint dict_incr (k : Z) (d : list (Z * Z)) : result (list (Z * Z)) :=
  match d with
  | [] => Raise (KeyError k)
  | (k', n) :: t =>
    if k' =? k then Ok ((k', n + 1) :: t)
    else t' <- dict_incr k t ;; Ok ((k', n) :: t')
  end.

Fixpoint count_scores (scores : list Z) (d : list (Z * Z))
  : result (list (Z * Z)) :=
  match scores with
  | [] => Ok d
  | s :: rest => d' <- dict_incr s d ;; count_scores rest d'
  end.

(** [{i: 0 for i in range(1, 11)}] *)
Definition empty_distribution : list (Z * Z) :=
  map (fun i => (Z.of_nat i, 0)) (seq 1 10).

(** [LIMIT :limit]: PostgreSQL rejects a negative limit. *)
Definition sql_limit {A : Type} (limit : Z) (rows : list A)
  : result (list A) :=
  if limit <? 0 then Raise (DBAPIError "LIMIT must not be negative")
  else Ok (firstn (Z.to_nat limit) rows).

(** ** Numbers of the analyzer *)

(** [statistics.mean] works on exact fractions; [round(x, 2)] then rounds
    half to even.  The exact rational is kept here: Python rounds the double
    nearest to the fraction, which gives the same two decimals except at a
    tie that the double does not represent exactly.  At the mean 43/40 the
    exact tie 1.075 goes to 1.08 here, while the double below it goes to
    1.07 in Python; both lie within half a hundredth of the mean, and no
    statement below rests on the direction of such a tie. *)
Definition mean (scores : list Z) : Q :=
  (inject_Z (sum scores) / inject_Z (len scores))%Q.

Definition round_half_even (q : Q) : Z :=
  let n := Qnum q in
  let d := Zpos (Qden q) in
  let k := n / d in
  match (2 * (n mod d)) ?= d with
  | Lt => k
  | Gt => k + 1
  | Eq => if Z.even k then k else k + 1
  end.

Definition round2 (q : Q) : Q :=
  Qred (Qmake (round_half_even (q * 100)%Q) 100).

(** Sample variance, [n - 1] denominator, as [statistics.stdev] has it under
    its square root. *)
Definition variance (scores : list Z) : Q :=
  let m := mean scores in
  (fold_right (fun x acc => (inject_Z x - m) * (inject_Z x - m) + acc) 0
     scores / inject_Z (len scores - 1))%Q.

(** ** app/services/courage/divergence.py *)

Module DivergenceAnalyzer.

Record DivergenceView : Type := mkView {
  v_poll_id : UUID;
  v_deal_id : UUID;
  v_company_name : string;
  total_votes : Z;
  v_average_score : Q;
  min_score : Z;
  max_score : Z;
  divergence : Z;
  std_deviation : Q;
  score_distribution : list (Z * Z);
  top_red_flags : list (string * Z);
  top_green_flags : list (string * Z);
  has_consensus : bool;
  needs_discussion : bool;
  v_votes : option (list PollVoteResponse)
}.

Section Analyzer.

(** [math.sqrt] on floats, under [statistics.stdev]. *)
Variable sqrt : Q -> Q.

Definition flags_of (f : option (list string)) : list string :=
  match f with
  | Some l => l
  | None => []
  end.

Definition vote_response (db : PollDB) (poll : ConvictionPoll)
    (v : PollVote) : PollVoteResponse :=
  mkVoteResponse (vote_pk v) (poll_id v) (conviction_score v)
    (red_flags v) (green_flags v) (submitted_at v)
    (if is_revealed poll then Some (user_id v) else None)
    (if is_revealed poll then option_map full_name (vote_user db v)
     else None)
    (if is_revealed poll then red_flag_notes v else None)
    (if is_revealed poll then green_flag_notes v else None).

Definition get_divergence_view (self_firm_id : UUID) (db : PollDB)
    (pid requester_id : UUID) (is_lead_partner : bool)
  : result DivergenceView :=
  found <- scalar_one_or_none (polls_by db pid self_firm_id) ;;
  match found with
  | None => Raise (ValueError "Poll not found or access denied")
  | Some poll =>
    let votes := votes_of db pid in
    if negb (nonempty votes) then Raise (ValueError "No votes submitted yet")
    else
      let scores := map conviction_score votes in
      let min_score := min scores in
      let max_score := max scores in
      let divergence := max_score - min_score in
      let avg_score := mean scores in
      let std_dev := if 1 <? len scores then sqrt (variance scores) else 0%Q in
      distribution <- count_scores scores empty_distribution ;;
      let all_red_flags := flat_map (fun v => flags_of (red_flags v)) votes in
      let all_green_flags :=
        flat_map (fun v => flags_of (green_flags v)) votes in
      let top_red := most_common 5 (Counter all_red_flags) in
      let top_green := most_common 5 (Counter all_green_flags) in
      let vote_responses :=
        if is_revealed poll || is_lead_partner
        then Some (map (vote_response db poll) votes)
        else None in
      match poll_deal db poll with
      | None => Raise (AttributeError "company_name")
      | Some deal =>
        Ok (mkView (id poll) (deal_id poll) (company_name deal)
              (len votes) (round2 avg_score) min_score max_score divergence
              (round2 std_dev) distribution top_red top_green
              (divergence <=? 2) (5 <=? divergence) vote_responses)
      end
  end.

(** One dict of [get_high_divergence_deals]. *)
Record HighDivergence : Type := mkHigh {
  hd_poll_id : UUID;
  hd_deal_id : UUID;
  hd_company_name : string;
  hd_divergence : option Z;
  hd_average_score : option Z
}.

(** [ConvictionPoll.divergence_score >= min_divergence]: NULL does not
    pass. *)
Definition divergence_at_least (min_divergence : Z) (p : ConvictionPoll)
  : bool :=
  match divergence_score p with
  | Some d => min_divergence <=? d
  | None => false
  end.

(** [order_by(ConvictionPoll.divergence_score.desc())]: NULLs first. *)
Definition more_divergent (p1 p2 : ConvictionPoll) : bool :=
  match divergence_score p1, divergence_score p2 with
  | Some d1, Some d2 => d2 <=? d1
  | None, _ => true
  | Some _, None => false
  end.

(** The polls [get_high_divergence_deals] selects. *)
Definition high_divergence_polls (self_firm_id : UUID) (db : PollDB)
    (min_divergence limit : Z) : result (list ConvictionPoll) :=
  sql_limit limit
    (sort_by more_divergent
       (filter
          (fun p =>
             (firm_id p =? self_firm_id)
             && divergence_at_least min_divergence p
             && is_active p)
          (polls db))).

Fixpoint high_divergence_dicts (db : PollDB) (polls : list ConvictionPoll)
  : result (list HighDivergence) :=
  match polls with
  | [] => Ok []
  | poll :: rest =>
    match poll_deal db poll with
    | None => Raise (AttributeError "company_name")
    | Some deal =>
      dicts <- high_divergence_dicts db rest ;;
      Ok (mkHigh (id poll) (deal_id poll) (company_name deal)
            (divergence_score poll) (average_score poll) :: dicts)
    end
  end.

Definition get_high_divergence_deals (self_firm_id : UUID) (db : PollDB)
    (min_divergence limit : Z) : result (list HighDivergence) :=
  polls <- high_divergence_polls self_firm_id db min_divergence limit ;;
  high_divergence_dicts db polls.

End Analyzer.

End DivergenceAnalyzer.

(** ** Strings as Python treats them

    A [str] is held as its UTF-8 encoding, so equal strings are equal
    sequences of code points; lengths, slices and white space are counted by
    code point. *)

(** A byte that continues the encoding of a code point. *)
Definition is_continuation (c : ascii) : bool :=
  let n := nat_of_ascii c in
  (128 <=? n)%nat && (n <? 192)%nat.

(** [len(s)] *)
Fixpoint str_len (s : string) : nat :=
  match s with
  | EmptyString => 0%nat
  | String c t => if is_continuation c then str_len t else S (str_len t)
  end.

(** [s[:n]]: the first [n] code points. *)
Fixpoint take (n : nat) (s : string) : string :=
  match s with
  | EmptyString => EmptyString
  | String c t =>
    if is_continuation c then String c (take n t)
    else
      match n with
      | O => EmptyString
      | S m => String c (take m t)
      end
  end.

(** The encodings of the code points on which [str.isspace] holds:
    U+0009..U+000D and U+001C..U+0020 in one byte; U+0085 and U+00A0 in
    two; U+1680, U+2000..U+200A, U+2028, U+2029, U+202F, U+205F and U+3000
    in three. *)
Definition space1 (a : ascii) : bool :=
  let x := nat_of_ascii a in
  ((9 <=? x)%nat && (x <=? 13)%nat) || ((28 <=? x)%nat && (x <=? 32)%nat).

Definition space2 (a b : ascii) : bool :=
  let x := nat_of_ascii a in
  let y := nat_of_ascii b in
  (x =? 194)%nat && ((y =? 133)%nat || (y =? 160)%nat).

Definition space3 (a b c : ascii) : bool :=
  let x := nat_of_ascii a in
  let y := nat_of_ascii b in
  let z := nat_of_ascii c in
  ((x =? 225)%nat && (y =? 154)%nat && (z =? 128)%nat)
  || ((x =? 226)%nat && (y =? 128)%nat
      && (((128 <=? z)%nat && (z <=? 138)%nat)
          || (z =? 168)%nat || (z =? 169)%nat || (z =? 175)%nat))
  || ((x =? 226)%nat && (y =? 129)%nat && (z =? 159)%nat)
  || ((x =? 227)%nat && (y =? 128)%nat && (z =? 128)%nat).

(** Dropping the white space at the front of a byte sequence; [sp2] and
    [sp3] read the two- and three-byte encodings in the order of the
    sequence. *)
Fixpoint lstrip_bytes (sp2 : ascii -> ascii -> bool)
    (sp3 : ascii -> ascii -> ascii -> bool) (s : list ascii) : list ascii :=
  match s with
  | [] => []
  | a :: t =>
    if space1 a then lstrip_bytes sp2 sp3 t
    else
      match t with
      | [] => s
      | b :: t2 =>
        if sp2 a b then lstrip_bytes sp2 sp3 t2
        else
          match t2 with
          | [] => s
          | c :: t3 => if sp3 a b c then lstrip_bytes sp2 sp3 t3 else s
          end
      end
  end.

Definition lstrip (s : list ascii) : list ascii :=
  lstrip_bytes space2 space3 s.

(** At the end of the string the bytes are met last first. *)
Definition rstrip (s : list ascii) : list ascii :=
  rev (lstrip_bytes (fun a b => space2 b a) (fun a b c => space3 c b a)
         (rev s)).

(** [str.strip()] *)
Definition strip (s : string) : string :=
  string_of_list_ascii (rstrip (lstrip (list_ascii_of_string s))).

(** [x or ''] for an [Optional[str]] *)
Definition or_empty (s : option string) : string :=
  match s with
  | Some (String c t) => String c t
  | _ => EmptyString
  end.

(** [l[:n]] for a Python integer [n] *)
Definition slice_to {A : Type} (n : Z) (l : list A) : list A :=
  if n <? 0 then firstn (Z.to_nat (len l + n)) l
  else firstn (Z.to_nat n) l.

(** ** app/models/document.py *)

Definition Embedding := list Q.

Inductive DocumentType : Type :=
| PITCH_DECK | IC_MEMO | FINANCIAL_MODEL | DATA_ROOM | TERM_SHEET | OTHER.

Definition DocumentType_value (t : DocumentType) : string :=
  match t with
  | PITCH_DECK => "pitch_deck"
  | IC_MEMO => "ic_memo"
  | FINANCIAL_MODEL => "financial_model"
  | DATA_ROOM => "data_room"
  | TERM_SHEET => "term_sheet"
  | OTHER => "other"
  end.

Record Document : Type := mkDocument {
  doc_pk : UUID;
  doc_firm_id : UUID;
  doc_deal_id : option UUID;
  original_filename : string;
  document_type : option DocumentType;
  extracted_company : option string
}.

Record DocumentChunk : Type := mkChunk {
  chunk_pk : UUID;
  document_id : UUID;
  chunk_firm_id : UUID;
  content : string;
  chunk_index : Z;
  page_number : option Z;
  section_type : option string;
  embedding : option Embedding
}.

(** The part of the session the retrieval services touch.
    [current_firm_id] is the [app.current_firm_id] setting, which no
    statement of these services gets to change; [fault], when set, is the
    error every statement sent to the storage raises. *)
Record MemoryDB : Type := mkMemoryDB {
  m_deals : list Deal;
  documents : list Document;
  document_chunks : list DocumentChunk;
  current_firm_id : option UUID;
  fault : option exn
}.

(** [await db.execute(...)]: the statement runs unless the storage fails. *)
Definition execute {A : Type} (db : MemoryDB) (statement : result A)
  : result A :=
  match fault db with
  | Some e => Raise e
  | None => statement
  end.

(** PostgreSQL's answer to a statement it cannot parse. *)
Definition syntax_error (near : string) : exn :=
  DBAPIError ("syntax error at or near " ++ near).

(** A row of the search statements: the joined chunk and document and the
    [similarity] column. *)
Record Row : Type := mkRow {
  row_chunk : DocumentChunk;
  row_document : Document;
  row_similarity : Q
}.

(** Truthiness of a [str]. *)
Definition nonempty_str (s : string) : bool :=
  match s with
  | EmptyString => false
  | String _ _ => true
  end.

(** [result[i] = x] at an index the list has (the indices come from
    [enumerate], so no other index is written). *)
Fixpoint list_set {A : Type} (i : nat) (x : A) (l : list A) : list A :=
  match l, i with
  | [], _ => []
  | _ :: t, O => x :: t
  | a :: t, S j => a :: list_set j x t
  end.

(** ** app/services/memory/embeddings.py *)

Module EmbeddingService.

Section Service.

(** [SentenceTransformer.encode]: the loaded model, which may fail. *)
Variable encode : string -> result Embedding.
Variable EMBEDDING_DIMENSION : nat.
(** [np.linalg.norm] *)
Variable norm : Embedding -> Q.

Definition embed_text (text : string) : result Embedding :=
  match text with
  | EmptyString => Ok (repeat 0%Q EMBEDDING_DIMENSION)
  | _ => encode text
  end.

Fixpoint dot (v1 v2 : Embedding) : Q :=
  match v1, v2 with
  | x :: t1, y :: t2 => (x * y + dot t1 t2)%Q
  | _, _ => 0%Q
  end.

Definition compute_similarity (embedding1 embedding2 : Embedding) : Q :=
  let norm1 := norm embedding1 in
  let norm2 := norm embedding2 in
  if Qeq_bool norm1 0 || Qeq_bool norm2 0 then 0%Q
  else (dot embedding1 embedding2 / (norm1 * norm2))%Q.

(** [SentenceTransformer.encode] on a list of texts. *)
Variable encode_batch : list string -> result (list Embedding).

Definition zero_vector : Embedding := repeat 0%Q EMBEDDING_DIMENSION.

(** [[(i, t) for i, t in enumerate(texts) if t]] *)
Definition valid_texts (texts : list string) : list (nat * string) :=
  filter (fun it => nonempty_str (snd it))
         (combine (seq 0 (List.length texts)) texts).

Definition embed_texts (texts : list string) : result (list Embedding) :=
  if negb (nonempty texts) then Ok []
  else
    let valid := valid_texts texts in
    if negb (nonempty valid) then Ok (map (fun _ => zero_vector) texts)
    else
      embeddings <- encode_batch (map snd valid) ;;
      Ok (fold_left
            (fun result ie => list_set (fst ie) (snd ie) result)
            (combine (map fst valid) embeddings)
            (map (fun _ => zero_vector) texts)).

End Service.

End EmbeddingService.

(** A chunk dict as [add_chunks] reads it. *)
Record ChunkInput : Type := mkChunkInput {
  ci_content : string;
  ci_chunk_index : Z;
  ci_page_number : option Z;
  ci_section_type : option string
}.

(** ** app/services/memory/vector_store.py *)

Module VectorStore.

(** The dict a [similarity_search] row becomes. *)
Record SearchHit : Type := mkHit {
  h_chunk_id : UUID;
  h_document_id : UUID;
  h_deal_id : option UUID;
  h_content : string;
  h_chunk_index : Z;
  h_page_number : option Z;
  h_section_type : option string;
  h_document_title : string;
  h_similarity : Q
}.

(** The dict a [search_pass_patterns] row becomes. *)
Record PassHit : Type := mkPassHit {
  ph_chunk_id : UUID;
  ph_document_id : UUID;
  ph_content : string;
  ph_document_title : string;
  ph_company_name : option string;
  ph_similarity : Q
}.

Definition chunk_document (dc : DocumentChunk) : UUID := document_id dc.

(** [dc.document_id = :document_id] *)
Definition of_document (i : UUID) (dc : DocumentChunk) : bool :=
  document_id dc =? i.

Section Store.

Variable embed_text : string -> result Embedding.

(** [SET app.current_firm_id = :firm_id], sent with the value as a bind
    parameter.  [SET] takes none (db/session.py says so and writes the
    value into the text instead), so the server refuses the statement. *)
Definition _set_rls_context (self_firm_id : UUID) (db : MemoryDB)
  : result MemoryDB :=
  execute db (Raise (syntax_error "$1")).

(** The statement of [similarity_search].  Its text writes the vector as
    [:query_vector::vector]; with the colons of the cast behind it the name
    is no bind parameter [text()] fills in, and the server refuses the
    text. *)
Definition similarity_search_rows (self_firm_id : UUID) (db : MemoryDB)
    (query_vector : Embedding) (limit : Z) (min_similarity : Q)
    (document_id : option UUID) (document_type : option string)
  : result (list Row) :=
  execute db (Raise (syntax_error ":")).

(** The dict built from one row of [similarity_search]. *)
Definition hit_of_row (r : Row) : SearchHit :=
  let dc := row_chunk r in
  let d := row_document r in
  mkHit (chunk_pk dc) (chunk_document dc) (doc_deal_id d) (content dc)
    (chunk_index dc) (page_number dc) (section_type dc)
    (original_filename d) (row_similarity r).

(** The dict built from one row of [search_pass_patterns]. *)
Definition pass_hit_of_row (r : Row) : PassHit :=
  let dc := row_chunk r in
  let d := row_document r in
  mkPassHit (chunk_pk dc) (chunk_document dc) (content dc)
    (original_filename d) (extracted_company d) (row_similarity r).

Definition similarity_search (self_firm_id : UUID) (db : MemoryDB)
    (query : string) (limit : Z) (min_similarity : Q)
    (document_id : option UUID) (document_type : option string)
  : result (MemoryDB * list SearchHit) :=
  db1 <- _set_rls_context self_firm_id db ;;
  query_vector <- embed_text query ;;
  rows <- similarity_search_rows self_firm_id db1 query_vector limit
            min_similarity document_id document_type ;;
  Ok (db1, map hit_of_row rows).

Definition search_historical_memos (self_firm_id : UUID) (db : MemoryDB)
    (query : string) (limit : Z) (exclude_deal_id : option UUID)
  : result (MemoryDB * list SearchHit) :=
  similarity_search self_firm_id db query limit (6 # 10) None
    (Some "ic_memo").

(** The statement of [search_pass_patterns], with the same
    [:query_vector::vector]. *)
Definition search_pass_patterns_rows (self_firm_id : UUID) (db : MemoryDB)
    (query_vector : Embedding) (limit : Z) : result (list Row) :=
  execute db (Raise (syntax_error ":")).

Definition search_pass_patterns (self_firm_id : UUID) (db : MemoryDB)
    (query : string) (limit : Z)
  : result (MemoryDB * list PassHit) :=
  db1 <- _set_rls_context self_firm_id db ;;
  query_vector <- embed_text query ;;
  rows <- search_pass_patterns_rows self_firm_id db1 query_vector limit ;;
  Ok (db1, map pass_hit_of_row rows).

(** [self.embedding_service.embed_texts] *)
Variable embed_texts : list string -> result (list Embedding).

(** One [DocumentChunk] per pair of [zip(chunks, embeddings)]; [uuid4 i] is
    the key drawn for the i-th record.  The chunk's [metadata] entry does
    not reach a column. *)
Definition chunk_records (self_firm_id document_id : UUID)
    (uuid4 : nat -> UUID) (chunks : list ChunkInput)
    (embeddings : list Embedding) : list DocumentChunk :=
  map (fun ice : nat * (ChunkInput * Embedding) =>
         let '(i, (chunk, e)) := ice in
         mkChunk (uuid4 i) document_id self_firm_id (ci_content chunk)
           (ci_chunk_index chunk) (ci_page_number chunk)
           (ci_section_type chunk) (Some e))
      (combine (seq 0 (List.length chunks)) (combine chunks embeddings)).

Definition add_chunks (self_firm_id : UUID) (db : MemoryDB)
    (document_id : UUID) (chunks : list ChunkInput) (uuid4 : nat -> UUID)
  : result (MemoryDB * list DocumentChunk) :=
  db1 <- _set_rls_context self_firm_id db ;;
  embeddings <- embed_texts (map ci_content chunks) ;;
  let records :=
    chunk_records self_firm_id document_id uuid4 chunks embeddings in
  execute db1
    (Ok (mkMemoryDB (m_deals db1) (documents db1)
           (document_chunks db1 ++ records) (current_firm_id db1)
           (fault db1),
         records)).

(** [WHERE document_id = :document_id AND firm_id = :firm_id] *)
Definition chunk_to_delete (self_firm_id document_id : UUID)
    (dc : DocumentChunk) : bool :=
  of_document document_id dc && (chunk_firm_id dc =? self_firm_id).

Definition delete_document_chunks (self_firm_id : UUID) (db : MemoryDB)
    (document_id : UUID) : result (MemoryDB * Z) :=
  db1 <- _set_rls_context self_firm_id db ;;
  execute db1
    (Ok (mkMemoryDB (m_deals db1) (documents db1)
           (filter (fun dc => negb (chunk_to_delete self_firm_id document_id
                                      dc))
                   (document_chunks db1))
           (current_firm_id db1) (fault db1),
         len (filter (chunk_to_delete self_firm_id document_id)
                     (document_chunks db1)))).

End Store.

End VectorStore.

(** ** app/services/ghostwriter/ghost_loss_analyzer.py *)

Module GhostLossAnalyzer.

(** The dicts of both passes: a key a pass does not set is [None]. *)
Record Pattern : Type := mkPattern {
  p_type : string;
  p_deal_id : option UUID;
  p_chunk_id : option UUID;
  p_document_id : option UUID;
  p_company_name : option string;
  p_sector : option string;
  p_pass_reason : option string;
  p_pass_date : option datetime;
  p_similarity : Q;
  p_one_liner : option string;
  p_asking_valuation : option Q;
  p_source_content : option string
}.

(** [sorted(..., key=similarity, reverse=True)] *)
Definition by_similarity_desc (x y : Pattern) : bool :=
  Qle_bool (p_similarity y) (p_similarity x).

(** [ORDER BY updated_at DESC]: NULLs first. *)
Definition newer (d1 d2 : Deal) : bool :=
  match deal_updated_at d1, deal_updated_at d2 with
  | Some t1, Some t2 => t2 <=? t1
  | None, _ => true
  | Some _, None => false
  end.

Section Analyzer.

(** [str.lower]: the lower-casing of the Unicode tables, taken as it is. *)
Variable lower : string -> string.

(** [pattern.get("company_name", "").lower()] *)
Definition company_key (pattern : Pattern) : string :=
  lower (match p_company_name pattern with
         | Some c => c
         | None => EmptyString
         end).

Definition is_empty (s : string) : bool :=
  match s with
  | EmptyString => true
  | String _ _ => false
  end.

Definition seen (company : string) (seen_companies : list string) : bool :=
  existsb (String.eqb company) seen_companies.

(** The loop of [_deduplicate_and_rank] over the sorted patterns; the set
    [seen_companies] is kept as a list. *)
Fixpoint dedup_loop (seen_companies : list string) (patterns : list Pattern)
  : list Pattern :=
  match patterns with
  | [] => []
  | pattern :: rest =>
    let company := company_key pattern in
    if negb (is_empty company) && negb (seen company seen_companies)
    then pattern :: dedup_loop (company :: seen_companies) rest
    else if is_empty company
    then pattern :: dedup_loop seen_companies rest
    else dedup_loop seen_companies rest
  end.

Definition _deduplicate_and_rank (patterns : list Pattern) : list Pattern :=
  dedup_loop [] (sort_by by_similarity_desc patterns).

(** [deal_text] of [_search_pass_vectors] *)
Definition vector_query_text (deal : Deal) : string :=
  company_name deal ++ " " ++ or_empty (one_liner deal) ++ " "
  ++ or_empty (sector deal).

(** [deal_text] of [_find_similar_passed_deals] *)
Definition deal_query_text (deal : Deal) : string :=
  company_name deal ++ " " ++ or_empty (one_liner deal) ++ " "
  ++ or_empty (description deal) ++ " " ++ or_empty (sector deal).

Variable embed_text : string -> result Embedding.
Variable compute_similarity : Embedding -> Embedding -> Q.
(** [re.search(pattern, content, re.IGNORECASE)], giving group 1. *)
Variable re_search : string -> string -> option string.

Definition pass_reason_patterns : list string :=
  [ "pass(?:ed|ing)?\s+(?:on\s+)?(?:this\s+)?(?:deal\s+)?(?:because|due to|as)\s+(.{50,300})";
    "recommend(?:ation)?\s*:?\s*pass\s*[.\-:]\s*(.{50,300})";
    "concerns?\s*(?:include|are|:)\s*(.{50,300})";
    "(?:key\s+)?risks?\s*(?:include|are|:)\s*(.{50,300})";
    "not\s+(?:recommend|proceed|invest)\s+(?:because|due to)\s*(.{50,300})" ].

Fixpoint first_match (patterns : list string) (content : string)
  : option string :=
  match patterns with
  | [] => None
  | pattern :: rest =>
    match re_search pattern content with
    | Some g => Some (strip g)
    | None => first_match rest content
    end
  end.

Definition _extract_pass_reason (content : string) : string :=
  match first_match pass_reason_patterns content with
  | Some reason => reason
  | None => strip (take 200 content) ++ "..."
  end.

(** The loop that scores the passed deals; the threshold test is the
    source's [similarity > 0.5]. *)
Fixpoint score_deals (deal_embedding : Embedding) (passed_deals : list Deal)
  : result (list Pattern) :=
  match passed_deals with
  | [] => Ok []
  | passed_deal :: rest =>
    let passed_text :=
      company_name passed_deal ++ " " ++ or_empty (one_liner passed_deal)
      ++ " " ++ or_empty (description passed_deal) in
    passed_embedding <- embed_text passed_text ;;
    let similarity := compute_similarity deal_embedding passed_embedding in
    scored <- score_deals deal_embedding rest ;;
    if negb (Qle_bool similarity (5 # 10)) then
      Ok (mkPattern "passed_deal" (Some (deal_pk passed_deal)) None None
            (Some (company_name passed_deal)) (sector passed_deal)
            (pass_reason passed_deal) (deal_updated_at passed_deal)
            similarity (one_liner passed_deal)
            (match asking_valuation passed_deal with
             | Some v => if Qeq_bool v 0 then None else Some v
             | None => None
             end)
            None :: scored)
    else Ok scored
  end.

Definition _find_similar_passed_deals (self_firm_id : UUID) (db : MemoryDB)
    (deal : Deal) (limit : Z) : result (list Pattern) :=
  passed_deals <-
    execute db
      (sql_limit (limit * 2)
         (sort_by newer
            (filter
               (fun d =>
                  (deal_firm_id d =? self_firm_id)
                  && is_passed (stage d)
                  && match pass_reason d with
                     | Some _ => true
                     | None => false
                     end
                  && (if truthy_str (sector deal)
                      then match sector d with
                           | Some s => String.eqb s (or_empty (sector deal))
                           | None => false
                           end
                      else true))
               (m_deals db)))) ;;
  if negb (nonempty passed_deals) then Ok []
  else
    deal_embedding <- embed_text (deal_query_text deal) ;;
    scored_deals <- score_deals deal_embedding passed_deals ;;
    Ok (slice_to limit (sort_by by_similarity_desc scored_deals)).

(** The statement of [_search_pass_vectors].  Its text writes the vector
    as [:query_vector::vector]; with the colons of the cast behind it the
    name is no bind parameter [text()] fills in, and the server refuses the
    text. *)
Definition pass_vector_rows (self_firm_id : UUID) (db : MemoryDB)
    (query_vector : Embedding) (limit : Z) : result (list Row) :=
  execute db (Raise (syntax_error ":")).

Definition pattern_of_row (r : Row) : Pattern :=
  let dc := row_chunk r in
  let d := row_document r in
  mkPattern "historical_memo" None (Some (chunk_pk dc))
    (Some (document_id dc))
    (Some (if truthy_str (extracted_company d)
           then or_empty (extracted_company d)
           else original_filename d))
    None
    (Some (_extract_pass_reason (content dc)))
    None
    (row_similarity r)
    None None
    (Some (take 500 (content dc))).

(** [try: ... except Exception as e: log]: an error of the statement leaves
    [all_results] as it is, and the function returns it. *)
Definition _search_pass_vectors (self_firm_id : UUID) (db : MemoryDB)
    (deal : Deal) (limit : Z) : result (list Pattern) :=
  query_embedding <- embed_text (vector_query_text deal) ;;
  let all_results : list Pattern := [] in
  match pass_vector_rows self_firm_id db query_embedding limit with
  | Ok rows =>
    Ok (all_results ++ map pattern_of_row rows)%list
  | Raise e => Ok all_results
  end.

Definition find_ghost_loss_patterns (self_firm_id : UUID) (db : MemoryDB)
    (deal : Deal) (limit : Z) (lookback_days : Z) : result (list Pattern) :=
  passed_deals <- _find_similar_passed_deals self_firm_id db deal limit ;;
  vector_patterns <- _search_pass_vectors self_firm_id db deal limit ;;
  let patterns :=
    _deduplicate_and_rank (passed_deals ++ vector_patterns)%list in
  Ok (slice_to limit patterns).

End Analyzer.

End GhostLossAnalyzer.

(** ** app/services/ghostwriter/contradiction_detector.py *)

Module ContradictionDetector.

(** [schemas.memo.ContradictionFlag] *)
Record ContradictionFlag : Type := mkFlag {
  historical_memo_id : UUID;
  historical_memo_title : string;
  flag_section : string;
  historical_stance : string;
  current_stance : string;
  contradiction_summary : string;
  severity : string
}.

(** The JSON object of the model's answer: a key that is absent is
    [None]. *)
Record Verdict : Type := mkVerdict {
  has_contradiction : bool;
  v_section : option string;
  v_historical_stance : option string;
  v_current_stance : option string;
  v_contradiction_summary : option string;
  v_severity : option string
}.

Definition sections_to_check : list (string * string) :=
  [ ("market_analysis", "market sizing and opportunity");
    ("team_assessment", "team evaluation");
    ("investment_thesis", "investment reasoning");
    ("competitive_landscape", "competitive analysis") ].

Section Detector.

Variable embed_text : string -> result Embedding.
(** [client.messages.create] on [CONTRADICTION_PROMPT] formatted with the
    four strings, followed by the extraction and [json.loads] of the
    answer; an answer that is no JSON object of strings is a failure. *)
Variable ask : string -> string -> string -> string -> result Verdict.

(** [try: ... except Exception: log] around the whole body: every failure,
    a missing key of the answer included, gives [None]. *)
Definition _check_contradiction (section_name current_content
    historical_title historical_content : string)
    (historical_memo_id : UUID) : option ContradictionFlag :=
  match ask section_name (take 2000 current_content)
          historical_title
          (take 2000 historical_content) with
  | Ok result =>
    if has_contradiction result then
      match v_section result, v_historical_stance result,
            v_current_stance result, v_contradiction_summary result with
      | Some section, Some historical, Some current, Some summary =>
        Some (mkFlag historical_memo_id historical_title section historical
                current summary
                (match v_severity result with
                 | Some s => s
                 | None => "medium"
                 end))
      | _, _, _, _ => None
      end
    else None
  | Raise _ => None
  end.

(** The inner loop over the chunks found for one section. *)
Fixpoint check_chunks (section_key section_content : string)
    (similar_chunks : list VectorStore.SearchHit)
  : list ContradictionFlag :=
  match similar_chunks with
  | [] => []
  | chunk :: rest =>
    if negb (Qle_bool (75 # 100) (VectorStore.h_similarity chunk))
    then check_chunks section_key section_content rest
    else
      match _check_contradiction section_key section_content
              (VectorStore.h_document_title chunk)
              (VectorStore.h_content chunk)
              (VectorStore.h_document_id chunk) with
      | Some contradiction =>
        contradiction :: check_chunks section_key section_content rest
      | None => check_chunks section_key section_content rest
      end
  end.

(** The outer loop; [sections] is [sections.get]. *)
Fixpoint check_sections (self_firm_id : UUID) (db : MemoryDB)
    (sections : string -> option string) (to_check : list (string * string))
  : result (MemoryDB * list ContradictionFlag) :=
  match to_check with
  | [] => Ok (db, [])
  | (section_key, section_description) :: rest =>
    let section_content := sections section_key in
    if negb (truthy_str section_content)
    then check_sections self_firm_id db sections rest
    else
      found <- VectorStore.search_historical_memos embed_text self_firm_id
                 db (or_empty section_content) 3 None ;;
      later <- check_sections self_firm_id (fst found) sections rest ;;
      Ok (fst later,
          (check_chunks section_key (or_empty section_content) (snd found)
           ++ snd later)%list)
  end.

Definition detect_contradictions (self_firm_id : UUID) (db : MemoryDB)
    (memo_id : UUID) (sections : string -> option string)
    (lookback_days : Z) : result (MemoryDB * list ContradictionFlag) :=
  check_sections self_firm_id db sections sections_to_check.

End Detector.

End ContradictionDetector.

(** ** app/services/memory/pdf_parser.py *)

Module PDFParser.

(** One dict of the list [chunk_text] returns. *)
Record TextChunk (char : Type) : Type := mkTextChunk {
  tc_chunk_index : Z;
  tc_content : list char;
  start_char : Z;
  end_char : Z
}.

Arguments mkTextChunk {char} _ _ _ _.
Arguments tc_chunk_index {char} _.
Arguments tc_content {char} _.
Arguments start_char {char} _.
Arguments end_char {char} _.

Section Parser.

(** The characters of a [str], their [==] and [str.isspace]. *)
Context {char : Type}.
Variable char_eqb : char -> char -> bool.
Variable isspace : char -> bool.
(** The characters of the separators ["\n\n"] and [". "]. *)
Variables newline period space : char.

(** A slice bound as Python reads it on a sequence of length [n]. *)
Definition bound (n i : Z) : Z :=
  if i <? 0 then Z.max 0 (n + i) else Z.min i n.

(** [text[start:end]] *)
Definition slice (text : list char) (start end_ : Z) : list char :=
  let a := bound (len text) start in
  let b := bound (len text) end_ in
  firstn (Z.to_nat (b - a)) (skipn (Z.to_nat a) text).

Fixpoint startswith (sub s : list char) : bool :=
  match sub, s with
  | [], _ => true
  | _ :: _, [] => false
  | c :: sub', d :: s' => char_eqb c d && startswith sub' s'
  end.

(** [text.rfind(sub, start, end)]: the highest index of the window at
    which [sub] occurs, or -1. *)
Definition rfind (text sub : list char) (start end_ : Z) : Z :=
  let a := bound (len text) start in
  let b := bound (len text) end_ in
  let positions :=
    map (fun k => a + Z.of_nat k)
        (seq 0 (Z.to_nat (b - len sub - a + 1))) in
  match find (fun i => startswith sub (skipn (Z.to_nat i) text))
             (rev positions) with
  | Some i => i
  | None => -1
  end.

Fixpoint lstrip (s : list char) : list char :=
  match s with
  | [] => []
  | c :: t => if isspace c then lstrip t else s
  end.

(** [str.strip()] *)
Definition strip (s : list char) : list char :=
  rev (lstrip (rev (lstrip s))).

(** The end of the chunk that starts at [start]: a paragraph break or else
    a sentence break in the second half of the window, or the window's
    end. *)
Definition chunk_end (text : list char) (chunk_size start : Z) : Z :=
  let end_ := start + chunk_size in
  if end_ <? len text then
    let para_break := rfind text [newline; newline] start end_ in
    if start + chunk_size / 2 <? para_break then para_break
    else
      let sentence_break := rfind text [period; space] start end_ in
      if start + chunk_size / 2 <? sentence_break then sentence_break + 1
      else end_
  else end_.

(** The [while] loop; [fuel] bounds the number of iterations, and [None]
    says that it was used up. *)
Fixpoint chunk_loop (fuel : nat) (text : list char) (chunk_size overlap : Z)
    (start chunk_index : Z) : option (list (TextChunk char)) :=
  if negb (start <? len text) then Some []
  else
    match fuel with
    | O => None
    | S fuel' =>
      let end_ := chunk_end text chunk_size start in
      let chunk_text := strip (slice text start end_) in
      let next := if end_ <? len text then end_ - overlap else len text in
      if nonempty chunk_text then
        option_map (cons (mkTextChunk chunk_index chunk_text start end_))
          (chunk_loop fuel' text chunk_size overlap next (chunk_index + 1))
      else chunk_loop fuel' text chunk_size overlap next chunk_index
    end.

Definition chunk_text (fuel : nat) (text : list char)
    (chunk_size overlap : Z) : option (list (TextChunk char)) :=
  if negb (nonempty text) then Some []
  else chunk_loop fuel text chunk_size overlap 0 0.

End Parser.

End PDFParser.

(** * Vocabulary of the properties, and example data *)

(** Primary keys of the vote table are distinct and below the next key. *)
Definition keys_ok (db : PollDB) : Prop :=
  NoDup (map vote_pk (votes db))
  /\ Forall (fun v => vote_pk v < fresh db) (votes db).

(** What a poll is when [submit_vote] accepts votes for it at [now]. *)
Definition open_at (now : datetime) (poll : ConvictionPoll) : Prop :=
  is_active poll = true
  /\ match closes_at poll with
     | Some t => now <= t
     | None => True
     end.

Definition demo_deal : Deal :=
  mkDeal 7 1 "Acme" None None (Some IC_REVIEW) None None None None.

Definition open_poll : ConvictionPoll :=
  mkPoll 10 7 1 true false 3 None None None.

Definition empty_db : PollDB := mkPollDB [open_poll] [] [] [demo_deal] 100.

Definition ballot (score : Z) : PollVoteCreate :=
  mkVoteCreate score None None None None None.

(** The poll object as [reveal_poll] leaves it, given the votes it read. *)
Definition revealed (poll : ConvictionPoll) (votes : list PollVote)
  : ConvictionPoll :=
  if nonempty votes then
    mkPoll (id poll) (deal_id poll) (firm_id poll) false true
      (reveal_threshold poll) (closes_at poll)
      (Some (max (map conviction_score votes)
             - min (map conviction_score votes)))
      (Some (sum (map conviction_score votes)
             / len (map conviction_score votes)))
  else
    mkPoll (id poll) (deal_id poll) (firm_id poll) false true
      (reveal_threshold poll) (closes_at poll)
      (divergence_score poll) (average_score poll).

Record Submission : Type := mkSubmission {
  s_firm : UUID;
  s_now : datetime;
  s_poll : UUID;
  s_user : UUID;
  s_data : PollVoteCreate
}.

(** One request to [submit_vote]: a raised error leaves the tables as they
    were. *)
Definition attempt (db : PollDB) (s : Submission) : PollDB :=
  match PollingService.submit_vote (s_firm s) (s_now s) db (s_poll s)
          (s_user s) (s_data s) with
  | Ok (db', _) => db'
  | Raise _ => db
  end.

Definition attempts (db : PollDB) (l : list Submission) : PollDB :=
  fold_left attempt l db.

Definition cast (pk uid score : Z) : PollVote :=
  mkVote pk 10 uid score None None None None None 50 50.

Definition voted_db : PollDB :=
  mkPollDB [open_poll] [cast 100 21 4; cast 101 22 9; cast 102 23 8] []
    [demo_deal] 103.

Definition late_ballots : list Submission :=
  [ mkSubmission 1 70 10 24 (ballot 1); mkSubmission 1 71 10 21 (ballot 10) ].

Definition in_range (score : Z) : Prop := 1 <= score <= 10.

Definition is_some {A : Type} (o : option A) : bool :=
  match o with
  | Some _ => true
  | None => false
  end.

(** A response discloses its voter when it carries the voter's id or name
    or one of the free-text notes. *)
Definition discloses (r : PollVoteResponse) : bool :=
  is_some (r_user_id r) || is_some (r_user_name r)
  || is_some (r_red_flag_notes r) || is_some (r_green_flag_notes r).

(** What a vote shows of itself before the reveal. *)
Definition public (v : PollVote)
  : UUID * UUID * Z * option (list string) * option (list string) * datetime :=
  (vote_pk v, poll_id v, conviction_score v, red_flags v, green_flags v,
   submitted_at v).

(** The same ballots in two states: a vote of the requester is the same
    row in both, shown with the same name; every other vote may have been
    cast by another member, with other notes. *)
Definition same_ballots (requester : UUID) (db db' : PollDB) : Prop :=
  Forall2
    (fun v v' =>
       public v = public v'
       /\ ((user_id v <> requester /\ user_id v' <> requester)
           \/ (v' = v /\ vote_user db' v = vote_user db v)))
    (votes db) (votes db').

Definition noted (pk uid : UUID) (score : Z) (notes : string) : PollVote :=
  mkVote pk 10 uid score (Some ["team risk"]) (Some notes) None None
    (Some notes) 50 50.

Definition secret_db : PollDB :=
  mkPollDB [open_poll] [noted 100 21 4 "too academic"; noted 101 22 9 "moat"]
    [mkUser 21 "Ann"; mkUser 22 "Bob"] [demo_deal] 102.

(** The ballots of [secret_db] with the second one cast by another member:
    the first is Ann's in both. *)
Definition recast_db : PollDB :=
  mkPollDB [open_poll] [noted 100 21 4 "too academic"; noted 101 24 9 "team"]
    [mkUser 21 "Ann"; mkUser 24 "Dee"] [demo_deal] 102.

Import GhostLossAnalyzer.

(** What [str.lower] gives on text of ASCII letters, for the examples. *)
Definition lower_ascii (c : ascii) : ascii :=
  let n := nat_of_ascii c in
  if (65 <=? n)%nat && (n <=? 90)%nat then ascii_of_nat (n + 32) else c.

Fixpoint ascii_lower (s : string) : string :=
  match s with
  | EmptyString => EmptyString
  | String c t => String (lower_ascii c) (ascii_lower t)
  end.

Section Names.

Variable lower : string -> string.

Definition named (p : Pattern) : Prop := company_key lower p <> EmptyString.

Definition same_company (k : string) (p : Pattern) : bool :=
  String.eqb (company_key lower p) k.

Definition unnamed (p : Pattern) : bool := is_empty (company_key lower p).

End Names.

Definition candidate (kind name : string) (similarity : Q) : Pattern :=
  mkPattern kind None None None (Some name) None None None similarity None
    None None.

Definition acme_deal : Pattern := candidate "passed_deal" "Acme" (6 # 10).
Definition acme_memo : Pattern := candidate "historical_memo" "ACME" (9 # 10).

Definition memo_of (pk firm : UUID) (title : string) : Document :=
  mkDocument pk firm None title (Some IC_MEMO) None.

Definition chunk_of (pk doc firm : UUID) (text : string) : DocumentChunk :=
  mkChunk pk doc firm text 0 None None (Some [1%Q]).

(** Two tenants, one memo chunk each, with the same embedding. *)
Definition two_tenant_db : MemoryDB :=
  mkMemoryDB []
    [memo_of 1 1 "memo_a.txt"; memo_of 2 2 "memo_b.txt"]
    [chunk_of 11 1 1 "we passed: key risk"; chunk_of 22 2 2 "risk too high"]
    None None.

Definition unit_embed (text : string) : result Embedding := Ok [1%Q].

Definition new_deal : Deal :=
  mkDeal 6 1 "NewCo" None None (Some IC_REVIEW) None None None None.

Definition broken_db : MemoryDB :=
  mkMemoryDB [] [memo_of 1 1 "memo_a.txt"]
    [chunk_of 11 1 1 "we passed: key risk"] None
    (Some (DBAPIError "connection lost")).

Definition old_deal : Deal :=
  mkDeal 5 1 "OldCo" None None (Some PASSED) None None (Some "too early")
    (Some 40).

(** Two passed deals of one company, written in two ways, and a third
    deal; the examples give them the similarities 0.6, 0.9 and 0.7. *)
Definition acme_low : Deal :=
  mkDeal 51 1 "Acme" None None (Some PASSED) None None (Some "too early")
    (Some 41).

Definition acme_high : Deal :=
  mkDeal 52 1 "ACME" None None (Some PASSED) None None
    (Some "crowded market") (Some 42).

Definition acme_db : MemoryDB :=
  mkMemoryDB [acme_low; acme_high; old_deal] [] [] None None.

Definition embed_name (text : string) : result Embedding :=
  Ok [ if String.prefix "Acme" text then 6 # 10
       else if String.prefix "ACME" text then 9 # 10
       else 7 # 10 ].

Definition second_coordinate (embedding1 embedding2 : Embedding) : Q :=
  hd 0%Q embedding2.

(** A tenant with one passed deal, which the examples put exactly at
    similarity 1/2 to the new deal. *)
Definition cutoff_db : MemoryDB :=
  mkMemoryDB [old_deal] [memo_of 1 1 "memo_a.txt"]
    [chunk_of 11 1 1 "we passed: key risk"] None None.

(** Keys of the poll table, and the poll keys the votes refer to, are below
    the next key. *)
Definition poll_keys_ok (db : PollDB) : Prop :=
  Forall (fun p => id p < fresh db) (polls db)
  /\ Forall (fun v => poll_id v < fresh db) (votes db).

(** Only closed polls carry a divergence. *)
Definition divergence_only_when_closed (db : PollDB) : Prop :=
  Forall (fun p => divergence_score p <> None -> is_active p = false)
         (polls db).

Definition poll_request : ConvictionPollCreate :=
  mkPollCreate 7 "IC vote" None (Some 90) None 3.

(** The count a [Counter] holds for a flag, 0 when it has none. *)
Definition count_of (flag : string) (c : list (string * Z)) : Z :=
  match find (fun e => String.eqb (fst e) flag) c with
  | Some e => snd e
  | None => 0
  end.

Definition occurrences (flags : list string) (flag : string) : Z :=
  Z.of_nat (count_occ string_dec flags flag).

(** [top] lists at most five distinct flags of [flags] with their numbers
    of occurrences, most frequent first, and no flag left out occurs more
    often than a listed one. *)
Definition top_five (flags : list string) (top : list (string * Z)) : Prop :=
  (List.length top <= 5)%nat
  /\ NoDup (map fst top)
  /\ (forall f n, In (f, n) top -> In f flags /\ n = occurrences flags f)
  /\ StronglySorted (fun a b => snd b <= snd a) top
  /\ (forall g, In g flags ->
        In (g, occurrences flags g) top
        \/ forall e, In e top -> occurrences flags g <= snd e).

(** A table state with an active poll that carries a divergence. *)
Definition divergent_poll : ConvictionPoll :=
  mkPoll 11 7 1 true false 3 None (Some 6) (Some 5).

Definition divergent_db : PollDB :=
  mkPollDB [open_poll; divergent_poll] [] [] [demo_deal] 100.

(** What [embed_texts] is documented to rebuild: the vectors of the model,
    in order, at the places of the non-empty texts, and the zero vector at
    the places of the empty ones (also where the model gave too few). *)
Fixpoint weave (zero : Embedding) (texts : list string)
    (embeddings : list Embedding) : list Embedding :=
  match texts with
  | [] => []
  | t :: rest =>
    if nonempty_str t then
      match embeddings with
      | e :: es => e :: weave zero rest es
      | [] => zero :: weave zero rest []
      end
    else zero :: weave zero rest embeddings
  end.

(** A list in descending order of a score. *)
Definition descending {B : Type} (score : B -> Q) (l : list B) : Prop :=
  StronglySorted (fun x y => (score y <= score x)%Q) l.

(** A deal the structured pass compares the new deal with: a passed deal
    of tenant [A] with a recorded reason, of the new deal's sector when
    that is set. *)
Definition comparable_deal (A : UUID) (deal d : Deal) : Prop :=
  deal_firm_id d = A /\ stage d = Some PASSED /\ pass_reason d <> None
  /\ (truthy_str (sector deal) = true -> sector d = sector deal).

(** [p] is a candidate of the structured pass, built from such a deal. *)
Definition from_passed_deal (A : UUID) (db : MemoryDB) (deal : Deal)
    (p : Pattern) : Prop :=
  exists d,
    In d (m_deals db) /\ comparable_deal A deal d
    /\ p_type p = "passed_deal" /\ p_deal_id p = Some (deal_pk d)
    /\ p_company_name p = Some (company_name d)
    /\ p_pass_reason p = pass_reason d.

(** The [where] clauses of the structured pass, as a test of one deal. *)
Definition compared (self_firm_id : UUID) (deal d : Deal) : bool :=
  (deal_firm_id d =? self_firm_id)
  && is_passed (stage d)
  && match pass_reason d with
     | Some _ => true
     | None => false
     end
  && (if truthy_str (sector deal)
      then match sector d with
           | Some s => String.eqb s (or_empty (sector deal))
           | None => false
           end
      else true).

(** A new deal in fintech, and a tenant whose only passed deal is in
    another sector. *)
Definition fintech_deal : Deal :=
  mkDeal 6 1 "NewCo" None None (Some IC_REVIEW) (Some "fintech") None None
    None.

Definition health_db : MemoryDB :=
  mkMemoryDB
    [mkDeal 5 1 "OldCo" None None (Some PASSED) (Some "health") None
       (Some "too early") (Some 40)]
    [] [] None None.

Definition embed_down (text : string) : result Embedding :=
  Raise (ProviderError "model not loaded").

(** A tenant with a passed deal and a memo chunk, and another tenant's
    passed deal. *)
Definition ghost_db : MemoryDB :=
  mkMemoryDB
    [ old_deal;
      mkDeal 7 2 "OtherCo" None None (Some PASSED) None None
        (Some "not ours") (Some 50) ]
    [memo_of 1 1 "memo_a.txt"]
    [chunk_of 11 1 1 "we passed: key risk"] None None.

Import ContradictionDetector.

(** The sections of a generated memo: only the market analysis is
    filled. *)
Definition market_only (key : string) : option string :=
  if String.eqb key "market_analysis" then Some "a large market" else None.

Definition says_contradiction (section_name current_content historical_title
    historical_content : string) : result Verdict :=
  Ok (mkVerdict true (Some section_name) (Some "small market")
        (Some "large market") (Some "the market was called small") None).

Definition checked_sections : list string :=
  [ "market_analysis"; "team_assessment"; "investment_thesis";
    "competitive_landscape" ].

(** The chunk [c] as [chunk_text] cuts it from [text]: a window of at most
    [chunk_size] characters that starts inside the text, whose content is
    the window without the white space at its two ends, and is not
    empty. *)
Definition well_cut {char : Type} (isspace : char -> bool)
    (text : list char) (chunk_size : Z) (c : PDFParser.TextChunk char)
  : Prop :=
  0 <= PDFParser.start_char c < len text
  /\ PDFParser.start_char c < PDFParser.end_char c
                              <= PDFParser.start_char c + chunk_size
  /\ (exists before after,
        PDFParser.slice text (PDFParser.start_char c) (PDFParser.end_char c)
        = (before ++ PDFParser.tc_content c ++ after)%list
        /\ Forall (fun x => isspace x = true) before
        /\ Forall (fun x => isspace x = true) after)
  /\ PDFParser.tc_content c <> []
  /\ len (PDFParser.tc_content c) <= chunk_size
  /\ (forall x,
        hd_error (PDFParser.tc_content c) = Some x
        \/ hd_error (rev (PDFParser.tc_content c)) = Some x ->
        isspace x = false).

(** The chunks come in the order of the text. *)
Definition in_text_order {char : Type}
    (chunks : list (PDFParser.TextChunk char)) : Prop :=
  StronglySorted
    (fun a b => PDFParser.start_char a < PDFParser.start_char b) chunks.

Definition chars (s : string) : list ascii := list_ascii_of_string s.

Definition chunk_ascii (fuel : nat) (text : string)
    (chunk_size overlap : Z) : option (list (PDFParser.TextChunk ascii)) :=
  PDFParser.chunk_text Ascii.eqb space1 "010"%char "."%char " "%char fuel
    (chars text) chunk_size overlap.

(** A poll of another tenant. *)
Definition other_poll : ConvictionPoll :=
  mkPoll 10 7 2 true false 3 None None None.

(** The number of votes with score [k]. *)
Definition tally (scores : list Z) (k : Z) : Z :=
  Z.of_nat (count_occ Z.eq_dec scores k).

(** [s] occurs in [content] as a run of consecutive characters. *)
Definition piece_of (s content : string) : Prop :=
  exists before after, content = before ++ s ++ after.

(** What [re.search] gives on a chunk that only the third pattern of
    [_extract_pass_reason] matches. *)
Definition third_only (pattern content : string) : option string :=
  if String.eqb pattern "concerns?\s*(?:include|are|:)\s*(.{50,300})"
  then Some "churn is high and the sales cycle is far too long for this stage  "
  else None.

(** U+00A0, the no-break space, which [str.strip] removes. *)
Definition nbsp : string := String "194"%char (String "160"%char "").

(** * Properties *)

(** ** The polling state *)

Lemma check_reveal_threshold_id db poll :
  PollingService._check_reveal_threshold db poll = db.
Proof.
  unfold PollingService._check_reveal_threshold.
  now destruct (_ && _).
Qed.

Lemma NoDup_map_inj {A B : Type} (f : A -> B) (l : list A) x y :
  NoDup (map f l) -> In x l -> In y l -> f x = f y -> x = y.
Proof.
  induction l as [|a l IH]; simpl; [easy|].
  intros Hnd Hx Hy Hf. inversion Hnd as [|? ? Hnotin Hnd']; subst.
  destruct Hx as [->|Hx], Hy as [->|Hy]; auto.
  - exfalso. apply Hnotin. rewrite Hf. now apply in_map.
  - exfalso. apply Hnotin. rewrite <- Hf. now apply in_map.
Qed.

(** Rewriting a row whose key does not occur changes nothing. *)
Lemma replace_absent (vote : PollVote) (l : list PollVote) :
  Forall (fun v => vote_pk v <> vote_pk vote) l ->
  map (fun v => if vote_pk v =? vote_pk vote then vote else v) l = l.
Proof.
  induction 1 as [|v l Hv _ IH]; simpl; [reflexivity|].
  rewrite IH. apply Z.eqb_neq in Hv. now rewrite Hv.
Qed.

Lemma votes_by_in db pid uid v :
  In v (votes_by db pid uid) <->
  In v (votes db) /\ poll_id v = pid /\ user_id v = uid.
Proof.
  unfold votes_by. rewrite filter_In, andb_true_iff, !Z.eqb_eq. tauto.
Qed.

Lemma get_poll_id db pid poll : get_poll db pid = Some poll -> id poll = pid.
Proof.
  unfold get_poll. intros H. apply find_some in H. now apply Z.eqb_eq.
Qed.

Lemma submit_vote_open firm now db pid uid data poll :
  get_poll db pid = Some poll -> firm_id poll = firm -> open_at now poll ->
  PollingService.submit_vote firm now db pid uid data =
  existing_vote <- scalar_one_or_none (votes_by db pid uid) ;;
  match existing_vote with
  | Some e =>
    let vote :=
      mkVote (vote_pk e) (poll_id e) (user_id e) (c_conviction_score data)
        (c_red_flags data) (c_red_flag_notes data) (c_green_flags data)
        (c_green_flag_notes data) (c_private_notes data)
        (submitted_at e) now in
    Ok (flush_vote db vote, vote)
  | None =>
    let vote :=
      mkVote (fresh db) pid uid (c_conviction_score data)
        (c_red_flags data) (c_red_flag_notes data) (c_green_flags data)
        (c_green_flag_notes data) (c_private_notes data) now now in
    Ok (add_vote db vote, vote)
  end.
Proof.
  intros Hget Hfirm [Hact Hclose].
  unfold PollingService.submit_vote. rewrite Hget, Hfirm, Z.eqb_refl, Hact.
  simpl negb. cbv iota.
  assert (Hc : match closes_at poll with
               | Some t => t <? now
               | None => false
               end = false).
  { destruct (closes_at poll); [apply Z.ltb_ge; assumption|reflexivity]. }
  rewrite Hc.
  destruct (scalar_one_or_none (votes_by db pid uid)) as [[e|]|]; simpl;
    try rewrite check_reveal_threshold_id; reflexivity.
Qed.

(** Two submissions by one voter to one open poll, the first when the voter
    has no vote yet. *)
Section Upsert.

Variables (firm : UUID) (now1 now2 : datetime) (db : PollDB).
Variables (pid uid : UUID) (data1 data2 : PollVoteCreate).
Variable poll : ConvictionPoll.

Hypothesis Hkeys : keys_ok db.
Hypothesis Hpoll : get_poll db pid = Some poll.
Hypothesis Hfirm : firm_id poll = firm.
Hypothesis Hopen1 : open_at now1 poll.
Hypothesis Hopen2 : open_at now2 poll.
Hypothesis Hnone : votes_by db pid uid = [].

Let vote1 : PollVote :=
  mkVote (fresh db) pid uid (c_conviction_score data1)
    (c_red_flags data1) (c_red_flag_notes data1) (c_green_flags data1)
    (c_green_flag_notes data1) (c_private_notes data1) now1 now1.

Let vote2 : PollVote :=
  mkVote (fresh db) pid uid (c_conviction_score data2)
    (c_red_flags data2) (c_red_flag_notes data2) (c_green_flags data2)
    (c_green_flag_notes data2) (c_private_notes data2) now1 now2.

Lemma first_submission :
  PollingService.submit_vote firm now1 db pid uid data1 =
  Ok (add_vote db vote1, vote1).
Proof.
  rewrite (submit_vote_open _ _ _ _ _ _ _ Hpoll Hfirm Hopen1), Hnone.
  reflexivity.
Qed.

Lemma votes_by_added : votes_by (add_vote db vote1) pid uid = [vote1].
Proof.
  unfold votes_by, add_vote. cbn [votes].
  rewrite filter_app. fold (votes_by db pid uid). rewrite Hnone.
  cbn. now rewrite !Z.eqb_refl.
Qed.

Lemma second_submission :
  PollingService.submit_vote firm now2 (add_vote db vote1) pid uid data2 =
  Ok (mkPollDB (polls db) (votes db ++ [vote2]) (users db) (deals db)
        (fresh db + 1), vote2).
Proof.
  rewrite (submit_vote_open _ _ _ _ _ _ poll); auto.
  rewrite votes_by_added. cbn -[Z.add].
  unfold flush_vote, add_vote. cbn -[Z.add].
  rewrite map_app. cbn -[Z.add]. rewrite Z.eqb_refl.
  rewrite (replace_absent vote2); [reflexivity|].
  destruct Hkeys as [_ Hlt].
  eapply Forall_impl; [|exact Hlt]. cbn. intros; lia.
Qed.

End Upsert.

(** C6.  Vote submission is an upsert keyed on (poll_id, voter_id): on an
    open poll, the first submission of a voter with no vote creates exactly
    one row, and a second submission with other data leaves exactly one row
    for that key, the same row, carrying the latest score, flags and notes
    and the time of the second call as its modification time; the table
    does not grow and the rows of every other key are untouched. *)
Theorem C6_submit_vote_upsert
    (firm : UUID) (now1 now2 : datetime) (db : PollDB) (pid uid : UUID)
    (data1 data2 : PollVoteCreate) (poll : ConvictionPoll) :
  keys_ok db ->
  get_poll db pid = Some poll ->
  firm_id poll = firm ->
  open_at now1 poll ->
  open_at now2 poll ->
  votes_by db pid uid = [] ->
  exists db1 v1 db2 v2,
    PollingService.submit_vote firm now1 db pid uid data1 = Ok (db1, v1)
    /\ votes_by db1 pid uid = [v1]
    /\ len (votes db1) = len (votes db) + 1
    /\ PollingService.submit_vote firm now2 db1 pid uid data2 = Ok (db2, v2)
    /\ votes_by db2 pid uid = [v2]
    /\ len (votes db2) = len (votes db1)
    /\ vote_pk v2 = vote_pk v1
    /\ submitted_at v2 = submitted_at v1
    /\ updated_at v2 = now2
    /\ conviction_score v2 = c_conviction_score data2
    /\ red_flags v2 = c_red_flags data2
    /\ red_flag_notes v2 = c_red_flag_notes data2
    /\ green_flags v2 = c_green_flags data2
    /\ green_flag_notes v2 = c_green_flag_notes data2
    /\ private_notes v2 = c_private_notes data2
    /\ (forall p u, (p, u) <> (pid, uid) ->
          votes_by db2 p u = votes_by db p u).
Proof.
  intros Hkeys Hpoll Hfirm Ho1 Ho2 Hnone.
  eexists _, _, _, _.
  split; [apply (first_submission firm now1 db pid uid data1 poll); auto|].
  split; [apply votes_by_added; auto|].
  split; [unfold add_vote, len; cbn [votes]; rewrite length_app; cbn; lia|].
  split; [apply (second_submission firm now1 now2 db pid uid data1 data2 poll);
          auto|].
  split.
  { unfold votes_by in *. cbn [votes]. rewrite filter_app, Hnone.
    cbn. now rewrite !Z.eqb_refl. }
  split.
  { unfold add_vote, len. cbn [votes]. now rewrite !length_app. }
  repeat (split; [reflexivity|]).
  intros p u Hne. unfold votes_by. cbn [votes]. rewrite filter_app.
  cbn. destruct (Z.eqb_spec pid p) as [->|]; cbn;
    [|now rewrite app_nil_r].
  destruct (Z.eqb_spec uid u) as [->|]; cbn; [congruence|].
  now rewrite app_nil_r.
Qed.

Lemma C6_witness :
  exists db1 v1 db2 v2,
    PollingService.submit_vote 1 50 empty_db 10 21 (ballot 4) = Ok (db1, v1)
    /\ votes_by db1 10 21 = [v1]
    /\ PollingService.submit_vote 1 60 db1 10 21 (ballot 9) = Ok (db2, v2)
    /\ votes_by db2 10 21 = [v2]
    /\ conviction_score v2 = 9
    /\ updated_at v2 = 60.
Proof.
  destruct (C6_submit_vote_upsert 1 50 60 empty_db 10 21 (ballot 4) (ballot 9)
              open_poll)
    as (db1 & v1 & db2 & v2 & H1 & H2 & _ & H3 & H4 & _ & _ & _ & H5 & H6 & _).
  - split; [constructor|constructor].
  - reflexivity.
  - reflexivity.
  - split; [reflexivity|exact I].
  - split; [reflexivity|exact I].
  - reflexivity.
  - exists db1, v1, db2, v2. repeat split; assumption.
Defined.

(** ** Reveal *)

Lemma reveal_poll_found firm db pid by_user poll :
  get_poll db pid = Some poll -> firm_id poll = firm ->
  PollingService.reveal_poll firm db pid by_user =
  Ok (flush_poll db (revealed poll (votes_of db pid)),
      revealed poll (votes_of db pid)).
Proof.
  intros Hget Hfirm. unfold PollingService.reveal_poll, revealed.
  rewrite Hget, Hfirm, Z.eqb_refl. reflexivity.
Qed.

Lemma reveal_poll_inv firm db pid by_user db1 p1 :
  PollingService.reveal_poll firm db pid by_user = Ok (db1, p1) ->
  exists poll,
    get_poll db pid = Some poll /\ firm_id poll = firm
    /\ p1 = revealed poll (votes_of db pid) /\ db1 = flush_poll db p1.
Proof.
  unfold PollingService.reveal_poll.
  destruct (get_poll db pid) as [poll|] eqn:Hget; [|discriminate].
  destruct (Z.eqb_spec (firm_id poll) firm) as [Hf|]; [|discriminate].
  cbn. intros H. injection H as <- <-. exists poll. now repeat split.
Qed.

Lemma revealed_flags poll votes :
  id (revealed poll votes) = id poll
  /\ firm_id (revealed poll votes) = firm_id poll
  /\ is_active (revealed poll votes) = false
  /\ is_revealed (revealed poll votes) = true.
Proof. unfold revealed. now destruct (nonempty votes). Qed.

Lemma get_poll_flush db pid poll p' :
  get_poll db pid = Some poll -> id p' = pid ->
  get_poll (flush_poll db p') pid = Some p'.
Proof.
  unfold get_poll, flush_poll. cbn [polls]. intros Hfind <-.
  induction (polls db) as [|a l IH]; [discriminate|].
  cbn in *.
  destruct (Z.eqb_spec (id a) (id p')) as [Ha|Ha].
  - now rewrite Z.eqb_refl.
  - apply Z.eqb_neq in Ha. rewrite Ha. now apply IH.
Qed.

(** ** What [submit_vote] does to the tables *)

Lemma submit_vote_inv firm now db pid uid data db' v :
  PollingService.submit_vote firm now db pid uid data = Ok (db', v) ->
  exists poll,
    get_poll db pid = Some poll /\ is_active poll = true
    /\ polls db' = polls db
    /\ poll_id v = pid /\ user_id v = uid
    /\ ((votes_by db pid uid = [] /\ db' = add_vote db v
         /\ vote_pk v = fresh db)
        \/ (exists e, votes_by db pid uid = [e] /\ db' = flush_vote db v
                      /\ vote_pk v = vote_pk e)).
Proof.
  unfold PollingService.submit_vote.
  destruct (get_poll db pid) as [poll|] eqn:Hget; [|discriminate].
  destruct (negb (firm_id poll =? firm)); [discriminate|].
  destruct (is_active poll) eqn:Hact; [|discriminate]. cbn [negb].
  destruct (match closes_at poll with Some t => t <? now | None => false end);
    [discriminate|].
  destruct (votes_by db pid uid) as [|e [|e' rest]] eqn:Hby; cbn;
    [| |discriminate]; rewrite check_reveal_threshold_id;
    intros H; injection H as <- <-; exists poll; cbn.
  - repeat split; auto.
  - assert (He : In e (votes_by db pid uid)) by (rewrite Hby; now left).
    apply votes_by_in in He as (_ & Hp & Hu).
    repeat split; auto. right. exists e. now repeat split.
Qed.

Lemma submit_vote_inactive firm now db pid uid data poll :
  get_poll db pid = Some poll -> is_active poll = false ->
  exists e, PollingService.submit_vote firm now db pid uid data = Raise e.
Proof.
  intros Hget Hact. unfold PollingService.submit_vote. rewrite Hget, Hact.
  destruct (negb (firm_id poll =? firm)); eexists; reflexivity.
Qed.

Lemma replace_keeps_keys (vote : PollVote) (l : list PollVote) :
  map vote_pk
    (map (fun v => if vote_pk v =? vote_pk vote then vote else v) l)
  = map vote_pk l.
Proof.
  induction l as [|a l IH]; cbn; [reflexivity|]. rewrite IH. f_equal.
  destruct (Z.eqb_spec (vote_pk a) (vote_pk vote)); congruence.
Qed.

Lemma submit_vote_keys firm now db pid uid data db' v :
  keys_ok db ->
  PollingService.submit_vote firm now db pid uid data = Ok (db', v) ->
  keys_ok db'.
Proof.
  intros [Hnd Hlt] H.
  apply submit_vote_inv in H
    as (poll & _ & _ & _ & _ & _ & [(_ & -> & Hpk) | (e & _ & -> & Hpk)]).
  - split; cbn [add_vote votes fresh].
    + rewrite map_app. cbn. apply NoDup_app_remove_l with (l := []).
      cbn. apply Permutation_NoDup with (l := vote_pk v :: map vote_pk (votes db)).
      * apply Permutation_cons_append.
      * constructor; [|assumption]. rewrite in_map_iff.
        intros (x & Hx & Hin). rewrite Forall_forall in Hlt.
        specialize (Hlt x Hin). lia.
    + apply Forall_app. split.
      * eapply Forall_impl; [|exact Hlt]. cbn. intros; lia.
      * constructor; [lia|constructor].
  - split; cbn [flush_vote votes fresh].
    + now rewrite replace_keeps_keys.
    + rewrite Forall_forall in *. intros x Hx.
      apply in_map_iff in Hx as (y & <- & Hy).
      destruct (Z.eqb_spec (vote_pk y) (vote_pk v)) as [Heq|]; auto.
      rewrite <- Heq. auto.
Qed.

Lemma filter_replace (P : PollVote -> bool) (vote : PollVote)
    (l : list PollVote) :
  (forall x, In x l -> vote_pk x = vote_pk vote -> P x = false) ->
  P vote = false ->
  filter P (map (fun v => if vote_pk v =? vote_pk vote then vote else v) l)
  = filter P l.
Proof.
  intros Hall Hv. induction l as [|a l IH]; cbn; [reflexivity|].
  rewrite IH by (intros x Hx; apply Hall; now right).
  destruct (Z.eqb_spec (vote_pk a) (vote_pk vote)) as [Ha|Ha]; [|reflexivity].
  now rewrite Hv, (Hall a (or_introl eq_refl) Ha).
Qed.

Lemma submit_vote_other_poll firm now db pid' uid data db' v pid :
  keys_ok db -> pid' <> pid ->
  PollingService.submit_vote firm now db pid' uid data = Ok (db', v) ->
  votes_of db' pid = votes_of db pid.
Proof.
  intros [Hnd _] Hne H.
  apply submit_vote_inv in H
    as (poll & _ & _ & _ & Hp & _ & [(_ & -> & _) | (e & Hby & -> & Hpk)]).
  - unfold votes_of. cbn [add_vote votes]. rewrite filter_app. cbn.
    rewrite Hp. apply Z.eqb_neq in Hne. rewrite Hne. apply app_nil_r.
  - unfold votes_of. cbn [flush_vote votes].
    assert (He : In e (votes_by db pid' uid)) by (rewrite Hby; now left).
    apply votes_by_in in He as (He & Hep & _).
    apply filter_replace.
    + intros x Hx Hk. rewrite Hpk in Hk.
      rewrite (NoDup_map_inj vote_pk (votes db) x e Hnd Hx He Hk).
      apply Z.eqb_neq. lia.
    + apply Z.eqb_neq. lia.
Qed.

Lemma filter_replace_single (P : PollVote -> bool) (vote e : PollVote)
    (l : list PollVote) :
  NoDup (map vote_pk l) -> vote_pk vote = vote_pk e -> P vote = true ->
  filter P l = [e] ->
  filter P (map (fun v => if vote_pk v =? vote_pk vote then vote else v) l)
  = [vote].
Proof.
  intros Hnd Hpk Hv. induction l as [|a l IH]; cbn; [discriminate|].
  inversion Hnd as [|? ? Hnotin Hnd']; subst.
  destruct (P a) eqn:Ha.
  - intros Hf. injection Hf as -> Hnil.
    rewrite Hpk, Z.eqb_refl. cbn. rewrite Hv. f_equal.
    rewrite <- Hpk, (replace_absent vote l); [exact Hnil|].
    apply Forall_forall. intros x Hx Heq. apply Hnotin.
    rewrite <- Hpk, <- Heq. now apply in_map.
  - intros Hf.
    assert (He : In e l).
    { assert (H : In e (filter P l)) by (rewrite Hf; now left).
      now apply filter_In in H. }
    destruct (Z.eqb_spec (vote_pk a) (vote_pk vote)) as [Heq|Hne].
    + exfalso. apply Hnotin. rewrite Heq, Hpk. now apply in_map.
    + cbn. rewrite Ha. now apply IH.
Qed.

(** Whatever the table held for other voters, a submission that returns
    leaves exactly one row for its (poll, voter) key: the vote returned,
    carrying the submitted data. *)
Lemma submit_vote_single_row firm now db pid uid data db' v :
  keys_ok db ->
  PollingService.submit_vote firm now db pid uid data = Ok (db', v) ->
  votes_by db' pid uid = [v]
  /\ conviction_score v = c_conviction_score data
  /\ red_flags v = c_red_flags data /\ green_flags v = c_green_flags data
  /\ updated_at v = now.
Proof.
  intros [Hnd _] H. pose proof H as Hinv.
  apply submit_vote_inv in Hinv
    as (poll & Hget & Hact & _ & Hp & Hu
        & [(Hby & -> & _) | (e & Hby & -> & Hpk)]).
  - split.
    + unfold votes_by in *. cbn [add_vote votes]. rewrite filter_app, Hby.
      cbn. now rewrite Hp, Hu, !Z.eqb_refl.
    + unfold PollingService.submit_vote in H. rewrite Hget, Hact, Hby in H.
      destruct (negb (firm_id poll =? firm)); [discriminate|].
      cbn [negb] in H.
      destruct (match closes_at poll with
                | Some t => t <? now
                | None => false
                end); [discriminate|].
      cbn in H. injection H as _ <-. now repeat split.
  - split.
    + unfold votes_by in *. cbn [flush_vote votes].
      apply filter_replace_single with (e := e); auto.
      now rewrite Hp, Hu, !Z.eqb_refl.
    + unfold PollingService.submit_vote in H. rewrite Hget, Hact, Hby in H.
      destruct (negb (firm_id poll =? firm)); [discriminate|].
      cbn [negb] in H.
      destruct (match closes_at poll with
                | Some t => t <? now
                | None => false
                end); [discriminate|].
      cbn in H. injection H as _ <-. now repeat split.
Qed.

(** ** Submissions between two reveals *)

Lemma attempt_closed db s pid poll :
  keys_ok db -> get_poll db pid = Some poll -> is_active poll = false ->
  get_poll (attempt db s) pid = Some poll
  /\ votes_of (attempt db s) pid = votes_of db pid
  /\ keys_ok (attempt db s).
Proof.
  intros Hk Hget Hact. unfold attempt.
  destruct (PollingService.submit_vote _ _ _ _ _ _) as [[db' v]|e] eqn:Hs;
    [|split; [|split]; auto].
  assert (Hpolls : polls db' = polls db).
  { apply submit_vote_inv in Hs as (? & _ & _ & Hp & _). exact Hp. }
  split; [unfold get_poll in *; now rewrite Hpolls|].
  split; [|eapply submit_vote_keys; eauto].
  destruct (Z.eq_dec (s_poll s) pid) as [Heq|Hne].
  - rewrite Heq in Hs.
    destruct (submit_vote_inactive (s_firm s) (s_now s) db pid (s_user s)
                (s_data s) poll Hget Hact) as [e He].
    congruence.
  - eapply submit_vote_other_poll; eauto.
Qed.

Lemma attempts_closed l : forall db pid poll,
  keys_ok db -> get_poll db pid = Some poll -> is_active poll = false ->
  get_poll (attempts db l) pid = Some poll
  /\ votes_of (attempts db l) pid = votes_of db pid.
Proof.
  induction l as [|s l IH]; intros db pid poll Hk Hget Hact; [easy|].
  change (attempts db (s :: l)) with (attempts (attempt db s) l).
  destruct (attempt_closed db s pid poll Hk Hget Hact) as (Hg & Hv & Hk').
  destruct (IH (attempt db s) pid poll Hk' Hg Hact) as [Hg2 Hv2].
  split; [exact Hg2|congruence].
Qed.

Lemma revealed_again poll votes :
  average_score (revealed (revealed poll votes) votes)
  = average_score (revealed poll votes)
  /\ divergence_score (revealed (revealed poll votes) votes)
     = divergence_score (revealed poll votes).
Proof. unfold revealed. now destruct (nonempty votes). Qed.

(** C2 (as amended).  A second [reveal_poll] recomputes the aggregates from
    the vote rows it finds; it leaves [average_score] and
    [divergence_score] as the first call froze them whenever the calls in
    between are [submit_vote] requests, whatever their tenant, poll, voter
    and data: those aimed at the revealed poll are rejected because it is
    inactive, the others do not touch its rows. *)
Theorem C2_reveal_twice_same_aggregates
    (firm : UUID) (db : PollDB) (pid by1 by2 : UUID) (db1 : PollDB)
    (p1 : ConvictionPoll) (between : list Submission) :
  keys_ok db ->
  PollingService.reveal_poll firm db pid by1 = Ok (db1, p1) ->
  exists db3 p3,
    PollingService.reveal_poll firm (attempts db1 between) pid by2
    = Ok (db3, p3)
    /\ votes_of (attempts db1 between) pid = votes_of db pid
    /\ p3 = revealed p1 (votes_of (attempts db1 between) pid)
    /\ is_revealed p3 = true
    /\ average_score p3 = average_score p1
    /\ divergence_score p3 = divergence_score p1.
Proof.
  intros Hk Hr.
  apply reveal_poll_inv in Hr as (poll & Hget & Hfirm & -> & ->).
  set (vs := votes_of db pid).
  destruct (revealed_flags poll vs) as (Hid & Hf & Hact & Hrev).
  assert (Hget1 : get_poll (flush_poll db (revealed poll vs)) pid
                  = Some (revealed poll vs)).
  { apply (get_poll_flush db pid poll); [exact Hget|].
    rewrite Hid. now apply get_poll_id in Hget. }
  destruct (attempts_closed between (flush_poll db (revealed poll vs)) pid
              (revealed poll vs) Hk Hget1 Hact) as [Hget2 Hv2].
  change (votes_of (flush_poll db (revealed poll vs)) pid) with vs in Hv2.
  eexists _, _. split.
  { apply reveal_poll_found; [exact Hget2|congruence]. }
  rewrite Hv2. repeat split; try apply revealed_again.
  apply revealed_flags.
Qed.

Lemma C2_witness :
  exists db1 p1 db3 p3,
    PollingService.reveal_poll 1 voted_db 10 21 = Ok (db1, p1)
    /\ PollingService.reveal_poll 1 (attempts db1 late_ballots) 10 21
       = Ok (db3, p3)
    /\ average_score p1 = Some 7 /\ average_score p3 = Some 7
    /\ divergence_score p1 = Some 5 /\ divergence_score p3 = Some 5.
Proof.
  eexists _, _.
  destruct (C2_reveal_twice_same_aggregates 1 voted_db 10 21 21 _ _
              late_ballots
              ltac:(split; [repeat constructor; cbn; intuition lia
                           |repeat constructor])
              eq_refl)
    as (db3 & p3 & H3 & _ & _ & _ & Ha & Hd).
  exists db3, p3. split; [reflexivity|]. split; [exact H3|].
  rewrite Ha, Hd. repeat split.
Defined.

(** The claim as stated fails: a vote row that reaches the table between
    the two calls by another way than a later [submit_vote] changes what
    the second call stores. *)
Lemma C2_counterexample :
  ~ (forall firm db db' pid by1 by2 db1 p1 db2 p2,
       PollingService.reveal_poll firm db pid by1 = Ok (db1, p1) ->
       polls db' = polls db1 ->
       (exists added, votes db' = (votes db1 ++ added)%list) ->
       PollingService.reveal_poll firm db' pid by2 = Ok (db2, p2) ->
       average_score p2 = average_score p1
       /\ divergence_score p2 = divergence_score p1).
Proof.
  intros H.
  pose (db1 := flush_poll voted_db (revealed open_poll (votes voted_db))).
  pose (db' := mkPollDB (polls db1) (votes db1 ++ [cast 103 24 1]) []
                 [demo_deal] 104).
  destruct (H 1 voted_db db' 10 21 21 _ _ _ _ eq_refl eq_refl
              (ex_intro _ [cast 103 24 1] eq_refl) eq_refl) as [Ha _].
  discriminate Ha.
Qed.

(** C3 (as amended).  [reveal_poll] stores the revealed flag and the
    aggregates in one row write: the stored poll is revealed and inactive,
    and when the poll has at least one vote both aggregates are present,
    the floor of the mean and the spread; when it has none, the aggregates
    stay what they were. *)
Theorem C3_reveal_stores_flag_with_aggregates
    (firm : UUID) (db : PollDB) (pid by_user : UUID)
    (poll : ConvictionPoll) :
  get_poll db pid = Some poll ->
  firm_id poll = firm ->
  exists db1 p1,
    PollingService.reveal_poll firm db pid by_user = Ok (db1, p1)
    /\ get_poll db1 pid = Some p1
    /\ is_revealed p1 = true
    /\ is_active p1 = false
    /\ (votes_of db pid <> [] ->
        average_score p1
        = Some (sum (map conviction_score (votes_of db pid))
                / len (votes_of db pid))
        /\ divergence_score p1
           = Some (max (map conviction_score (votes_of db pid))
                   - min (map conviction_score (votes_of db pid))))
    /\ (votes_of db pid = [] ->
        average_score p1 = average_score poll
        /\ divergence_score p1 = divergence_score poll).
Proof.
  intros Hget Hfirm. eexists _, _.
  split; [apply reveal_poll_found; eassumption|].
  destruct (revealed_flags poll (votes_of db pid)) as (Hid & _ & Hact & Hrev).
  split.
  { apply (get_poll_flush db pid poll); [exact Hget|].
    rewrite Hid. now apply get_poll_id in Hget. }
  repeat split; auto; unfold revealed;
    destruct (votes_of db pid) eqn:Hv; cbn [nonempty]; try congruence;
    cbn [average_score divergence_score]; unfold len;
    now rewrite ?length_map.
Qed.

Lemma C3_witness :
  exists db1 p1,
    PollingService.reveal_poll 1 voted_db 10 21 = Ok (db1, p1)
    /\ get_poll db1 10 = Some p1
    /\ is_revealed p1 = true
    /\ average_score p1 = Some 7
    /\ divergence_score p1 = Some 5.
Proof.
  destruct (C3_reveal_stores_flag_with_aggregates 1 voted_db 10 21 open_poll
              eq_refl eq_refl)
    as (db1 & p1 & Hr & Hg & Hrev & _ & Hsome & _).
  exists db1, p1. repeat split; try assumption;
    destruct Hsome as [Ha Hd]; try discriminate; assumption.
Defined.

(** The claim as stated fails on a poll nobody voted on: it ends revealed
    with both aggregates null. *)
Lemma C3_counterexample :
  ~ (forall firm db pid by_user db1 p1 p,
       PollingService.reveal_poll firm db pid by_user = Ok (db1, p1) ->
       get_poll db1 pid = Some p ->
       is_revealed p = true ->
       average_score p <> None /\ divergence_score p <> None).
Proof.
  intros H.
  destruct (H 1 empty_db 10 21 _ _ _ eq_refl eq_refl eq_refl) as [Ha _].
  now apply Ha.
Qed.

(** ** The analyzer's numbers *)

Lemma fold_max_ge (l : list Z) : forall x,
  x <= fold_left Z.max l x
  /\ (forall y, In y l -> y <= fold_left Z.max l x)
  /\ In (fold_left Z.max l x) (x :: l).
Proof.
  induction l as [|a l IH]; intros x; cbn [fold_left].
  - repeat split; [lia|easy|now left].
  - destruct (IH (Z.max x a)) as (H1 & H2 & H3). repeat split.
    + lia.
    + intros y [<-|Hy]; [lia|auto].
    + destruct H3 as [H3|H3]; [|now right; right].
      rewrite <- H3. destruct (Z.max_spec x a) as [[_ ->]|[_ ->]];
        [right; now left|now left].
Qed.

Lemma fold_min_le (l : list Z) : forall x,
  fold_left Z.min l x <= x
  /\ (forall y, In y l -> fold_left Z.min l x <= y)
  /\ In (fold_left Z.min l x) (x :: l).
Proof.
  induction l as [|a l IH]; intros x; cbn [fold_left].
  - repeat split; [lia|easy|now left].
  - destruct (IH (Z.min x a)) as (H1 & H2 & H3). repeat split.
    + lia.
    + intros y [<-|Hy]; [lia|auto].
    + destruct H3 as [H3|H3]; [|now right; right].
      rewrite <- H3. destruct (Z.min_spec x a) as [[_ ->]|[_ ->]];
        [now left|right; now left].
Qed.

(** [max] and [min] are what their names say on a non-empty list. *)
Lemma max_spec (l : list Z) :
  l <> [] -> In (max l) l /\ forall y, In y l -> y <= max l.
Proof.
  destruct l as [|x t]; [easy|]. intros _. cbn [max].
  destruct (fold_max_ge t x) as (H1 & H2 & H3). split; [exact H3|].
  intros y [<-|Hy]; auto.
Qed.

Lemma min_spec (l : list Z) :
  l <> [] -> In (min l) l /\ forall y, In y l -> min l <= y.
Proof.
  destruct l as [|x t]; [easy|]. intros _. cbn [min].
  destruct (fold_min_le t x) as (H1 & H2 & H3). split; [exact H3|].
  intros y [<-|Hy]; auto.
Qed.

Lemma round_half_even_near (n : Z) (d : positive) :
  2 * Z.abs (round_half_even (n # d) * Zpos d - n) <= Zpos d.
Proof.
  unfold round_half_even. cbn [Qnum Qden].
  pose proof (Z.div_mod n (Zpos d) ltac:(lia)) as Hdm.
  pose proof (Z.mod_pos_bound n (Zpos d) ltac:(lia)) as Hb.
  set (k0 := n / Zpos d) in *. set (r := n mod Zpos d) in *.
  destruct (Z.compare_spec (2 * r) (Zpos d)); [destruct (Z.even k0)| |]; nia.
Qed.

(** [round2] moves a number by at most half a hundredth, onto a multiple
    of a hundredth. *)
Lemma round2_near (q : Q) : (Qabs (round2 q - q) <= 1 # 200)%Q.
Proof.
  unfold round2. rewrite Qred_correct.
  destruct q as [n d].
  pose proof (round_half_even_near (n * 100) (d * 1)) as H.
  change ((n # d) * 100)%Q with ((n * 100) # (d * 1)).
  set (k := round_half_even _) in *.
  unfold Qle, Qabs, Qminus, Qplus, Qopp. cbn [Qnum Qden].
  rewrite ?Pos2Z.inj_mul in *.
  lia.
Qed.

Lemma round2_hundredths (q : Q) : exists k : Z, (round2 q == k # 100)%Q.
Proof. eexists. unfold round2. apply Qred_correct. Qed.

(** ** [get_divergence_view] returns on every poll that has votes *)

Lemma dict_incr_present (k : Z) (d : list (Z * Z)) :
  In k (map fst d) ->
  exists d', dict_incr k d = Ok d' /\ map fst d' = map fst d.
Proof.
  induction d as [|[k' n] t IH]; cbn; [easy|].
  destruct (Z.eqb_spec k' k) as [->|Hne].
  - intros _. eexists. split; reflexivity.
  - intros [Heq|Hin]; [congruence|].
    destruct (IH Hin) as (t' & -> & Hk). cbn. eexists. split; [reflexivity|].
    cbn. now rewrite Hk.
Qed.

Lemma count_scores_present (scores : list Z) : forall d,
  Forall (fun s => In s (map fst d)) scores ->
  exists d', count_scores scores d = Ok d' /\ map fst d' = map fst d.
Proof.
  induction scores as [|s rest IH]; intros d Hall; cbn.
  - eexists. split; reflexivity.
  - inversion Hall as [|? ? Hs Hrest]; subst.
    destruct (dict_incr_present s d Hs) as (d1 & -> & Hk1). cbn.
    destruct (IH d1) as (d2 & -> & Hk2).
    + now rewrite Hk1.
    + eexists. split; [reflexivity|congruence].
Qed.

Lemma count_scores_in_range (scores : list Z) :
  Forall in_range scores ->
  exists d, count_scores scores empty_distribution = Ok d
            /\ map fst d = [1; 2; 3; 4; 5; 6; 7; 8; 9; 10].
Proof.
  intros Hall. apply count_scores_present.
  eapply Forall_impl; [|exact Hall]. intros s [Hlo Hhi]. cbn.
  assert (s = 1 \/ s = 2 \/ s = 3 \/ s = 4 \/ s = 5 \/ s = 6 \/ s = 7
          \/ s = 8 \/ s = 9 \/ s = 10) by lia.
  intuition auto.
Qed.

Lemma get_divergence_view_found sqrt firm db pid requester lead poll deal :
  polls_by db pid firm = [poll] ->
  votes_of db pid <> [] ->
  Forall in_range (map conviction_score (votes_of db pid)) ->
  poll_deal db poll = Some deal ->
  exists view,
    DivergenceAnalyzer.get_divergence_view sqrt firm db pid requester lead
    = Ok view
    /\ DivergenceAnalyzer.total_votes view = len (votes_of db pid)
    /\ DivergenceAnalyzer.v_average_score view
       = round2 (mean (map conviction_score (votes_of db pid)))
    /\ DivergenceAnalyzer.min_score view
       = min (map conviction_score (votes_of db pid))
    /\ DivergenceAnalyzer.max_score view
       = max (map conviction_score (votes_of db pid))
    /\ DivergenceAnalyzer.divergence view
       = DivergenceAnalyzer.max_score view
         - DivergenceAnalyzer.min_score view
    /\ DivergenceAnalyzer.has_consensus view
       = (DivergenceAnalyzer.divergence view <=? 2)
    /\ DivergenceAnalyzer.needs_discussion view
       = (5 <=? DivergenceAnalyzer.divergence view)
    /\ map fst (DivergenceAnalyzer.score_distribution view)
       = [1; 2; 3; 4; 5; 6; 7; 8; 9; 10]
    /\ DivergenceAnalyzer.v_votes view
       = if is_revealed poll || lead
         then Some (map (DivergenceAnalyzer.vote_response db poll)
                        (votes_of db pid))
         else None.
Proof.
  intros Hpoll Hvotes Hrange Hdeal.
  unfold DivergenceAnalyzer.get_divergence_view.
  rewrite Hpoll. cbn [scalar_one_or_none bind].
  destruct (votes_of db pid) as [|v vs] eqn:Hv; [easy|].
  cbn [nonempty negb].
  destruct (count_scores_in_range _ Hrange) as (d & -> & Hd).
  cbn [bind]. rewrite Hdeal.
  eexists. split; [reflexivity|]. cbn. repeat split; auto.
Qed.

(** C8.  For a poll of the tenant with at least one vote, scores within
    1..10, the analysis returns a view whose [min_score] and [max_score]
    are the least and greatest score cast, whose [divergence] is their
    difference, and whose flags are [has_consensus] iff divergence <= 2 and
    [needs_discussion] iff divergence >= 5 (so never both, possibly
    neither). *)
Theorem C8_divergence_and_flags
    (sqrt : Q -> Q) (firm : UUID) (db : PollDB) (pid requester : UUID)
    (lead : bool) (poll : ConvictionPoll) (deal : Deal) :
  polls_by db pid firm = [poll] ->
  votes_of db pid <> [] ->
  Forall in_range (map conviction_score (votes_of db pid)) ->
  poll_deal db poll = Some deal ->
  exists view,
    DivergenceAnalyzer.get_divergence_view sqrt firm db pid requester lead
    = Ok view
    /\ In (DivergenceAnalyzer.min_score view)
          (map conviction_score (votes_of db pid))
    /\ In (DivergenceAnalyzer.max_score view)
          (map conviction_score (votes_of db pid))
    /\ (forall s, In s (map conviction_score (votes_of db pid)) ->
          DivergenceAnalyzer.min_score view <= s
          <= DivergenceAnalyzer.max_score view)
    /\ DivergenceAnalyzer.divergence view
       = DivergenceAnalyzer.max_score view
         - DivergenceAnalyzer.min_score view
    /\ (DivergenceAnalyzer.has_consensus view = true
        <-> DivergenceAnalyzer.divergence view <= 2)
    /\ (DivergenceAnalyzer.needs_discussion view = true
        <-> 5 <= DivergenceAnalyzer.divergence view).
Proof.
  intros Hpoll Hvotes Hrange Hdeal.
  destruct (get_divergence_view_found sqrt firm db pid requester lead poll
              deal Hpoll Hvotes Hrange Hdeal)
    as (view & Hview & _ & _ & Hmin & Hmax & Hdiv & Hcons & Hdisc & _).
  assert (Hne : map conviction_score (votes_of db pid) <> []).
  { destruct (votes_of db pid); [easy|discriminate]. }
  destruct (max_spec _ Hne) as [Hmax_in Hmax_ge].
  destruct (min_spec _ Hne) as [Hmin_in Hmin_le].
  exists view. rewrite Hcons, Hdisc, Z.leb_le, Z.leb_le, Hmin, Hmax.
  repeat split; auto; lia.
Qed.

Lemma C8_witness :
  exists view,
    DivergenceAnalyzer.get_divergence_view (fun q => q) 1 voted_db 10 21 true
    = Ok view
    /\ DivergenceAnalyzer.min_score view = 4
    /\ DivergenceAnalyzer.max_score view = 9
    /\ DivergenceAnalyzer.divergence view = 5
    /\ DivergenceAnalyzer.needs_discussion view = true
    /\ DivergenceAnalyzer.has_consensus view = false.
Proof.
  destruct (C8_divergence_and_flags (fun q => q) 1 voted_db 10 21 true
              open_poll demo_deal)
    as (view & Hview & _).
  - reflexivity.
  - discriminate.
  - repeat constructor; cbn; lia.
  - reflexivity.
  - exists view. split; [exact Hview|].
    vm_compute in Hview. injection Hview as <-. repeat split.
Defined.

(** A poll can be neither in consensus nor in need of discussion. *)
Example neither_flag :
  exists view,
    DivergenceAnalyzer.get_divergence_view (fun q => q) 1
      (mkPollDB [open_poll] [cast 100 21 4; cast 101 22 7] [] [demo_deal] 102)
      10 21 true = Ok view
    /\ DivergenceAnalyzer.divergence view = 3
    /\ DivergenceAnalyzer.has_consensus view = false
    /\ DivergenceAnalyzer.needs_discussion view = false.
Proof. eexists. split; [reflexivity|]. repeat split. Qed.

Lemma sum_nonneg (l : list Z) : Forall in_range l -> 0 <= sum l.
Proof.
  induction 1 as [|x l [Hx _] _ IH]; cbn; [lia|]. unfold sum in IH. lia.
Qed.



(** The two rules differ as soon as the mean is not an integer. *)
Example means_differ :
  exists db1 p1 view,
    let db := mkPollDB [open_poll]
                [cast 100 21 4; cast 101 22 9; cast 102 23 9] []
                [demo_deal] 103 in
    PollingService.reveal_poll 1 db 10 21 = Ok (db1, p1)
    /\ DivergenceAnalyzer.get_divergence_view (fun q => q) 1 db 10 21 true
       = Ok view
    /\ average_score p1 = Some 7
    /\ DivergenceAnalyzer.v_average_score view = (733 # 100)%Q.
Proof. eexists _, _, _. repeat split. Qed.

(** ** Blind votes *)

Lemma Forall2_filter {A : Type} (R : A -> A -> Prop) (P : A -> bool)
    (l l' : list A) :
  (forall x y, R x y -> P x = P y) ->
  Forall2 R l l' -> Forall2 R (filter P l) (filter P l').
Proof.
  intros HP. induction 1 as [|x y l l' Hxy _ IH]; cbn; [constructor|].
  rewrite <- (HP x y Hxy). destruct (P x); [constructor|]; assumption.
Qed.

Lemma same_ballots_of_poll requester db db' pid :
  same_ballots requester db db' ->
  Forall2
    (fun v v' =>
       public v = public v'
       /\ ((user_id v <> requester /\ user_id v' <> requester)
           \/ (v' = v /\ vote_user db' v = vote_user db v)))
    (votes_of db pid) (votes_of db' pid).
Proof.
  apply Forall2_filter. intros x y (Hpub & _).
  unfold public in Hpub. now injection Hpub as _ -> _ _ _ _.
Qed.

Lemma own_response_polling db db' poll requester v :
  vote_user db' v = vote_user db v ->
  PollingService.vote_response db poll requester v
  = PollingService.vote_response db' poll requester v.
Proof.
  intros Hu. unfold PollingService.vote_response. now rewrite Hu.
Qed.

Lemma blind_response_polling db db' poll requester v v' :
  is_revealed poll = false ->
  public v = public v' ->
  user_id v <> requester -> user_id v' <> requester ->
  PollingService.vote_response db poll requester v
  = PollingService.vote_response db' poll requester v'.
Proof.
  intros Hrev Hpub Hv Hv'. unfold PollingService.vote_response.
  apply Z.eqb_neq in Hv, Hv'. rewrite Hrev, Hv, Hv'. cbn.
  unfold public in Hpub. now injection Hpub as -> -> -> -> -> ->.
Qed.

Lemma blind_response_analyzer db db' poll v v' :
  is_revealed poll = false ->
  public v = public v' ->
  DivergenceAnalyzer.vote_response db poll v
  = DivergenceAnalyzer.vote_response db' poll v'.
Proof.
  intros Hrev Hpub. unfold DivergenceAnalyzer.vote_response. rewrite Hrev.
  unfold public in Hpub. now injection Hpub as -> -> -> -> -> ->.
Qed.

Lemma disclosing_response_polling db poll requester v :
  discloses (PollingService.vote_response db poll requester v) = true ->
  is_revealed poll = true \/ user_id v = requester.
Proof.
  unfold PollingService.vote_response.
  destruct (is_revealed poll); [now left|]. cbn [orb].
  destruct (Z.eqb_spec (user_id v) requester); [now right|discriminate].
Qed.

Lemma disclosing_response_analyzer db poll v :
  discloses (DivergenceAnalyzer.vote_response db poll v) = true ->
  is_revealed poll = true.
Proof.
  unfold DivergenceAnalyzer.vote_response.
  destruct (is_revealed poll); [reflexivity|discriminate].
Qed.

Lemma get_divergence_view_inv sqrt firm db pid requester lead view :
  DivergenceAnalyzer.get_divergence_view sqrt firm db pid requester lead
  = Ok view ->
  exists poll,
    polls_by db pid firm = [poll]
    /\ DivergenceAnalyzer.v_votes view
       = if is_revealed poll || lead
         then Some (map (DivergenceAnalyzer.vote_response db poll)
                        (votes_of db pid))
         else None.
Proof.
  unfold DivergenceAnalyzer.get_divergence_view.
  destruct (polls_by db pid firm) as [|poll [|p2 rest]]; cbn;
    [discriminate| |discriminate].
  destruct (nonempty (votes_of db pid)); cbn; [|discriminate].
  destruct (count_scores _ _) as [d|e]; cbn; [|discriminate].
  destruct (poll_deal db poll); [|discriminate].
  intros H. injection H as <-. exists poll. split; reflexivity.
Qed.

(** C5.  Blind-vote visibility at the two read boundaries.
    (a) A response of [get_poll_votes] carries the voter's id, name or
    notes only if the poll is revealed or the requester cast that vote.
    (b) A response inside a divergence view carries them only if the poll
    is revealed.
    (c) Before the reveal, [get_poll_votes] answers a requester, who may
    have voted, the same whoever cast the other votes and whatever their
    notes.
    (d) Before the reveal, the votes of a divergence view are the same
    whoever cast them.
    (e) Before the reveal, the response to a single vote that is not the
    requester's is the same whoever cast it. *)
Theorem C5_blind_vote_visibility
    (sqrt : Q -> Q) (firm : UUID) (db db' : PollDB) (pid requester : UUID)
    (include_identities lead : bool) :
  (forall rs,
     PollingService.get_poll_votes firm db pid requester include_identities
     = Ok rs ->
     exists poll,
       get_poll db pid = Some poll
       /\ Forall2
            (fun v r =>
               r = PollingService.vote_response db poll requester v
               /\ (discloses r = true ->
                   is_revealed poll = true \/ user_id v = requester))
            (votes_of db pid) rs)
  /\ (forall view rs r,
        DivergenceAnalyzer.get_divergence_view sqrt firm db pid requester
          lead = Ok view ->
        DivergenceAnalyzer.v_votes view = Some rs ->
        In r rs -> discloses r = true ->
        exists poll,
          In poll (polls db) /\ id poll = pid /\ is_revealed poll = true)
  /\ (polls db' = polls db ->
      same_ballots requester db db' ->
      (forall poll, get_poll db pid = Some poll -> is_revealed poll = false) ->
      PollingService.get_poll_votes firm db pid requester include_identities
      = PollingService.get_poll_votes firm db' pid requester
          include_identities)
  /\ (forall view view',
        polls db' = polls db ->
        Forall2 (fun v v' => public v = public v') (votes db) (votes db') ->
        (forall poll, In poll (polls db) -> id poll = pid ->
                      is_revealed poll = false) ->
        DivergenceAnalyzer.get_divergence_view sqrt firm db pid requester
          lead = Ok view ->
        DivergenceAnalyzer.get_divergence_view sqrt firm db' pid requester
          lead = Ok view' ->
        DivergenceAnalyzer.v_votes view = DivergenceAnalyzer.v_votes view')
  /\ (forall poll v v',
        is_revealed poll = false -> public v = public v' ->
        user_id v <> requester -> user_id v' <> requester ->
        PollingService.vote_response db poll requester v
        = PollingService.vote_response db' poll requester v').
Proof.
  split; [|split; [|split; [|split]]].
  - intros rs. unfold PollingService.get_poll_votes.
    destruct (get_poll db pid) as [poll|]; [|discriminate].
    destruct (negb (firm_id poll =? firm)); [discriminate|].
    intros H. injection H as <-. exists poll. split; [reflexivity|].
    induction (votes_of db pid) as [|v vs IH]; cbn; constructor; auto.
    split; [reflexivity|apply disclosing_response_polling].
  - intros view rs r Hview Hvotes Hin Hdis.
    apply get_divergence_view_inv in Hview as (poll & Hpoll & Hv).
    assert (Hp : In poll (polls_by db pid firm)) by (rewrite Hpoll; now left).
    unfold polls_by in Hp. apply filter_In in Hp as [Hp Hid].
    apply andb_true_iff in Hid as [Hid _]. apply Z.eqb_eq in Hid.
    exists poll. repeat split; auto.
    rewrite Hv in Hvotes. destruct (is_revealed poll) eqn:Hrev; [reflexivity|].
    destruct lead; [|discriminate]. cbn in Hvotes. injection Hvotes as <-.
    apply in_map_iff in Hin as (v & <- & _).
    apply disclosing_response_analyzer in Hdis. congruence.
  - intros Hpolls Hsame Hblind. unfold PollingService.get_poll_votes.
    unfold get_poll in *. rewrite Hpolls.
    destruct (find _ (polls db)) as [poll|]; [|reflexivity].
    destruct (negb (firm_id poll =? firm)); [reflexivity|]. f_equal.
    specialize (Hblind poll eq_refl).
    pose proof (same_ballots_of_poll requester db db' pid Hsame) as Hs.
    induction Hs as [|v v' l l' (Hpub & [[Hv Hv']|[-> Hu]]) _ IH]; cbn;
      [reflexivity| |]; rewrite IH; f_equal.
    + now apply blind_response_polling.
    + now apply own_response_polling.
  - intros view view' Hpolls Hsame Hblind Hview Hview'.
    apply get_divergence_view_inv in Hview as (poll & Hpoll & ->).
    apply get_divergence_view_inv in Hview' as (poll' & Hpoll' & ->).
    unfold polls_by in *. rewrite Hpolls, Hpoll in Hpoll'.
    injection Hpoll' as <-.
    assert (Hp : In poll (filter (fun p => (id p =? pid) && (firm_id p =? firm))
                                 (polls db)))
      by (rewrite Hpoll; now left).
    apply filter_In in Hp as [Hp Hid].
    apply andb_true_iff in Hid as [Hid _]. apply Z.eqb_eq in Hid.
    specialize (Hblind poll Hp Hid). rewrite Hblind. cbn [orb].
    destruct lead; [|reflexivity]. f_equal.
    assert (Hs : Forall2 (fun v v' => public v = public v')
                   (votes_of db pid) (votes_of db' pid)).
    { apply Forall2_filter; [|exact Hsame]. intros x y Hpub.
      unfold public in Hpub. now injection Hpub as _ -> _ _ _ _. }
    induction Hs as [|v v' l l' Hpub _ IH]; cbn; [reflexivity|].
    rewrite IH. f_equal. now apply blind_response_analyzer.
  - intros poll v v'. apply blind_response_polling.
Qed.

Lemma C5_witness :
  PollingService.get_poll_votes 1 secret_db 10 21 false
  = PollingService.get_poll_votes 1 recast_db 10 21 false
  /\ PollingService.get_poll_votes 1 secret_db 10 21 false
     = Ok [ mkVoteResponse 100 10 4 (Some ["team risk"]) None 50
              (Some 21) (Some "Ann") (Some "too academic") None;
            mkVoteResponse 101 10 9 (Some ["team risk"]) None 50
              None None None None ].
Proof.
  split; [|reflexivity].
  apply (proj1 (proj2 (proj2
           (C5_blind_vote_visibility (fun q => q) 1 secret_db recast_db 10 21
              false true)))).
  - reflexivity.
  - constructor; [|constructor; [|constructor]].
    + split; [reflexivity|]. right. split; reflexivity.
    + split; [reflexivity|]. left. split; discriminate.
  - intros poll H. cbn in H. injection H as <-. reflexivity.
Defined.

(** ** Stable insertion sort *)

Section Sorting.

Context {A : Type} (le : A -> A -> bool).

Hypothesis le_total : forall a b, le a b = false -> le b a = true.
Hypothesis le_trans :
  forall a b c, le a b = true -> le b c = true -> le a c = true.

Lemma insert_by_perm (x : A) (l : list A) :
  Permutation (insert_by le x l) (x :: l).
Proof.
  induction l as [|y t IH]; cbn; [reflexivity|].
  destruct (le x y); [reflexivity|].
  rewrite IH. apply perm_swap.
Qed.

Lemma sort_by_perm (l : list A) : Permutation (sort_by le l) l.
Proof.
  induction l as [|x t IH]; cbn; [reflexivity|].
  rewrite insert_by_perm. now constructor.
Qed.

Lemma insert_by_sorted (x : A) (l : list A) :
  StronglySorted (fun a b => le a b = true) l ->
  StronglySorted (fun a b => le a b = true) (insert_by le x l).
Proof.
  induction 1 as [|y t Hs IH Hall]; cbn; [repeat constructor|].
  destruct (le x y) eqn:Hxy.
  - constructor; [now constructor|]. constructor; [exact Hxy|].
    eapply Forall_impl; [|exact Hall]. intros z Hyz. now apply (le_trans x y z).
  - constructor; [exact IH|].
    assert (Hxt : Forall (fun b => le y b = true) (x :: t))
      by (constructor; [now apply le_total|exact Hall]).
    eapply Permutation_Forall; [|exact Hxt].
    symmetry. apply insert_by_perm.
Qed.

Lemma sort_by_sorted (l : list A) :
  StronglySorted (fun a b => le a b = true) (sort_by le l).
Proof.
  induction l as [|x t IH]; cbn; [constructor|]. now apply insert_by_sorted.
Qed.

End Sorting.

(** ** Deduplication of match candidates *)

Section Deduplication.

Variable lower : string -> string.

Lemma is_empty_false (s : string) : is_empty s = false <-> s <> EmptyString.
Proof. destruct s; cbn; split; congruence. Qed.

Lemma by_similarity_desc_total a b :
  by_similarity_desc a b = false -> by_similarity_desc b a = true.
Proof.
  unfold by_similarity_desc. intros H. apply Qle_bool_iff.
  destruct (Qlt_le_dec (p_similarity a) (p_similarity b)) as [Hlt|Hle].
  - now apply Qlt_le_weak.
  - apply Qle_bool_iff in Hle. congruence.
Qed.

Lemma by_similarity_desc_trans a b c :
  by_similarity_desc a b = true -> by_similarity_desc b c = true ->
  by_similarity_desc a c = true.
Proof.
  unfold by_similarity_desc. rewrite !Qle_bool_iff. intros H1 H2.
  now apply Qle_trans with (p_similarity b).
Qed.

Lemma dedup_loop_incl (l : list Pattern) : forall seen_companies q,
  In q (dedup_loop lower seen_companies l) -> In q l.
Proof.
  induction l as [|p rest IH]; intros sc q; cbn; [easy|].
  destruct (negb (is_empty (company_key lower p))
            && negb (seen (company_key lower p) sc));
    [|destruct (is_empty (company_key lower p))]; cbn;
    intros H; try (destruct H as [H|H]; [now left|]); right; eapply IH; eauto.
Qed.

Lemma dedup_loop_fresh (l : list Pattern) : forall seen_companies q,
  In q (dedup_loop lower seen_companies l) -> named lower q ->
  seen (company_key lower q) seen_companies = false.
Proof.
  induction l as [|p rest IH]; intros sc q; cbn; [easy|].
  destruct (is_empty (company_key lower p)) eqn:He; cbn.
  - intros [<-|H] Hn; [|now apply IH].
    apply is_empty_false in Hn. congruence.
  - destruct (seen (company_key lower p) sc) eqn:Hs; cbn.
    + apply IH.
    + intros [<-|H] Hn; [exact Hs|].
      specialize (IH _ _ H Hn). cbn in IH.
      now apply orb_false_iff in IH.
Qed.

Lemma dedup_loop_count (k : string) (l : list Pattern) :
  k <> EmptyString ->
  forall seen_companies,
    List.length (filter (same_company lower k)
                   (dedup_loop lower seen_companies l))
    = if seen k seen_companies then 0%nat
      else if existsb (same_company lower k) l then 1%nat else 0%nat.
Proof.
  intros Hk. induction l as [|p rest IH]; intros sc; cbn.
  - now destruct (seen k sc).
  - unfold same_company at 2.
    destruct (is_empty (company_key lower p)) eqn:He; cbn.
    + assert (Hpk : String.eqb (company_key lower p) k = false).
      { apply String.eqb_neq. intros <-. apply is_empty_false in Hk.
        congruence. }
      unfold same_company at 1. rewrite Hpk. cbn. apply IH.
    + destruct (seen (company_key lower p) sc) eqn:Hs; cbn.
      * rewrite IH.
        destruct (String.eqb_spec (company_key lower p) k) as [Heq|Hne].
        -- rewrite <- Heq, Hs. reflexivity.
        -- reflexivity.
      * unfold same_company at 1.
        destruct (String.eqb_spec (company_key lower p) k) as [Heq|Hne]; cbn.
        -- rewrite IH. cbn. rewrite <- Heq, String.eqb_refl, Hs. reflexivity.
        -- rewrite IH. cbn.
           assert (Hkp : String.eqb k (company_key lower p) = false)
             by (apply String.eqb_neq; congruence).
           now rewrite Hkp.
Qed.

Lemma dedup_loop_top (l : list Pattern) :
  StronglySorted (fun a b => by_similarity_desc a b = true) l ->
  forall seen_companies q,
    In q (dedup_loop lower seen_companies l) -> named lower q ->
    forall p', In p' l -> company_key lower p' = company_key lower q ->
               by_similarity_desc q p' = true.
Proof.
  induction 1 as [|p rest Hs IH Hall]; intros sc q; cbn; [easy|].
  rewrite Forall_forall in Hall.
  assert (Hrefl : forall x, by_similarity_desc x x = true).
  { intros x. unfold by_similarity_desc. apply Qle_bool_iff, Qle_refl. }
  destruct (is_empty (company_key lower p)) eqn:He; cbn.
  - intros [<-|Hq] Hn p' Hp' Hkey.
    + apply is_empty_false in Hn. congruence.
    + destruct Hp' as [<-|Hp']; [|eapply IH; eauto].
      apply is_empty_false in Hn. congruence.
  - destruct (seen (company_key lower p) sc) eqn:Hseen; cbn.
    + intros Hq Hn p' Hp' Hkey.
      destruct Hp' as [<-|Hp']; [|eapply IH; eauto].
      pose proof (dedup_loop_fresh _ _ _ Hq Hn) as Hf. congruence.
    + intros [<-|Hq] Hn p' Hp' Hkey.
      * destruct Hp' as [<-|Hp']; [apply Hrefl|now apply Hall].
      * destruct Hp' as [<-|Hp']; [|eapply IH; eauto].
        pose proof (dedup_loop_fresh _ _ _ Hq Hn) as Hf. cbn in Hf.
        rewrite <- Hkey, String.eqb_refl in Hf. discriminate.
Qed.

Lemma dedup_loop_unnamed (l : list Pattern) : forall seen_companies,
  filter (unnamed lower) (dedup_loop lower seen_companies l)
  = filter (unnamed lower) l.
Proof.
  induction l as [|p rest IH]; intros sc; cbn; [reflexivity|].
  unfold unnamed at 2.
  destruct (is_empty (company_key lower p)) eqn:He; cbn.
  - unfold unnamed at 1. rewrite He. now rewrite IH.
  - destruct (seen (company_key lower p) sc); cbn; [apply IH|].
    unfold unnamed at 1. rewrite He. apply IH.
Qed.

Lemma dedup_loop_sorted (l : list Pattern) :
  StronglySorted (fun a b => by_similarity_desc a b = true) l ->
  forall seen_companies,
    StronglySorted (fun a b => by_similarity_desc a b = true)
      (dedup_loop lower seen_companies l).
Proof.
  induction 1 as [|p rest Hs IH Hall]; intros sc; cbn; [constructor|].
  assert (Hkeep : forall sc',
             StronglySorted (fun a b => by_similarity_desc a b = true)
               (p :: dedup_loop lower sc' rest)).
  { intros sc'. constructor; [apply IH|].
    rewrite Forall_forall in *. intros q Hq. apply Hall.
    eapply dedup_loop_incl; eauto. }
  destruct (negb (is_empty (company_key lower p))
            && negb (seen (company_key lower p) sc));
    [|destruct (is_empty (company_key lower p))]; auto.
Qed.

Lemma find_similar_passed_deals_limit embed_text compute_similarity firm db
    deal limit res :
  _find_similar_passed_deals embed_text compute_similarity firm db deal limit
  = Ok res ->
  0 <= limit.
Proof.
  unfold _find_similar_passed_deals, execute, sql_limit.
  destruct (fault db); [discriminate|].
  destruct (Z.ltb_spec (limit * 2) 0); [discriminate|]. intros _. lia.
Qed.

(** C9.  [_deduplicate_and_rank] on the merged candidates: every result is
    a candidate; each group of candidates with the same non-empty
    lower-cased company name keeps exactly one member, and no member of
    the group has a higher similarity; the candidates without a name are
    all kept; the result is in descending order of similarity; and
    [find_ghost_loss_patterns], once its two passes have returned, returns
    the first [limit] of it and nothing else. *)
Theorem C9_deduplicate_and_rank
    (embed_text : string -> result Embedding)
    (compute_similarity : Embedding -> Embedding -> Q)
    (re_search : string -> string -> option string)
    (patterns : list Pattern) :
  (forall q, In q (_deduplicate_and_rank lower patterns) -> In q patterns)
  /\ (forall p, In p patterns -> named lower p ->
        exists q,
          filter (same_company lower (company_key lower p))
                 (_deduplicate_and_rank lower patterns) = [q]
          /\ forall p', In p' patterns ->
                        company_key lower p' = company_key lower p ->
                        (p_similarity p' <= p_similarity q)%Q)
  /\ Permutation
       (filter (unnamed lower) (_deduplicate_and_rank lower patterns))
       (filter (unnamed lower) patterns)
  /\ StronglySorted (fun x y => (p_similarity y <= p_similarity x)%Q)
       (_deduplicate_and_rank lower patterns)
  /\ (forall firm db deal limit lookback_days res,
        find_ghost_loss_patterns lower embed_text compute_similarity
          re_search firm db deal limit lookback_days = Ok res ->
        exists passed_deals vector_patterns,
          _find_similar_passed_deals embed_text compute_similarity firm db
            deal limit = Ok passed_deals
          /\ _search_pass_vectors embed_text re_search firm db deal limit
             = Ok vector_patterns
          /\ 0 <= limit
          /\ res = firstn (Z.to_nat limit)
                     (_deduplicate_and_rank lower
                        (passed_deals ++ vector_patterns)%list))
  /\ (forall firm db deal limit lookback_days passed_deals vector_patterns,
        _find_similar_passed_deals embed_text compute_similarity firm db
          deal limit = Ok passed_deals ->
        _search_pass_vectors embed_text re_search firm db deal limit
        = Ok vector_patterns ->
        find_ghost_loss_patterns lower embed_text compute_similarity
          re_search firm db deal limit lookback_days
        = Ok (firstn (Z.to_nat limit)
                (_deduplicate_and_rank lower
                   (passed_deals ++ vector_patterns)%list))).
Proof.
  unfold _deduplicate_and_rank.
  pose proof (sort_by_perm by_similarity_desc patterns) as Hperm.
  pose proof (sort_by_sorted by_similarity_desc by_similarity_desc_total
                by_similarity_desc_trans patterns) as Hsorted.
  set (sorted := sort_by by_similarity_desc patterns) in *.
  split; [|split; [|split; [|split; [|split]]]].
  - intros q Hq. apply (Permutation_in _ Hperm).
    eapply dedup_loop_incl; eauto.
  - intros p Hp Hn.
    assert (Hin : In p sorted)
      by (apply (Permutation_in _ (Permutation_sym Hperm)); exact Hp).
    pose proof (dedup_loop_count (company_key lower p) sorted Hn [])
      as Hcount.
    cbn [seen existsb] in Hcount.
    assert (Hex : existsb (same_company lower (company_key lower p)) sorted
                  = true).
    { apply existsb_exists. exists p. split; [exact Hin|].
      apply String.eqb_refl. }
    rewrite Hex in Hcount.
    destruct (filter (same_company lower (company_key lower p))
                (dedup_loop lower [] sorted))
      as [|q [|q' rest]] eqn:Hf; try discriminate.
    exists q. split; [reflexivity|].
    assert (Hq : In q (filter (same_company lower (company_key lower p))
                              (dedup_loop lower [] sorted)))
      by (rewrite Hf; now left).
    apply filter_In in Hq as [Hq Hkey]. apply String.eqb_eq in Hkey.
    intros p' Hp' Hk'. apply Qle_bool_iff.
    apply (dedup_loop_top sorted Hsorted [] q Hq).
    + unfold named. now rewrite Hkey.
    + apply (Permutation_in _ (Permutation_sym Hperm)). exact Hp'.
    + congruence.
  - rewrite dedup_loop_unnamed. clear Hsorted. subst sorted.
    induction Hperm; cbn; try destruct (unnamed lower x);
      try destruct (unnamed lower y); eauto using Permutation.
  - apply (dedup_loop_sorted sorted) with (seen_companies := []) in Hsorted.
    induction Hsorted as [|x l _ IH Hall]; constructor; [exact IH|].
    eapply Forall_impl; [|exact Hall]. intros y Hy.
    now apply Qle_bool_iff.
  - intros firm db deal limit lookback res.
    unfold find_ghost_loss_patterns.
    destruct (_find_similar_passed_deals _ _ _ _ _ _) as [pd|e] eqn:Hpd;
      [|discriminate].
    destruct (_search_pass_vectors _ _ _ _ _ _) as [vp|e] eqn:Hvp;
      [|discriminate].
    cbn. intros H. injection H as <-. exists pd, vp.
    pose proof (find_similar_passed_deals_limit _ _ _ _ _ _ _ Hpd) as Hl.
    repeat split; auto. unfold slice_to.
    destruct (Z.ltb_spec limit 0); [lia|reflexivity].
  - intros firm db deal limit lookback pd vp Hpd Hvp.
    unfold find_ghost_loss_patterns. rewrite Hpd, Hvp. cbn [bind].
    pose proof (find_similar_passed_deals_limit _ _ _ _ _ _ _ Hpd) as Hl.
    unfold slice_to. destruct (Z.ltb_spec limit 0); [lia|reflexivity].
Qed.

End Deduplication.

Lemma C9_witness :
  _deduplicate_and_rank ascii_lower [acme_deal; acme_memo] = [acme_memo]
  /\ (exists q,
        filter (same_company ascii_lower "acme")
               (_deduplicate_and_rank ascii_lower [acme_deal; acme_memo])
        = [q]
        /\ (p_similarity acme_deal <= p_similarity q)%Q
        /\ (p_similarity acme_memo <= p_similarity q)%Q)
  /\ (exists res,
        find_ghost_loss_patterns ascii_lower embed_name second_coordinate
          (fun _ _ => None) 1 acme_db new_deal 5 1095 = Ok res
        /\ map p_company_name res = [Some "ACME"; Some "OldCo"]
        /\ map p_similarity res = [9 # 10; 7 # 10])
  /\ (exists res,
        find_ghost_loss_patterns ascii_lower embed_name second_coordinate
          (fun _ _ => None) 1 acme_db new_deal 1 1095 = Ok res
        /\ map p_company_name res = [Some "ACME"]).
Proof.
  pose proof (C9_deduplicate_and_rank ascii_lower embed_name
                second_coordinate (fun _ _ => None) [acme_deal; acme_memo])
    as (_ & Hgroup & _ & _ & _ & Hreturns).
  split; [reflexivity|]. split; [|split].
  - destruct (Hgroup acme_deal (or_introl eq_refl)) as (q & Hq & Htop).
    + discriminate.
    + exists q. split; [exact Hq|]. split; apply Htop; cbn; auto.
  - eexists. split; [|split].
    + apply (Hreturns 1 acme_db new_deal 5 1095); reflexivity.
    + reflexivity.
    + reflexivity.
  - eexists. split.
    + apply (Hreturns 1 acme_db new_deal 1 1095); reflexivity.
    + reflexivity.
Defined.

(** ** The searches of the vector store *)

Lemma in_firstn {A : Type} (n : nat) (l : list A) (x : A) :
  In x (firstn n l) -> In x l.
Proof.
  intros H. rewrite <- (firstn_skipn n l). apply in_or_app. now left.
Qed.

Lemma set_rls_context_raises (firm : UUID) (db : MemoryDB) :
  VectorStore._set_rls_context firm db
  = Raise (match fault db with
           | Some e => e
           | None => syntax_error "$1"
           end).
Proof.
  unfold VectorStore._set_rls_context, execute. now destruct (fault db).
Qed.


(** ** Failures in the narrative pass *)

(** C4 (as amended).  In [_search_pass_vectors] a failure of the embedding
    provider propagates to the caller; a failure of the storage statement
    is caught and logged, and the function returns the results gathered so
    far, the empty list; when both succeed every selected row becomes a
    candidate. *)
Theorem C4_search_pass_vectors_failures
    (embed_text : string -> result Embedding)
    (re_search : string -> string -> option string)
    (firm : UUID) (db : MemoryDB) (deal : Deal) (limit : Z) :
  (forall e,
     embed_text (vector_query_text deal) = Raise e ->
     _search_pass_vectors embed_text re_search firm db deal limit = Raise e)
  /\ (forall query_vector e,
        embed_text (vector_query_text deal) = Ok query_vector ->
        pass_vector_rows firm db query_vector limit = Raise e ->
        _search_pass_vectors embed_text re_search firm db deal limit
        = Ok [])
  /\ (forall query_vector rows,
        embed_text (vector_query_text deal) = Ok query_vector ->
        pass_vector_rows firm db query_vector limit = Ok rows ->
        _search_pass_vectors embed_text re_search firm db deal limit
        = Ok (map (pattern_of_row re_search) rows)).
Proof.
  unfold _search_pass_vectors. repeat split.
  - intros e ->. reflexivity.
  - intros qv e -> Hrows. cbn [bind]. now rewrite Hrows.
  - intros qv rows -> Hrows. cbn [bind]. now rewrite Hrows.
Qed.

Lemma C4_witness :
  _search_pass_vectors unit_embed (fun _ _ => None) 1 broken_db new_deal 5
  = Ok [].
Proof.
  apply (proj1 (proj2
           (C4_search_pass_vectors_failures unit_embed (fun _ _ => None) 1
              broken_db new_deal 5))
         [1%Q] (DBAPIError "connection lost")); reflexivity.
Defined.

(** The claim as stated fails: the storage statement raises and the caller
    receives an empty result. *)
Lemma C4_counterexample :
  ~ (forall embed_text re_search firm db deal limit,
       (exists e, embed_text (vector_query_text deal) = Raise e)
       \/ (exists query_vector e,
             embed_text (vector_query_text deal) = Ok query_vector
             /\ pass_vector_rows firm db query_vector limit = Raise e) ->
       exists e',
         _search_pass_vectors embed_text re_search firm db deal limit
         = Raise e').
Proof.
  intros H.
  destruct (H unit_embed (fun _ _ => None) 1 broken_db new_deal 5)
    as [e' He'].
  - right. exists [1%Q], (DBAPIError "connection lost"). split; reflexivity.
  - discriminate He'.
Qed.

(** ** Cutoffs *)

Lemma score_deals_above embed_text compute_similarity deal_embedding
    (passed_deals : list Deal) : forall scored,
  score_deals embed_text compute_similarity deal_embedding passed_deals
  = Ok scored ->
  Forall (fun p => (5 # 10 < p_similarity p)%Q) scored.
Proof.
  induction passed_deals as [|d rest IH]; intros scored; cbn.
  - intros H. injection H as <-. constructor.
  - destruct (embed_text _) as [pe|e]; [|discriminate]. cbn [bind].
    destruct (score_deals _ _ _ rest) as [tail|e]; [|discriminate].
    cbn [bind].
    destruct (Qle_bool (compute_similarity deal_embedding pe) (5 # 10))
      eqn:Hle; cbn [negb]; intros H; injection H as <-.
    + now apply IH.
    + constructor; [|now apply IH]. cbn [p_similarity].
      apply Qnot_le_lt. intros Hq. apply Qle_bool_iff in Hq. congruence.
Qed.

(** The structured pass keeps only candidates strictly above 0.5. *)
Lemma find_similar_passed_deals_above embed_text compute_similarity firm db
    deal limit res :
  _find_similar_passed_deals embed_text compute_similarity firm db deal limit
  = Ok res ->
  Forall (fun p => (5 # 10 < p_similarity p)%Q) res.
Proof.
  unfold _find_similar_passed_deals.
  destruct (execute db _) as [pd|e]; [|discriminate]. cbn [bind].
  destruct (nonempty pd); cbn [negb].
  - destruct (embed_text _) as [de|e]; [|discriminate]. cbn [bind].
    destruct (score_deals _ _ _ _) as [scored|e] eqn:Hs; [|discriminate].
    cbn [bind]. intros H. injection H as <-.
    apply score_deals_above in Hs. rewrite Forall_forall in *.
    intros p Hp. apply Hs.
    apply (Permutation_in _ (sort_by_perm by_similarity_desc scored)).
    unfold slice_to in Hp. destruct (limit <? 0); eapply in_firstn; eauto.
  - intros H. injection H as <-. constructor.
Qed.

(** C10 (the code at the boundary).  The structured pass tests
    [similarity > 0.5]: with the similarity of the tenant's passed deal
    exactly 0.5 it returns no candidate, though it returns the deal at
    0.51; whatever the input, a candidate it returns lies strictly above
    0.5. *)
Theorem C10_cutoff_at_one_half :
  _find_similar_passed_deals unit_embed (fun _ _ => 1 # 2) 1 cutoff_db
    new_deal 5 = Ok []
  /\ (exists passed_deals,
        _find_similar_passed_deals unit_embed (fun _ _ => 51 # 100) 1
          cutoff_db new_deal 5 = Ok passed_deals
        /\ map p_company_name passed_deals = [Some "OldCo"])
  /\ (forall embed_text compute_similarity firm db deal limit passed_deals,
        _find_similar_passed_deals embed_text compute_similarity firm db
          deal limit = Ok passed_deals ->
        Forall (fun p => (1 # 2 < p_similarity p)%Q) passed_deals).
Proof.
  split; [reflexivity|]. split.
  - eexists. split; reflexivity.
  - intros embed_text compute_similarity firm db deal limit passed_deals H.
    apply find_similar_passed_deals_above in H.
    eapply Forall_impl; [|exact H]. intros p Hp.
    eapply Qle_lt_trans; [|exact Hp]. discriminate.
Qed.

(** * Further properties of the services *)

(** ** Creating a poll *)

Lemma find_snoc {A : Type} (f : A -> bool) (l : list A) (x : A) :
  find f (l ++ [x])
  = match find f l with
    | Some y => Some y
    | None => if f x then Some x else None
    end.
Proof.
  induction l as [|a l IH]; cbn; [reflexivity|]. now destruct (f a).
Qed.

Lemma find_none_below (l : list ConvictionPoll) (bound pid : UUID) :
  Forall (fun p => id p < bound) l -> bound <= pid ->
  find (fun p => id p =? pid) l = None.
Proof.
  induction 1 as [|a l Ha _ IH]; intros Hb; cbn; [reflexivity|].
  destruct (Z.eqb_spec (id a) pid); [lia|auto].
Qed.

(** X1.  [create_poll] on a deal of the tenant returns an open, unrevealed
    poll of the tenant with no aggregates, which [get_poll] then finds; the
    other polls and all votes are as before; and a first vote on it by any
    voter, before its closing time, is accepted and stored as the one row
    of that voter. *)
Theorem create_poll_then_vote
    (firm : UUID) (db : PollDB) (request : ConvictionPollCreate)
    (created_by uid : UUID) (now : datetime) (data : PollVoteCreate)
    (deal : Deal) :
  poll_keys_ok db ->
  find (fun d => deal_pk d =? cp_deal_id request) (deals db) = Some deal ->
  deal_firm_id deal = firm ->
  match cp_closes_at request with
  | Some t => now <= t
  | None => True
  end ->
  exists db1 poll db2 v,
    PollingService.create_poll firm db request created_by = Ok (db1, poll)
    /\ firm_id poll = firm /\ deal_id poll = cp_deal_id request
    /\ is_active poll = true /\ is_revealed poll = false
    /\ average_score poll = None /\ divergence_score poll = None
    /\ get_poll db1 (id poll) = Some poll
    /\ (forall pid, pid <> id poll -> get_poll db1 pid = get_poll db pid)
    /\ votes db1 = votes db
    /\ PollingService.submit_vote firm now db1 (id poll) uid data
       = Ok (db2, v)
    /\ votes_by db2 (id poll) uid = [v]
    /\ conviction_score v = c_conviction_score data.
Proof.
  intros [Hpolls Hvotes] Hdeal Hfirm Hclose.
  set (poll := mkPoll (fresh db) (cp_deal_id request) firm true false
                 (cp_reveal_threshold request) (cp_closes_at request)
                 None None).
  assert (Hcreate : PollingService.create_poll firm db request created_by
                    = Ok (add_poll db poll, poll)).
  { unfold PollingService.create_poll.
    now rewrite Hdeal, Hfirm, Z.eqb_refl. }
  assert (Hget : get_poll (add_poll db poll) (fresh db) = Some poll).
  { unfold get_poll, add_poll. cbn [polls]. rewrite find_snoc.
    rewrite (find_none_below _ (fresh db)); [|assumption|lia].
    cbn. now rewrite Z.eqb_refl. }
  assert (Hnone : votes_by (add_poll db poll) (fresh db) uid = []).
  { unfold votes_by, add_poll. cbn [votes].
    induction Hvotes as [|a l Ha _ IH]; cbn; [reflexivity|].
    destruct (Z.eqb_spec (poll_id a) (fresh db)); [lia|exact IH]. }
  pose proof (submit_vote_open firm now (add_poll db poll) (fresh db) uid
                data poll Hget eq_refl (conj eq_refl Hclose)) as Hsub.
  rewrite Hnone in Hsub. cbn in Hsub.
  eexists _, poll, _, _. split; [exact Hcreate|].
  repeat (split; [reflexivity|]).
  split; [exact Hget|]. split.
  { intros pid Hne. unfold get_poll, add_poll. cbn [polls].
    rewrite find_snoc. destruct (find _ (polls db)); [reflexivity|].
    cbn. destruct (Z.eqb_spec (fresh db) pid); [|reflexivity].
    cbn in Hne. congruence. }
  split; [reflexivity|]. split; [exact Hsub|]. split; [|reflexivity].
  change (id poll) with (fresh db).
  unfold votes_by, add_vote, add_poll in *. cbn [votes] in *.
  rewrite filter_app, Hnone. cbn. now rewrite !Z.eqb_refl.
Qed.

Lemma create_poll_then_vote_witness :
  exists db1 poll db2 v,
    PollingService.create_poll 1 voted_db poll_request 21 = Ok (db1, poll)
    /\ id poll = 103
    /\ PollingService.submit_vote 1 60 db1 103 22 (ballot 6) = Ok (db2, v)
    /\ votes_by db2 103 22 = [v].
Proof.
  destruct (create_poll_then_vote 1 voted_db poll_request 21 22 60 (ballot 6)
              demo_deal)
    as (db1 & poll & db2 & v & Hc & _ & _ & _ & _ & _ & _ & _ & _ & _
        & Hs & Hv & _).
  - split; repeat constructor; cbn; lia.
  - reflexivity.
  - reflexivity.
  - cbn. lia.
  - exists db1, poll, db2, v.
    assert (Hid : id poll = 103)
      by (cbn in Hc; injection Hc as _ <-; reflexivity).
    rewrite Hid in *. repeat split; assumption.
Defined.

(** ** Submitting and reading back a vote *)

(** X2.  Whatever the table holds, a submission that returns keeps the
    primary keys distinct, leaves exactly one row for its (poll, voter)
    key, carrying the submitted score, and [get_user_vote] then returns
    that row. *)
Theorem submit_then_get_user_vote
    (firm : UUID) (now : datetime) (db db' : PollDB) (pid uid : UUID)
    (data : PollVoteCreate) (v : PollVote) :
  keys_ok db ->
  PollingService.submit_vote firm now db pid uid data = Ok (db', v) ->
  keys_ok db'
  /\ votes_by db' pid uid = [v]
  /\ conviction_score v = c_conviction_score data
  /\ PollingService.get_user_vote db' pid uid = Ok (Some v).
Proof.
  intros Hk Hs.
  destruct (submit_vote_single_row _ _ _ _ _ _ _ _ Hk Hs) as (Hby & Hsc & _).
  split; [eapply submit_vote_keys; eauto|].
  split; [exact Hby|]. split; [exact Hsc|].
  unfold PollingService.get_user_vote. now rewrite Hby.
Qed.

Lemma submit_then_get_user_vote_witness :
  exists db' v,
    PollingService.submit_vote 1 60 voted_db 10 22 (ballot 2) = Ok (db', v)
    /\ PollingService.get_user_vote db' 10 22 = Ok (Some v)
    /\ conviction_score v = 2
    /\ len (votes db') = 3.
Proof.
  eexists _, _. split; [reflexivity|].
  destruct (submit_then_get_user_vote 1 60 voted_db _ 10 22 (ballot 2) _
              ltac:(split; [repeat constructor; cbn; intuition lia
                           |repeat constructor])
              eq_refl)
    as (_ & _ & Hsc & Hget).
  split; [exact Hget|]. split; [exact Hsc|reflexivity].
Defined.

Lemma submit_vote_refuses_inactive firm now db pid uid data poll :
  get_poll db pid = Some poll -> firm_id poll = firm ->
  is_active poll = false ->
  PollingService.submit_vote firm now db pid uid data
  = Raise (ValueError "Poll is no longer active").
Proof.
  intros Hget Hf Hact. unfold PollingService.submit_vote.
  now rewrite Hget, Hf, Z.eqb_refl, Hact.
Qed.

(** X3.  [submit_vote] returns exactly when the poll exists, belongs to the
    tenant, is active, is not past its closing time, and the voter has at
    most one row; on the tenant's inactive poll it raises "Poll is no
    longer active", and on an active one past its closing time "Poll has
    closed". *)
Theorem submit_vote_accepts_iff
    (firm : UUID) (now : datetime) (db : PollDB) (pid uid : UUID)
    (data : PollVoteCreate) :
  ((exists r, PollingService.submit_vote firm now db pid uid data = Ok r)
   <-> exists poll,
         get_poll db pid = Some poll /\ firm_id poll = firm
         /\ open_at now poll
         /\ (List.length (votes_by db pid uid) <= 1)%nat)
  /\ (forall poll,
        get_poll db pid = Some poll -> firm_id poll = firm ->
        is_active poll = false ->
        PollingService.submit_vote firm now db pid uid data
        = Raise (ValueError "Poll is no longer active"))
  /\ (forall poll t,
        get_poll db pid = Some poll -> firm_id poll = firm ->
        is_active poll = true -> closes_at poll = Some t -> t < now ->
        PollingService.submit_vote firm now db pid uid data
        = Raise (ValueError "Poll has closed")).
Proof.
  split; [split|split].
  - intros [r Hr]. unfold PollingService.submit_vote in Hr.
    destruct (get_poll db pid) as [poll|]; [|discriminate].
    destruct (Z.eqb_spec (firm_id poll) firm) as [Hf|]; [|discriminate].
    destruct (is_active poll) eqn:Hact; [|discriminate]. cbn [negb] in Hr.
    destruct (closes_at poll) as [t|] eqn:Hc.
    + destruct (Z.ltb_spec t now); [discriminate|].
      exists poll. repeat split; auto.
      * unfold open_at. rewrite Hc. auto.
      * destruct (votes_by db pid uid) as [|? [|? ?]]; cbn; try lia.
        discriminate.
    + exists poll. repeat split; auto.
      * unfold open_at. rewrite Hc. auto.
      * destruct (votes_by db pid uid) as [|? [|? ?]]; cbn; try lia.
        discriminate.
  - intros (poll & Hget & Hf & Hopen & Hlen).
    rewrite (submit_vote_open _ _ _ _ _ _ poll Hget Hf Hopen).
    destruct (votes_by db pid uid) as [|e [|e' rest]]; cbn in *;
      [eexists; reflexivity|eexists; reflexivity|lia].
  - intros poll. apply submit_vote_refuses_inactive.
  - intros poll t Hget Hf Hact Hc Hlt. unfold PollingService.submit_vote.
    rewrite Hget, Hf, Z.eqb_refl, Hact, Hc. cbn.
    apply Z.ltb_lt in Hlt. now rewrite Hlt.
Qed.

(** ** One answer for a missing poll and for another tenant's poll *)

(** X4.  When the poll does not exist, and when it exists but belongs to
    another tenant, [submit_vote], [reveal_poll] and [get_poll_votes] raise
    the same error, so the answer does not tell the two cases apart. *)
Theorem not_found_or_access_denied
    (firm : UUID) (db db' : PollDB) (pid uid : UUID) (now now' : datetime)
    (data : PollVoteCreate) (flag : bool) (poll : ConvictionPoll) :
  get_poll db pid = None ->
  get_poll db' pid = Some poll ->
  firm_id poll <> firm ->
  (PollingService.submit_vote firm now db pid uid data
   = Raise (ValueError "Poll not found or access denied")
   /\ PollingService.submit_vote firm now' db' pid uid data
      = Raise (ValueError "Poll not found or access denied"))
  /\ (PollingService.reveal_poll firm db pid uid
      = Raise (ValueError "Poll not found or access denied")
      /\ PollingService.reveal_poll firm db' pid uid
         = Raise (ValueError "Poll not found or access denied"))
  /\ (PollingService.get_poll_votes firm db pid uid flag
      = Raise (ValueError "Poll not found or access denied")
      /\ PollingService.get_poll_votes firm db' pid uid flag
         = Raise (ValueError "Poll not found or access denied")).
Proof.
  intros Hnone Hsome Hne. apply Z.eqb_neq in Hne.
  unfold PollingService.submit_vote, PollingService.reveal_poll,
    PollingService.get_poll_votes.
  rewrite Hnone, Hsome, Hne. cbn. repeat split.
Qed.

Lemma not_found_or_access_denied_witness :
  PollingService.reveal_poll 1
    (mkPollDB [] [] [] [demo_deal] 100) 10 21
  = PollingService.reveal_poll 1
      (mkPollDB [other_poll] [] [] [demo_deal] 100) 10 21.
Proof.
  destruct (not_found_or_access_denied 1 (mkPollDB [] [] [] [demo_deal] 100)
              (mkPollDB [other_poll] [] [] [demo_deal] 100) 10 21 50 50
              (ballot 4) false other_poll eq_refl eq_refl
              ltac:(discriminate))
    as (_ & (H1 & H2) & _).
  now rewrite H1, H2.
Defined.

(** ** After the reveal *)

Lemma get_poll_flush_other db p' pid :
  pid <> id p' -> get_poll (flush_poll db p') pid = get_poll db pid.
Proof.
  intros Hne. unfold get_poll, flush_poll. cbn [polls].
  induction (polls db) as [|a l IH]; cbn; [reflexivity|].
  destruct (Z.eqb_spec (id a) (id p')) as [Ha|Ha].
  - destruct (Z.eqb_spec (id p') pid); [congruence|].
    destruct (Z.eqb_spec (id a) pid); [congruence|]. exact IH.
  - now rewrite IH.
Qed.

(** X5.  [reveal_poll] writes one poll row only: the votes and every other
    poll are as before; and from then on every submission to the revealed
    poll by its tenant is refused with "Poll is no longer active",
    whoever votes and whenever. *)
Theorem reveal_closes_voting
    (firm : UUID) (db db1 : PollDB) (pid by_user : UUID)
    (p1 : ConvictionPoll) :
  PollingService.reveal_poll firm db pid by_user = Ok (db1, p1) ->
  votes db1 = votes db
  /\ (forall pid', pid' <> pid -> get_poll db1 pid' = get_poll db pid')
  /\ (forall now uid data,
        PollingService.submit_vote firm now db1 pid uid data
        = Raise (ValueError "Poll is no longer active")).
Proof.
  intros Hr. apply reveal_poll_inv in Hr as (poll & Hget & Hfirm & -> & ->).
  destruct (revealed_flags poll (votes_of db pid)) as (Hid & Hf & Hact & _).
  pose proof (get_poll_id _ _ _ Hget) as Hpid.
  split; [reflexivity|]. split.
  - intros pid' Hne. apply get_poll_flush_other. congruence.
  - intros now uid data.
    apply (submit_vote_refuses_inactive firm now _ pid uid data
             (revealed poll (votes_of db pid))); auto.
    + apply (get_poll_flush db pid poll); [exact Hget|congruence].
    + congruence.
Qed.

Lemma reveal_closes_voting_witness :
  exists db1 p1,
    PollingService.reveal_poll 1 voted_db 10 21 = Ok (db1, p1)
    /\ PollingService.submit_vote 1 60 db1 10 24 (ballot 1)
       = Raise (ValueError "Poll is no longer active").
Proof.
  eexists _, _. split; [reflexivity|].
  apply (reveal_closes_voting 1 voted_db _ 10 21 _ eq_refl).
Defined.

(** X6.  After [reveal_poll], [get_poll_votes] gives every requester one
    response per vote, in table order, each naming its voter and carrying
    the vote's score and both notes. *)
Theorem reveal_then_votes_are_named
    (firm : UUID) (db db1 : PollDB) (pid by_user requester : UUID)
    (flag : bool) (p1 : ConvictionPoll) :
  PollingService.reveal_poll firm db pid by_user = Ok (db1, p1) ->
  exists rs,
    PollingService.get_poll_votes firm db1 pid requester flag = Ok rs
    /\ map r_user_id rs = map (fun v => Some (user_id v)) (votes_of db pid)
    /\ map r_conviction_score rs = map conviction_score (votes_of db pid)
    /\ map r_red_flag_notes rs = map red_flag_notes (votes_of db pid)
    /\ map r_green_flag_notes rs = map green_flag_notes (votes_of db pid).
Proof.
  intros Hr. apply reveal_poll_inv in Hr as (poll & Hget & Hfirm & -> & ->).
  destruct (revealed_flags poll (votes_of db pid)) as (Hid & Hf & _ & Hrev).
  pose proof (get_poll_id _ _ _ Hget) as Hpid.
  unfold PollingService.get_poll_votes.
  rewrite (get_poll_flush db pid poll _ Hget) by congruence.
  rewrite Hf, Hfirm, Z.eqb_refl. cbn [negb].
  eexists. split; [reflexivity|].
  change (votes_of (flush_poll db (revealed poll (votes_of db pid))) pid)
    with (votes_of db pid).
  rewrite !map_map. unfold PollingService.vote_response. rewrite Hrev.
  cbn. repeat split.
Qed.

Lemma reveal_then_votes_are_named_witness :
  exists db1 p1 rs,
    PollingService.reveal_poll 1 secret_db 10 21 = Ok (db1, p1)
    /\ PollingService.get_poll_votes 1 db1 10 30 false = Ok rs
    /\ map r_user_id rs = [Some 21; Some 22].
Proof.
  eexists _, _.
  destruct (reveal_then_votes_are_named 1 secret_db _ 10 21 30 false _
              eq_refl)
    as (rs & Hrs & Hids & _).
  exists rs. split; [reflexivity|]. split; [exact Hrs|exact Hids].
Defined.

(** X7.  Before or after the reveal, [get_poll_votes] answers a member of
    the tenant with one response per vote, in table order, always showing
    the score and the flag lists; and the response to a requester's own
    vote always names the requester. *)
Theorem votes_show_scores_and_own_identity
    (firm : UUID) (db : PollDB) (pid requester : UUID) (flag : bool)
    (rs : list PollVoteResponse) :
  PollingService.get_poll_votes firm db pid requester flag = Ok rs ->
  Forall2
    (fun v r =>
       r_id r = vote_pk v
       /\ r_conviction_score r = conviction_score v
       /\ r_red_flags r = red_flags v /\ r_green_flags r = green_flags v
       /\ (user_id v = requester ->
           r_user_id r = Some requester
           /\ r_red_flag_notes r = red_flag_notes v
           /\ r_green_flag_notes r = green_flag_notes v))
    (votes_of db pid) rs.
Proof.
  unfold PollingService.get_poll_votes.
  destruct (get_poll db pid) as [poll|]; [|discriminate].
  destruct (negb (firm_id poll =? firm)); [discriminate|].
  intros H. injection H as <-.
  induction (votes_of db pid) as [|v vs IH]; cbn; constructor; auto.
  unfold PollingService.vote_response.
  destruct (is_revealed poll || (user_id v =? requester)) eqn:Hshow; cbn.
  - repeat split; congruence.
  - apply orb_false_iff in Hshow as [_ Hne]. apply Z.eqb_neq in Hne.
    repeat split; try reflexivity; contradiction.
Qed.

Lemma votes_show_scores_and_own_identity_witness :
  exists rs,
    PollingService.get_poll_votes 1 secret_db 10 21 false = Ok rs
    /\ map r_conviction_score rs = [4; 9]
    /\ map r_user_id rs = [Some 21; None].
Proof.
  eexists. split; [reflexivity|].
  pose proof (votes_show_scores_and_own_identity 1 secret_db 10 21 false _
                eq_refl) as H.
  split; reflexivity.
Defined.

(** ** When the analysis returns, and what it counts *)

Lemma dict_incr_keys (k : Z) (d d' : list (Z * Z)) :
  dict_incr k d = Ok d' -> In k (map fst d).
Proof.
  revert d'. induction d as [|[k' n] t IH]; cbn; [discriminate|].
  intros d'. destruct (Z.eqb_spec k' k); [now left|].
  destruct (dict_incr k t) as [t'|]; [|discriminate].
  intros _. right. now apply (IH t').
Qed.

(** With distinct keys, [d[k] += 1] changes the entry of [k] and no
    other. *)
Lemma dict_incr_exact (k : Z) (d d' : list (Z * Z)) :
  NoDup (map fst d) ->
  dict_incr k d = Ok d' ->
  d' = map (fun e => (fst e, if fst e =? k then snd e + 1 else snd e)) d.
Proof.
  revert d'. induction d as [|[k' n] t IH]; cbn; [discriminate|].
  intros d' Hnd. inversion Hnd as [|? ? Hnotin Hnd']; subst.
  destruct (Z.eqb_spec k' k) as [->|Hne].
  - intros H. injection H as <-. f_equal.
    clear IH Hnd Hnd'. induction t as [|[k2 n2] t IH]; cbn; [reflexivity|].
    cbn in Hnotin. destruct (Z.eqb_spec k2 k); [tauto|].
    f_equal. apply IH. tauto.
  - destruct (dict_incr k t) as [t'|] eqn:Ht; [|discriminate].
    cbn. intros H. injection H as <-. f_equal. now apply IH.
Qed.

Lemma map_fst_update {A B : Type} (g : A * B -> B) (d : list (A * B)) :
  map fst (map (fun e => (fst e, g e)) d) = map fst d.
Proof. rewrite map_map. now apply map_ext. Qed.

Lemma count_scores_exact (scores : list Z) : forall d d',
  NoDup (map fst d) ->
  count_scores scores d = Ok d' ->
  Forall (fun s => In s (map fst d)) scores
  /\ d' = map (fun e => (fst e, snd e + tally scores (fst e))) d.
Proof.
  induction scores as [|s rest IH]; intros d d' Hnd; cbn.
  - intros H. injection H as <-. split; [constructor|].
    rewrite <- (map_id d) at 1. apply map_ext. intros [k n].
    unfold tally. cbn. f_equal. lia.
  - destruct (dict_incr s d) as [d1|] eqn:H1; [|discriminate]. cbn.
    intros H2.
    pose proof (dict_incr_keys _ _ _ H1) as Hin.
    pose proof (dict_incr_exact _ _ _ Hnd H1) as ->.
    apply IH in H2 as [Hall ->]; [|now rewrite map_fst_update].
    rewrite map_fst_update in Hall. split; [now constructor|].
    rewrite map_map. apply map_ext. intros [k n]. cbn [fst snd]. f_equal.
    unfold tally. cbn [count_occ].
    destruct (Z.eq_dec s k) as [->|Hne].
    + rewrite Z.eqb_refl, Nat2Z.inj_succ. lia.
    + destruct (Z.eqb_spec k s); [congruence|]. lia.
Qed.

Lemma tally_total (scores : list Z) :
  Forall in_range scores ->
  sum (map (tally scores) [1; 2; 3; 4; 5; 6; 7; 8; 9; 10]) = len scores.
Proof.
  induction 1 as [|x l Hx _ IH]; [reflexivity|].
  unfold len in *. cbn [List.length]. rewrite Nat2Z.inj_succ, <- IH.
  unfold tally, sum. cbn [map fold_right count_occ].
  destruct Hx as [Hlo Hhi].
  assert (Hc : x = 1 \/ x = 2 \/ x = 3 \/ x = 4 \/ x = 5 \/ x = 6 \/ x = 7
               \/ x = 8 \/ x = 9 \/ x = 10) by lia.
  repeat (destruct Hc as [->|Hc]; [cbn [Z.eq_dec]; repeat
    match goal with
    | |- context [Z.eq_dec ?a ?b] => destruct (Z.eq_dec a b); try lia
    end; rewrite ?Nat2Z.inj_succ; lia|]).
  subst x.
  repeat match goal with
         | |- context [Z.eq_dec ?a ?b] => destruct (Z.eq_dec a b); try lia
         end; rewrite ?Nat2Z.inj_succ; lia.
Qed.

Lemma empty_distribution_keys :
  map fst empty_distribution = [1; 2; 3; 4; 5; 6; 7; 8; 9; 10]
  /\ NoDup (map fst empty_distribution).
Proof.
  split; [reflexivity|]. cbn.
  repeat (constructor; [cbn; intuition lia|]). constructor.
Qed.

Lemma in_range_keys (s : Z) :
  In s [1; 2; 3; 4; 5; 6; 7; 8; 9; 10] <-> in_range s.
Proof.
  unfold in_range. cbn. split; [intuition lia|]. intros [Hlo Hhi].
  assert (s = 1 \/ s = 2 \/ s = 3 \/ s = 4 \/ s = 5 \/ s = 6 \/ s = 7
          \/ s = 8 \/ s = 9 \/ s = 10) by lia.
  intuition auto.
Qed.

(** Everything a returned view holds, read off the call. *)
Lemma get_divergence_view_full sqrt firm db pid requester lead view :
  DivergenceAnalyzer.get_divergence_view sqrt firm db pid requester lead
  = Ok view ->
  exists poll deal d,
    polls_by db pid firm = [poll]
    /\ votes_of db pid <> []
    /\ count_scores (map conviction_score (votes_of db pid))
         empty_distribution = Ok d
    /\ poll_deal db poll = Some deal
    /\ view
       = DivergenceAnalyzer.mkView (id poll) (deal_id poll)
           (company_name deal) (len (votes_of db pid))
           (round2 (mean (map conviction_score (votes_of db pid))))
           (min (map conviction_score (votes_of db pid)))
           (max (map conviction_score (votes_of db pid)))
           (max (map conviction_score (votes_of db pid))
            - min (map conviction_score (votes_of db pid)))
           (round2
              (if 1 <? len (map conviction_score (votes_of db pid))
               then sqrt (variance (map conviction_score (votes_of db pid)))
               else 0%Q))
           d
           (most_common 5
              (Counter
                 (flat_map
                    (fun v => DivergenceAnalyzer.flags_of (red_flags v))
                    (votes_of db pid))))
           (most_common 5
              (Counter
                 (flat_map
                    (fun v => DivergenceAnalyzer.flags_of (green_flags v))
                    (votes_of db pid))))
           (max (map conviction_score (votes_of db pid))
            - min (map conviction_score (votes_of db pid)) <=? 2)
           (5 <=? max (map conviction_score (votes_of db pid))
                  - min (map conviction_score (votes_of db pid)))
           (if is_revealed poll || lead
            then Some (map (DivergenceAnalyzer.vote_response db poll)
                           (votes_of db pid))
            else None).
Proof.
  unfold DivergenceAnalyzer.get_divergence_view.
  destruct (polls_by db pid firm) as [|poll [|p2 rest]]; cbn;
    [discriminate| |discriminate].
  destruct (votes_of db pid) as [|v vs] eqn:Hv; cbn [nonempty negb];
    [discriminate|].
  destruct (count_scores _ _) as [d|e] eqn:Hd; cbn [bind]; [|discriminate].
  destruct (poll_deal db poll) as [deal|] eqn:Hdeal; [|discriminate].
  intros H. injection H as <-. exists poll, deal, d.
  repeat split; auto. discriminate.
Qed.

Lemma get_divergence_view_in_range sqrt firm db pid requester lead view :
  DivergenceAnalyzer.get_divergence_view sqrt firm db pid requester lead
  = Ok view ->
  Forall in_range (map conviction_score (votes_of db pid)).
Proof.
  intros Hview.
  apply get_divergence_view_full in Hview
    as (poll & deal & d & _ & _ & Hd & _ & _).
  destruct empty_distribution_keys as [Hkeys Hnd].
  apply count_scores_exact in Hd as [Hall _]; [|exact Hnd].
  eapply Forall_impl; [|exact Hall]. intros s Hs.
  rewrite Hkeys in Hs. now apply in_range_keys.
Qed.

(** X8.  [get_divergence_view] returns a view exactly when one poll of the
    tenant has that id, it has at least one vote, every score lies in
    1..10 and its deal row exists.  With no vote it raises "No votes
    submitted yet"; with no such poll of the tenant it raises "Poll not
    found or access denied". *)
Theorem divergence_view_returns_iff
    (sqrt : Q -> Q) (firm : UUID) (db : PollDB) (pid requester : UUID)
    (lead : bool) :
  ((exists view,
      DivergenceAnalyzer.get_divergence_view sqrt firm db pid requester
        lead = Ok view)
   <-> exists poll deal,
         polls_by db pid firm = [poll]
         /\ votes_of db pid <> []
         /\ Forall in_range (map conviction_score (votes_of db pid))
         /\ poll_deal db poll = Some deal)
  /\ (forall poll,
        polls_by db pid firm = [poll] -> votes_of db pid = [] ->
        DivergenceAnalyzer.get_divergence_view sqrt firm db pid requester
          lead = Raise (ValueError "No votes submitted yet"))
  /\ (polls_by db pid firm = [] ->
      DivergenceAnalyzer.get_divergence_view sqrt firm db pid requester
        lead = Raise (ValueError "Poll not found or access denied")).
Proof.
  split; [split|split].
  - intros [view Hview].
    pose proof (get_divergence_view_in_range _ _ _ _ _ _ _ Hview) as Hrange.
    apply get_divergence_view_full in Hview
      as (poll & deal & d & Hp & Hv & Hd & Hdeal & _).
    exists poll, deal. repeat split; auto.
  - intros (poll & deal & Hp & Hv & Hr & Hdeal).
    destruct (get_divergence_view_found sqrt firm db pid requester lead poll
                deal Hp Hv Hr Hdeal) as (view & Hview & _).
    now exists view.
  - intros poll Hp Hv. unfold DivergenceAnalyzer.get_divergence_view.
    now rewrite Hp, Hv.
  - intros Hp. unfold DivergenceAnalyzer.get_divergence_view.
    now rewrite Hp.
Qed.

Lemma divergence_view_returns_iff_witness :
  DivergenceAnalyzer.get_divergence_view (fun q => q) 1 empty_db 10 21 true
  = Raise (ValueError "No votes submitted yet").
Proof.
  apply (proj1 (proj2 (divergence_view_returns_iff (fun q => q) 1 empty_db 10
                         21 true)) open_poll); reflexivity.
Defined.

(** X9.  The score distribution of a returned view has the ten buckets 1
    to 10 in order, each holding the number of votes with that score, and
    the buckets add up to [total_votes]. *)
Theorem score_distribution_counts
    (sqrt : Q -> Q) (firm : UUID) (db : PollDB) (pid requester : UUID)
    (lead : bool) (view : DivergenceAnalyzer.DivergenceView) :
  DivergenceAnalyzer.get_divergence_view sqrt firm db pid requester lead
  = Ok view ->
  DivergenceAnalyzer.score_distribution view
  = map (fun k => (k, tally (map conviction_score (votes_of db pid)) k))
        [1; 2; 3; 4; 5; 6; 7; 8; 9; 10]
  /\ sum (map snd (DivergenceAnalyzer.score_distribution view))
     = DivergenceAnalyzer.total_votes view.
Proof.
  intros Hview.
  assert (Hrange : Forall in_range (map conviction_score (votes_of db pid))).
  { eapply get_divergence_view_in_range; eauto. }
  apply get_divergence_view_full in Hview
    as (poll & deal & d & _ & _ & Hd & _ & ->).
  cbn [DivergenceAnalyzer.score_distribution DivergenceAnalyzer.total_votes].
  destruct empty_distribution_keys as [_ Hnd].
  apply count_scores_exact in Hd as [_ ->]; [|exact Hnd].
  assert (Heq : map (fun e : Z * Z =>
                       (fst e,
                        snd e + tally (map conviction_score (votes_of db pid))
                                  (fst e)))
                  empty_distribution
                = map (fun k => (k, tally (map conviction_score
                                             (votes_of db pid)) k))
                      [1; 2; 3; 4; 5; 6; 7; 8; 9; 10]).
  { reflexivity. }
  rewrite Heq. split; [reflexivity|].
  rewrite map_map.
  rewrite (map_ext _ (tally (map conviction_score (votes_of db pid))))
    by reflexivity.
  rewrite (tally_total _ Hrange). unfold len. now rewrite length_map.
Qed.

Lemma score_distribution_counts_witness :
  exists view,
    DivergenceAnalyzer.get_divergence_view (fun q => q) 1 voted_db 10 21 true
    = Ok view
    /\ DivergenceAnalyzer.score_distribution view
       = [(1, 0); (2, 0); (3, 0); (4, 1); (5, 0); (6, 0); (7, 0); (8, 1);
          (9, 1); (10, 0)]
    /\ sum (map snd (DivergenceAnalyzer.score_distribution view)) = 3.
Proof.
  eexists. split; [reflexivity|]. split; [reflexivity|].
  exact (proj2 (score_distribution_counts (fun q => q) 1 voted_db 10 21 true
                  _ eq_refl)).
Defined.

(** ** The most frequent flags *)

Lemma counter_add_count (f g : string) (c : list (string * Z)) :
  count_of g (counter_add f c)
  = count_of g c + (if String.eqb g f then 1 else 0).
Proof.
  unfold count_of. induction c as [|[k n] t IH]; cbn.
  - rewrite String.eqb_sym. destruct (String.eqb g f); cbn; lia.
  - destruct (String.eqb_spec k f) as [->|Hkf]; cbn.
    + destruct (String.eqb_spec f g) as [->|Hfg]; cbn.
      * now rewrite String.eqb_refl.
      * destruct (String.eqb_spec g f); [congruence|]. lia.
    + destruct (String.eqb_spec k g) as [->|Hkg]; cbn; [|exact IH].
      destruct (String.eqb_spec g f); [congruence|]. lia.
Qed.

Lemma counter_add_keys (f : string) (c : list (string * Z)) :
  NoDup (map fst c) ->
  NoDup (map fst (counter_add f c))
  /\ (forall g, In g (map fst (counter_add f c))
                <-> In g (map fst c) \/ g = f).
Proof.
  induction c as [|[k n] t IH]; cbn.
  - intros _. split; [repeat constructor; easy|]. intros g. intuition auto.
  - intros Hnd. inversion Hnd as [|? ? Hnotin Hnd']; subst.
    destruct (String.eqb_spec k f) as [->|Hkf]; cbn.
    + split; [exact Hnd|]. intros g. intuition auto.
    + destruct (IH Hnd') as [IH1 IH2]. split.
      * constructor; [|exact IH1]. rewrite IH2. intros [H|H]; auto.
      * intros g. rewrite IH2. intuition auto.
Qed.

Lemma count_of_in (c : list (string * Z)) (g : string) (n : Z) :
  NoDup (map fst c) -> In (g, n) c -> count_of g c = n.
Proof.
  unfold count_of. induction c as [|[k m] t IH]; cbn; [easy|].
  intros Hnd. inversion Hnd as [|? ? Hnotin Hnd']; subst.
  intros [Heq|Hin].
  - injection Heq as -> ->. now rewrite String.eqb_refl.
  - destruct (String.eqb_spec k g) as [->|]; [|now apply IH].
    exfalso. apply Hnotin. apply in_map_iff. now exists (g, n).
Qed.

(** [Counter] holds each flag once, with its number of occurrences. *)
Lemma Counter_counts (flags : list string) :
  NoDup (map fst (Counter flags))
  /\ (forall g, In g (map fst (Counter flags)) <-> In g flags)
  /\ (forall g, count_of g (Counter flags) = occurrences flags g).
Proof.
  unfold Counter.
  assert (Hgen : forall l pre c,
             NoDup (map fst c) ->
             (forall g, In g (map fst c) <-> In g pre) ->
             (forall g, count_of g c = occurrences pre g) ->
             let c' := fold_left (fun c f => counter_add f c) l c in
             NoDup (map fst c')
             /\ (forall g, In g (map fst c') <-> In g (pre ++ l)%list)
             /\ (forall g, count_of g c' = occurrences (pre ++ l)%list g)).
  { induction l as [|f l IH]; intros pre c Hnd Hkeys Hcount; cbn.
    - rewrite app_nil_r. auto.
    - destruct (counter_add_keys f c Hnd) as [Hnd' Hkeys'].
      specialize (IH (pre ++ [f])%list (counter_add f c) Hnd').
      rewrite <- app_assoc in IH. cbn in IH. apply IH.
      + intros g. rewrite Hkeys', Hkeys, in_app_iff. cbn. intuition auto.
      + intros g. rewrite counter_add_count, Hcount. unfold occurrences.
        rewrite count_occ_app. cbn.
        destruct (string_dec f g) as [->|Hne].
        * rewrite String.eqb_refl. lia.
        * destruct (String.eqb_spec g f); [congruence|]. lia. }
  apply (Hgen flags [] []); cbn; try easy. constructor.
Qed.

Lemma NoDup_firstn {A : Type} (n : nat) (l : list A) :
  NoDup l -> NoDup (firstn n l).
Proof.
  revert n. induction l as [|a l IH]; intros [|n] Hnd; cbn;
    try constructor.
  - inversion Hnd; subst. intros Hin. apply in_firstn in Hin. contradiction.
  - inversion Hnd; subst. now apply IH.
Qed.

Lemma StronglySorted_firstn {A : Type} (R : A -> A -> Prop) (n : nat)
    (l : list A) :
  StronglySorted R l -> StronglySorted R (firstn n l).
Proof.
  revert n. induction l as [|a l IH]; intros [|n] Hs; cbn;
    try constructor.
  - apply IH. now inversion Hs.
  - inversion Hs as [|? ? _ Hall]; subst. rewrite Forall_forall in *.
    intros x Hx. apply Hall. eapply in_firstn; eauto.
Qed.

Lemma StronglySorted_split {A : Type} (R : A -> A -> Prop) (n : nat)
    (l : list A) (x y : A) :
  StronglySorted R l -> In x (firstn n l) -> In y (skipn n l) -> R x y.
Proof.
  revert n. induction l as [|a l IH]; intros [|n] Hs; cbn; try easy.
  inversion Hs as [|? ? Hs' Hall]; subst. rewrite Forall_forall in Hall.
  intros [<-|Hx] Hy.
  - apply Hall. rewrite <- (firstn_skipn n l). apply in_or_app. now right.
  - eapply IH; eauto.
Qed.

Lemma StronglySorted_weaken {A : Type} (R R' : A -> A -> Prop)
    (l : list A) :
  (forall a b, R a b -> R' a b) ->
  StronglySorted R l -> StronglySorted R' l.
Proof.
  intros HR. induction 1 as [|x l _ IH Hall]; constructor; [exact IH|].
  eapply Forall_impl; [|exact Hall]. auto.
Qed.

Lemma most_common_top_five (flags : list string) :
  top_five flags (most_common 5 (Counter flags)).
Proof.
  destruct (Counter_counts flags) as (Hnd & Hkeys & Hcount).
  unfold most_common.
  set (le := fun x y : string * Z => snd y <=? snd x).
  pose proof (sort_by_perm le (Counter flags)) as Hperm.
  assert (Hsorted : StronglySorted (fun a b => snd b <= snd a)
                      (sort_by le (Counter flags))).
  { assert (Hs : StronglySorted (fun a b => le a b = true)
                   (sort_by le (Counter flags))).
    { apply sort_by_sorted; unfold le; intros a b.
      - rewrite Z.leb_gt, Z.leb_le. lia.
      - intros c. rewrite !Z.leb_le. lia. }
    eapply StronglySorted_weaken; [|exact Hs]. unfold le. intros a b.
    now rewrite Z.leb_le. }
  set (sorted := sort_by le (Counter flags)) in *.
  assert (Hnds : NoDup (map fst sorted)).
  { eapply Permutation_NoDup; [|exact Hnd].
    apply Permutation_map. now symmetry. }
  assert (Hin : forall f n, In (f, n) sorted ->
                            In f flags /\ n = occurrences flags f).
  { intros f n H. apply (Permutation_in _ Hperm) in H. split.
    - apply Hkeys. apply in_map_iff. now exists (f, n).
    - rewrite <- Hcount. symmetry. now apply count_of_in. }
  split; [apply firstn_le_length|]. split.
  { rewrite <- firstn_map. now apply NoDup_firstn. }
  split; [intros f n H; apply Hin; eapply in_firstn; eauto|].
  split; [now apply StronglySorted_firstn|].
  intros g Hg. apply Hkeys in Hg. apply in_map_iff in Hg as ([g' n] & Hfst & He).
  cbn in Hfst. subst g'.
  apply (Permutation_in _ (Permutation_sym Hperm)) in He.
  destruct (Hin g n He) as [_ ->].
  rewrite <- (firstn_skipn 5 sorted) in He. apply in_app_or in He as [He|He];
    [now left|right].
  intros e Htop.
  apply (StronglySorted_split _ 5 sorted e _ Hsorted Htop He).
Qed.

(** X10.  In a returned view, [top_red_flags] and [top_green_flags] each
    list at most five distinct flags with the number of times the votes
    name them, most frequent first; a flag that some vote names and the
    list leaves out is named no more often than any listed flag. *)
Theorem top_flags_are_the_most_common
    (sqrt : Q -> Q) (firm : UUID) (db : PollDB) (pid requester : UUID)
    (lead : bool) (view : DivergenceAnalyzer.DivergenceView) :
  DivergenceAnalyzer.get_divergence_view sqrt firm db pid requester lead
  = Ok view ->
  top_five
    (flat_map (fun v => DivergenceAnalyzer.flags_of (red_flags v))
              (votes_of db pid))
    (DivergenceAnalyzer.top_red_flags view)
  /\ top_five
       (flat_map (fun v => DivergenceAnalyzer.flags_of (green_flags v))
                 (votes_of db pid))
       (DivergenceAnalyzer.top_green_flags view).
Proof.
  intros Hview.
  apply get_divergence_view_full in Hview as (? & ? & ? & _ & _ & _ & _ & ->).
  cbn [DivergenceAnalyzer.top_red_flags DivergenceAnalyzer.top_green_flags].
  split; apply most_common_top_five.
Qed.

Lemma top_flags_are_the_most_common_witness :
  exists view,
    DivergenceAnalyzer.get_divergence_view (fun q => q) 1 secret_db 10 21
      true = Ok view
    /\ DivergenceAnalyzer.top_red_flags view = [("team risk", 2)]
    /\ top_five ["team risk"; "team risk"]
         (DivergenceAnalyzer.top_red_flags view).
Proof.
  eexists. split; [reflexivity|]. split; [reflexivity|].
  exact (proj1 (top_flags_are_the_most_common (fun q => q) 1 secret_db 10 21
                  true _ eq_refl)).
Defined.

(** ** A poll with a single vote *)

Lemma round2_of_one_score (s : Z) : (round2 (mean [s]) == inject_Z s)%Q.
Proof.
  unfold round2. rewrite Qred_correct.
  unfold mean, sum, len, round_half_even. cbn [fold_right List.length].
  change (Z.of_nat 1) with 1.
  change (inject_Z (s + 0) / inject_Z 1 * 100)%Q
    with (((s + 0) * 1 * 100) # 1)%Q.
  cbn [Qnum Qden]. rewrite Z.mod_1_r, Z.div_1_r. cbn [Z.mul Z.compare].
  unfold Qeq, inject_Z. cbn [Qnum Qden]. lia.
Qed.

(** X11.  On a poll with exactly one vote the view reports that score as
    minimum, maximum and average, divergence 0, standard deviation 0 (no
    square root is taken), consensus, and no need for discussion. *)
Theorem single_vote_view
    (sqrt : Q -> Q) (firm : UUID) (db : PollDB) (pid requester : UUID)
    (lead : bool) (poll : ConvictionPoll) (deal : Deal) (v : PollVote) :
  polls_by db pid firm = [poll] ->
  votes_of db pid = [v] ->
  in_range (conviction_score v) ->
  poll_deal db poll = Some deal ->
  exists view,
    DivergenceAnalyzer.get_divergence_view sqrt firm db pid requester lead
    = Ok view
    /\ DivergenceAnalyzer.total_votes view = 1
    /\ DivergenceAnalyzer.min_score view = conviction_score v
    /\ DivergenceAnalyzer.max_score view = conviction_score v
    /\ DivergenceAnalyzer.divergence view = 0
    /\ (DivergenceAnalyzer.v_average_score view
        == inject_Z (conviction_score v))%Q
    /\ DivergenceAnalyzer.std_deviation view = 0%Q
    /\ DivergenceAnalyzer.has_consensus view = true
    /\ DivergenceAnalyzer.needs_discussion view = false.
Proof.
  intros Hp Hv Hr Hdeal.
  assert (Hne : votes_of db pid <> []) by (rewrite Hv; discriminate).
  assert (Hall : Forall in_range (map conviction_score (votes_of db pid)))
    by (rewrite Hv; cbn; constructor; [exact Hr|constructor]).
  destruct (get_divergence_view_found sqrt firm db pid requester lead poll
              deal Hp Hne Hall Hdeal) as (view & Hview & _).
  exists view. split; [exact Hview|].
  apply get_divergence_view_full in Hview as (? & ? & ? & _ & _ & _ & _ & ->).
  rewrite Hv. cbn -[round2 mean Z.sub Z.leb].
  rewrite Z.sub_diag. repeat split; try reflexivity.
  apply round2_of_one_score.
Qed.

Lemma single_vote_view_witness :
  exists view,
    DivergenceAnalyzer.get_divergence_view (fun q => q) 1
      (mkPollDB [open_poll] [cast 100 21 6] [] [demo_deal] 101) 10 21 true
    = Ok view
    /\ DivergenceAnalyzer.divergence view = 0
    /\ DivergenceAnalyzer.has_consensus view = true.
Proof.
  destruct (single_vote_view (fun q => q) 1
              (mkPollDB [open_poll] [cast 100 21 6] [] [demo_deal] 101)
              10 21 true open_poll demo_deal (cast 100 21 6))
    as (view & Hview & _ & _ & _ & Hd & _ & _ & Hc & _);
    try reflexivity.
  - unfold in_range. cbn. lia.
  - exists view. auto.
Defined.

(** ** Polls of high divergence *)

(** X12.  [get_high_divergence_deals] lists only active polls of the
    tenant whose stored divergence is at least [min_divergence], the most
    divergent first, and at most [limit] of them. *)
Theorem high_divergence_deals_selected
    (firm : UUID) (db : PollDB) (min_divergence limit : Z)
    (res : list DivergenceAnalyzer.HighDivergence) :
  DivergenceAnalyzer.get_high_divergence_deals firm db min_divergence limit
  = Ok res ->
  (Z.of_nat (List.length res) <= limit)
  /\ Forall
       (fun h =>
          exists poll d,
            In poll (polls db)
            /\ DivergenceAnalyzer.hd_poll_id h = id poll
            /\ firm_id poll = firm /\ is_active poll = true
            /\ DivergenceAnalyzer.hd_divergence h = Some d
            /\ divergence_score poll = Some d
            /\ min_divergence <= d)
       res
  /\ StronglySorted
       (fun h1 h2 =>
          forall d1 d2,
            DivergenceAnalyzer.hd_divergence h1 = Some d1 ->
            DivergenceAnalyzer.hd_divergence h2 = Some d2 -> d2 <= d1)
       res.
Proof.
  unfold DivergenceAnalyzer.get_high_divergence_deals,
    DivergenceAnalyzer.high_divergence_polls, sql_limit.
  destruct (Z.ltb_spec limit 0) as [|Hlimit]; [discriminate|]. cbn [bind].
  set (keep := fun p => (firm_id p =? firm)
                        && DivergenceAnalyzer.divergence_at_least
                             min_divergence p
                        && is_active p).
  set (sorted := sort_by DivergenceAnalyzer.more_divergent
                   (filter keep (polls db))).
  assert (Hsel : Forall (fun p => In p (polls db) /\ keep p = true)
                   (firstn (Z.to_nat limit) sorted)).
  { apply Forall_forall. intros p Hp. apply in_firstn in Hp.
    apply (Permutation_in _ (sort_by_perm _ _)) in Hp.
    now apply filter_In in Hp. }
  assert (Hsorted : StronglySorted
                      (fun a b => DivergenceAnalyzer.more_divergent a b = true)
                      (firstn (Z.to_nat limit) sorted)).
  { apply StronglySorted_firstn. apply sort_by_sorted.
    - unfold DivergenceAnalyzer.more_divergent. intros a b.
      destruct (divergence_score a), (divergence_score b); try easy.
      rewrite Z.leb_gt, Z.leb_le. lia.
    - unfold DivergenceAnalyzer.more_divergent. intros a b c.
      destruct (divergence_score a), (divergence_score b),
        (divergence_score c); try easy.
      rewrite !Z.leb_le. lia. }
  assert (Hlen : Z.of_nat (List.length (firstn (Z.to_nat limit) sorted))
                 <= limit).
  { pose proof (firstn_le_length (Z.to_nat limit) sorted). lia. }
  revert Hsel Hsorted Hlen. generalize (firstn (Z.to_nat limit) sorted).
  intros l. revert res limit Hlimit.
  induction l as [|p l IH]; intros res limit Hlimit Hsel Hsorted Hlen; cbn.
  - intros H. injection H as <-. cbn. repeat split; try constructor. lia.
  - destruct (poll_deal db p) as [deal|]; [|discriminate].
    destruct (DivergenceAnalyzer.high_divergence_dicts db l) as [dicts|]
      eqn:Hd; [|discriminate].
    cbn [bind]. intros H. injection H as <-.
    inversion Hsel as [|? ? [Hin Hkeep] Hsel']; subst.
    inversion Hsorted as [|? ? Hs' Hall]; subst.
    cbn [List.length] in Hlen.
    destruct (IH dicts (limit - 1)) as (Hl & Hf & Hs); auto; try lia.
    split; [cbn [List.length]; lia|]. split.
    + constructor; [|exact Hf]. unfold keep in Hkeep.
      rewrite !andb_true_iff in Hkeep. destruct Hkeep as [[Hfirm Hdiv] Hact].
      unfold DivergenceAnalyzer.divergence_at_least in Hdiv.
      destruct (divergence_score p) as [d|] eqn:Hdp; [|discriminate].
      exists p, d. cbn. apply Z.eqb_eq in Hfirm. apply Z.leb_le in Hdiv.
      repeat split; auto.
    + constructor; [exact Hs|].
      rewrite Forall_forall in *. intros h Hh d1 d2 H1 H2. cbn in H1.
      destruct (Hf h Hh) as (q & dq & Hq & _ & _ & _ & Hhd & Hqd & _).
      assert (Hq' : exists q, In q l /\ divergence_score q = Some d2).
      { clear - Hd Hh H2. revert dicts Hd Hh.
        induction l as [|a l IHl]; intros dicts; cbn.
        - intros H. injection H as <-. easy.
        - destruct (poll_deal db a); [|discriminate].
          destruct (DivergenceAnalyzer.high_divergence_dicts db l) as [ds|];
            [|discriminate].
          cbn. intros H. injection H as <-. intros [<-|Hh].
          + exists a. split; [now left|exact H2].
          + destruct (IHl ds eq_refl Hh) as (q & Hq & Hqd).
            exists q. split; [now right|exact Hqd]. }
      destruct Hq' as (q' & Hq'in & Hq'd).
      specialize (Hall q' Hq'in).
      unfold DivergenceAnalyzer.more_divergent in Hall.
      rewrite H1, Hq'd in Hall. now apply Z.leb_le.
Qed.

Lemma high_divergence_deals_selected_witness :
  exists res,
    DivergenceAnalyzer.get_high_divergence_deals 1 divergent_db 4 10 = Ok res
    /\ map DivergenceAnalyzer.hd_poll_id res = [11]
    /\ Z.of_nat (List.length res) <= 10.
Proof.
  eexists. split; [reflexivity|]. split; [reflexivity|].
  exact (proj1 (high_divergence_deals_selected 1 divergent_db 4 10 _ eq_refl)).
Defined.

Lemma filter_none {A : Type} (f : A -> bool) (l : list A) :
  Forall (fun x => f x = false) l -> filter f l = [].
Proof.
  induction 1 as [|x l Hx _ IH]; cbn; [reflexivity|]. now rewrite Hx.
Qed.

(** X13.  [create_poll], [submit_vote] and [reveal_poll] keep the tables
    such that only inactive polls carry a divergence: [reveal_poll], the
    one writer of [divergence_score], deactivates the poll in the same
    write.  On such tables [get_high_divergence_deals], which selects
    active polls, returns the empty list for every tenant and
    threshold. *)
Theorem high_divergence_deals_empty_on_service_states (db : PollDB) :
  divergence_only_when_closed db ->
  (forall firm request created_by db1 poll,
     PollingService.create_poll firm db request created_by = Ok (db1, poll) ->
     divergence_only_when_closed db1)
  /\ (forall firm now pid uid data db1 v,
        PollingService.submit_vote firm now db pid uid data = Ok (db1, v) ->
        divergence_only_when_closed db1)
  /\ (forall firm pid by_user db1 p1,
        PollingService.reveal_poll firm db pid by_user = Ok (db1, p1) ->
        divergence_only_when_closed db1)
  /\ (forall firm min_divergence limit,
        0 <= limit ->
        DivergenceAnalyzer.get_high_divergence_deals firm db min_divergence
          limit = Ok []).
Proof.
  unfold divergence_only_when_closed. intros Hinv. repeat split.
  - intros firm request created_by db1 poll.
    unfold PollingService.create_poll.
    destruct (find _ (deals db)) as [deal|]; [|discriminate].
    destruct (negb _); [discriminate|]. intros H. injection H as <- <-.
    cbn [add_poll polls]. apply Forall_app. split; [exact Hinv|].
    constructor; [|constructor]. cbn. congruence.
  - intros firm now pid uid data db1 v H.
    apply submit_vote_inv in H as (_ & _ & _ & -> & _). exact Hinv.
  - intros firm pid by_user db1 p1 H.
    apply reveal_poll_inv in H as (poll & _ & _ & -> & ->).
    cbn [flush_poll polls]. apply Forall_forall. intros p Hp.
    apply in_map_iff in Hp as (q & <- & Hq).
    destruct (id q =? _).
    + intros _. apply revealed_flags.
    + rewrite Forall_forall in Hinv. now apply Hinv.
  - intros firm min_divergence limit Hlimit.
    unfold DivergenceAnalyzer.get_high_divergence_deals,
      DivergenceAnalyzer.high_divergence_polls, sql_limit.
    destruct (Z.ltb_spec limit 0); [lia|].
    rewrite filter_none; [now destruct (Z.to_nat limit)|].
    eapply Forall_impl; [|exact Hinv]. intros p Hp.
    unfold DivergenceAnalyzer.divergence_at_least.
    destruct (divergence_score p) eqn:Hd; [|now rewrite andb_false_r].
    rewrite Hp by congruence. apply andb_false_r.
Qed.

Lemma high_divergence_deals_empty_witness :
  exists db1 p1,
    PollingService.reveal_poll 1 voted_db 10 21 = Ok (db1, p1)
    /\ divergence_score p1 = Some 5
    /\ DivergenceAnalyzer.get_high_divergence_deals 1 db1 4 10 = Ok [].
Proof.
  eexists _, _. split; [reflexivity|]. split; [reflexivity|].
  assert (H0 : divergence_only_when_closed voted_db)
    by (repeat constructor; cbn; congruence).
  pose proof (proj1 (proj2 (proj2
                (high_divergence_deals_empty_on_service_states voted_db H0)))
                1 10 21 _ _ eq_refl) as H1.
  apply (proj2 (proj2 (proj2
           (high_divergence_deals_empty_on_service_states _ H1)))).
  lia.
Defined.

(** ** The model's own divergence *)

(** X14.  After [reveal_poll], [calculate_divergence] on the stored poll
    agrees with the frozen [divergence_score] when the poll has two votes
    or more; with a single vote it answers nothing while the frozen
    divergence is 0, and with no vote both are absent on a fresh poll. *)
Theorem calculate_divergence_after_reveal
    (firm : UUID) (db db1 : PollDB) (pid by_user : UUID)
    (p1 : ConvictionPoll) :
  PollingService.reveal_poll firm db pid by_user = Ok (db1, p1) ->
  (2 <= len (votes_of db pid) ->
   calculate_divergence db1 p1 = divergence_score p1
   /\ divergence_score p1 <> None)
  /\ (len (votes_of db pid) = 1 ->
      calculate_divergence db1 p1 = None
      /\ divergence_score p1 = Some 0)
  /\ (votes_of db pid = [] -> calculate_divergence db1 p1 = None).
Proof.
  intros Hr. apply reveal_poll_inv in Hr as (poll & Hget & Hfirm & -> & ->).
  destruct (revealed_flags poll (votes_of db pid)) as (Hid & _).
  pose proof (get_poll_id _ _ _ Hget) as Hpid.
  unfold calculate_divergence. rewrite Hid, Hpid.
  change (votes_of (flush_poll db (revealed poll (votes_of db pid))) pid)
    with (votes_of db pid).
  unfold revealed, len. rewrite !length_map.
  destruct (votes_of db pid) as [|v [|v2 vs]]; cbn [nonempty negb List.length];
    (split; [|split]); intros Hlen; try (cbn in Hlen; lia);
    try discriminate; try reflexivity.
  - split; [reflexivity|]. cbn. f_equal. lia.
  - cbn [divergence_score].
    destruct (Z.ltb_spec (Z.of_nat (S (S (List.length vs)))) 2); [lia|].
    split; [reflexivity|discriminate].
Qed.

Lemma calculate_divergence_after_reveal_witness :
  exists db1 p1,
    PollingService.reveal_poll 1 voted_db 10 21 = Ok (db1, p1)
    /\ calculate_divergence db1 p1 = Some 5.
Proof.
  eexists _, _. split; [reflexivity|].
  destruct (proj1 (calculate_divergence_after_reveal 1 voted_db _ 10 21 _
                     eq_refl)) as [H _].
  - cbn. lia.
  - exact (eq_trans H eq_refl).
Defined.

(** ** Batch embedding *)

Lemma list_set_middle {A : Type} (pre : list A) (x y : A) (post : list A) :
  list_set (List.length pre) x (pre ++ y :: post) = (pre ++ x :: post)%list.
Proof. induction pre as [|a pre IH]; cbn; [reflexivity|]. now rewrite IH. Qed.

Lemma weave_no_vectors (zero : Embedding) (texts : list string) :
  weave zero texts [] = map (fun _ => zero) texts.
Proof.
  induction texts as [|t rest IH]; cbn; [reflexivity|].
  rewrite IH. now destruct (nonempty_str t).
Qed.

Lemma weave_length (zero : Embedding) (texts : list string) :
  forall es, List.length (weave zero texts es) = List.length texts.
Proof.
  induction texts as [|t rest IH]; intros es; cbn; [reflexivity|].
  destruct (nonempty_str t); [destruct es|]; cbn; now rewrite IH.
Qed.

Lemma fold_set_weave (zero : Embedding) (texts : list string) :
  forall (pre : list Embedding) (es : list Embedding),
    fold_left (fun result (ie : nat * Embedding) =>
                 list_set (fst ie) (snd ie) result)
      (combine
         (map fst
            (filter (fun it : nat * string => nonempty_str (snd it))
               (combine (seq (List.length pre) (List.length texts)) texts)))
         es)
      (pre ++ map (fun _ => zero) texts)%list
    = (pre ++ weave zero texts es)%list.
Proof.
  induction texts as [|t rest IH]; intros pre es; [reflexivity|].
  cbn [List.length seq combine filter snd weave map].
  assert (Hnext : forall x : Embedding,
             S (List.length pre) = List.length (pre ++ [x])).
  { intros x. rewrite length_app. cbn. lia. }
  destruct (nonempty_str t).
  - cbn [map fst]. destruct es as [|e es]; cbn [combine fold_left fst snd].
    + now rewrite weave_no_vectors.
    + rewrite list_set_middle, (Hnext e).
      replace (pre ++ e :: map (fun _ => zero) rest)%list
        with ((pre ++ [e]) ++ map (fun _ => zero) rest)%list
        by (now rewrite <- app_assoc).
      rewrite IH. now rewrite <- app_assoc.
  - rewrite (Hnext zero).
    replace (pre ++ zero :: map (fun _ => zero) rest)%list
      with ((pre ++ [zero]) ++ map (fun _ => zero) rest)%list
      by (now rewrite <- app_assoc).
    rewrite IH. now rewrite <- app_assoc.
Qed.

Lemma valid_texts_none (texts : list string) :
  Forall (fun t => t = EmptyString) texts ->
  EmbeddingService.valid_texts texts = [].
Proof.
  intros Hall. unfold EmbeddingService.valid_texts. generalize 0%nat.
  induction Hall as [|t rest -> _ IH]; intros k; cbn; [reflexivity|].
  apply IH.
Qed.

(** X15.  [embed_texts] returns one vector per text: the model's vectors,
    in order, at the non-empty texts and the zero vector of the configured
    dimension at the empty ones.  When every text is empty it returns the
    zero vectors without calling the model, so also when the model is
    down; otherwise a failure of the model propagates. *)
Theorem embed_texts_rebuilds
    (dimension : nat) (encode_batch : list string -> result (list Embedding))
    (texts : list string) :
  (forall es,
     encode_batch (map snd (EmbeddingService.valid_texts texts)) = Ok es ->
     EmbeddingService.embed_texts dimension encode_batch texts
     = Ok (weave (repeat 0%Q dimension) texts es))
  /\ (forall vectors,
        EmbeddingService.embed_texts dimension encode_batch texts
        = Ok vectors ->
        List.length vectors = List.length texts)
  /\ (Forall (fun t => t = EmptyString) texts ->
      EmbeddingService.embed_texts dimension encode_batch texts
      = Ok (map (fun _ => repeat 0%Q dimension) texts))
  /\ (forall e,
        EmbeddingService.valid_texts texts <> [] ->
        encode_batch (map snd (EmbeddingService.valid_texts texts))
        = Raise e ->
        EmbeddingService.embed_texts dimension encode_batch texts = Raise e).
Proof.
  assert (Hmain : forall es,
            encode_batch (map snd (EmbeddingService.valid_texts texts))
            = Ok es \/ EmbeddingService.valid_texts texts = [] ->
            EmbeddingService.embed_texts dimension encode_batch texts
            = Ok (weave (repeat 0%Q dimension) texts es)).
  { intros es Hes. unfold EmbeddingService.embed_texts.
    destruct texts as [|t rest] eqn:Ht; [reflexivity|].
    cbn [nonempty negb]. rewrite <- Ht in *.
    destruct (EmbeddingService.valid_texts texts) as [|v vs] eqn:Hv.
    - cbn [nonempty negb]. f_equal.
      pose proof (fold_set_weave (repeat 0%Q dimension) texts [] es) as Hw.
      cbn [List.length app] in Hw. unfold EmbeddingService.valid_texts in Hv.
      rewrite Hv in Hw. cbn in Hw. exact Hw.
    - cbn [nonempty negb]. destruct Hes as [Hes|]; [|discriminate].
      rewrite Hes. cbn [bind]. f_equal. rewrite <- Hv.
      exact (fold_set_weave (repeat 0%Q dimension) texts [] es). }
  split; [intros es Hes; apply Hmain; now left|]. split; [|split].
  - intros vectors.
    destruct (EmbeddingService.valid_texts texts) as [|v vs] eqn:Hv.
    + rewrite (Hmain [] (or_intror eq_refl)). intros H. injection H as <-.
      apply weave_length.
    + destruct (encode_batch (map snd (v :: vs))) as [es|e] eqn:Hes.
      * rewrite (Hmain es (or_introl eq_refl)). intros H. injection H as <-.
        apply weave_length.
      * unfold EmbeddingService.embed_texts.
        destruct texts; [discriminate|]. cbn [nonempty negb].
        rewrite Hv. cbn [nonempty negb]. rewrite Hes. discriminate.
  - intros Hall. rewrite (Hmain [] (or_intror (valid_texts_none _ Hall))).
    now rewrite weave_no_vectors.
  - intros e Hv He. unfold EmbeddingService.embed_texts.
    destruct texts; [now destruct Hv|]. cbn [nonempty negb].
    destruct (EmbeddingService.valid_texts (s :: texts)); [now destruct Hv|].
    cbn [nonempty negb]. now rewrite He.
Qed.

Lemma embed_texts_rebuilds_witness :
  EmbeddingService.embed_texts 2
    (fun texts => Ok (map (fun _ => [1%Q; 1%Q]) texts)) ["a"; ""; "b"]
  = Ok [[1%Q; 1%Q]; [0%Q; 0%Q]; [1%Q; 1%Q]]
  /\ EmbeddingService.embed_texts 2
       (fun _ => Raise (ProviderError "down")) [""; ""]
     = Ok [[0%Q; 0%Q]; [0%Q; 0%Q]].
Proof.
  split.
  - exact (proj1 (embed_texts_rebuilds 2
                    (fun texts => Ok (map (fun _ => [1%Q; 1%Q]) texts))
                    ["a"; ""; "b"]) _ eq_refl).
  - apply (proj1 (proj2 (proj2 (embed_texts_rebuilds 2
                    (fun _ => Raise (ProviderError "down")) [""; ""])))).
    repeat constructor.
Defined.

(** ** Writing and deleting chunks *)

Lemma execute_ok {A : Type} (db : MemoryDB) (statement : result A) (a : A) :
  execute db statement = Ok a -> fault db = None /\ statement = Ok a.
Proof. unfold execute. destruct (fault db); [discriminate|auto]. Qed.


(** ** The two passes of the ghost-loss search *)

Lemma score_deals_from embed_text compute_similarity deal_embedding
    (passed_deals : list Deal) : forall scored,
  score_deals embed_text compute_similarity deal_embedding passed_deals
  = Ok scored ->
  Forall (fun p => exists d,
              In d passed_deals
              /\ p_type p = "passed_deal" /\ p_deal_id p = Some (deal_pk d)
              /\ p_company_name p = Some (company_name d)
              /\ p_pass_reason p = pass_reason d) scored.
Proof.
  induction passed_deals as [|d rest IH]; intros scored; cbn [score_deals].
  - intros H. injection H as <-. constructor.
  - destruct (embed_text _) as [pe|e]; [|discriminate]. cbn [bind].
    destruct (score_deals _ _ _ rest) as [tail|e]; [|discriminate].
    cbn [bind]. specialize (IH _ eq_refl).
    assert (Htail : Forall (fun p => exists d0,
                In d0 (d :: rest)
                /\ p_type p = "passed_deal"
                /\ p_deal_id p = Some (deal_pk d0)
                /\ p_company_name p = Some (company_name d0)
                /\ p_pass_reason p = pass_reason d0) tail).
    { eapply Forall_impl; [|exact IH]. intros p (d0 & Hin & Hp).
      exists d0. split; [now right|exact Hp]. }
    destruct (negb _); intros H; injection H as <-; [|exact Htail].
    constructor; [|exact Htail]. exists d. split; [now left|].
    cbn. repeat split.
Qed.

Lemma compared_comparable (firm : UUID) (deal d : Deal) :
  compared firm deal d = true <-> comparable_deal firm deal d.
Proof.
  unfold compared, comparable_deal. rewrite !andb_true_iff, Z.eqb_eq.
  assert (Hstage : is_passed (stage d) = true <-> stage d = Some PASSED).
  { unfold is_passed. destruct (stage d) as [[]|]; split; congruence. }
  assert (Hreason : match pass_reason d with
                    | Some _ => true
                    | None => false
                    end = true <-> pass_reason d <> None).
  { destruct (pass_reason d); split; congruence. }
  rewrite Hstage, Hreason.
  assert (Hsector : (if truthy_str (sector deal)
                     then match sector d with
                          | Some s => String.eqb s (or_empty (sector deal))
                          | None => false
                          end
                     else true) = true
                    <-> (truthy_str (sector deal) = true ->
                         sector d = sector deal)).
  { destruct (sector deal) as [[|c t]|]; cbn [truthy_str or_empty].
    - split; [discriminate|reflexivity].
    - destruct (sector d) as [s|].
      + rewrite String.eqb_eq. split; [now intros -> _|].
        intros H. specialize (H eq_refl). congruence.
      + split; [discriminate|]. intros H. specialize (H eq_refl).
        discriminate.
    - split; [discriminate|reflexivity]. }
  rewrite Hsector. tauto.
Qed.

Lemma find_similar_passed_deals_unfold embed_text compute_similarity firm db
    deal limit :
  _find_similar_passed_deals embed_text compute_similarity firm db deal limit
  = (passed_deals <-
       execute db
         (sql_limit (limit * 2)
            (sort_by newer (filter (compared firm deal) (m_deals db)))) ;;
     if negb (nonempty passed_deals) then Ok []
     else
       deal_embedding <- embed_text (deal_query_text deal) ;;
       scored_deals <-
         score_deals embed_text compute_similarity deal_embedding
           passed_deals ;;
       Ok (slice_to limit (sort_by by_similarity_desc scored_deals))).
Proof. reflexivity. Qed.

Lemma find_similar_passed_deals_inv embed_text compute_similarity firm db
    deal limit res :
  _find_similar_passed_deals embed_text compute_similarity firm db deal limit
  = Ok res ->
  exists scored,
    fault db = None /\ 0 <= limit
    /\ res = firstn (Z.to_nat limit) (sort_by by_similarity_desc scored)
    /\ Forall (fun p => (5 # 10 < p_similarity p)%Q) scored
    /\ Forall (from_passed_deal firm db deal) scored.
Proof.
  intros H. pose proof (find_similar_passed_deals_limit _ _ _ _ _ _ _ H)
    as Hlimit.
  rewrite find_similar_passed_deals_unfold in H.
  destruct (execute db _) as [pd|e] eqn:Hpd; [|discriminate].
  cbn [bind] in H. apply execute_ok in Hpd as [Hf Hpd].
  unfold sql_limit in Hpd.
  destruct (limit * 2 <? 0); [discriminate|]. injection Hpd as Hpd.
  assert (Hslice : forall l : list Pattern,
            slice_to limit l = firstn (Z.to_nat limit) l).
  { intros l. unfold slice_to. destruct (Z.ltb_spec limit 0); [lia|].
    reflexivity. }
  destruct (nonempty pd); cbn [negb] in H.
  - destruct (embed_text _) as [de|e]; [|discriminate]. cbn [bind] in H.
    destruct (score_deals _ _ _ _) as [scored|e] eqn:Hs; [|discriminate].
    cbn [bind] in H. injection H as <-. exists scored.
    split; [exact Hf|]. split; [exact Hlimit|]. split; [apply Hslice|].
    split; [eapply score_deals_above; eauto|].
    apply score_deals_from in Hs.
    eapply Forall_impl; [|exact Hs].
    intros p (d & Hin & Hty & Hid & Hname & Hreason).
    subst pd. apply in_firstn in Hin.
    apply (Permutation_in _ (sort_by_perm newer _)) in Hin.
    apply filter_In in Hin as [Hin Hk]. apply compared_comparable in Hk.
    exists d. repeat split; try assumption; apply Hk.
  - injection H as <-. exists []. split; [exact Hf|].
    split; [exact Hlimit|]. split; [now destruct (Z.to_nat limit)|].
    split; constructor.
Qed.

(** X22.  The structured pass [_find_similar_passed_deals] returns at
    most [limit] candidates, most similar first, each with a similarity
    above 0.5 and built from a passed deal of the tenant that has a
    recorded pass reason and, when the new deal names a sector, that
    sector.  When the tenant has no such deal (none passed with a reason,
    or none in the new deal's sector) it returns the empty list without
    asking the embedding model, so also when the model fails; when it has
    one and the limit is positive, the model is asked and its failure
    reaches the caller. *)
Theorem similar_passed_deals_sound
    (embed_text : string -> result Embedding)
    (compute_similarity : Embedding -> Embedding -> Q)
    (A : UUID) (db : MemoryDB) (deal : Deal) (limit : Z) :
  (forall res,
     _find_similar_passed_deals embed_text compute_similarity A db deal
       limit = Ok res ->
     len res <= limit
     /\ descending p_similarity res
     /\ Forall (fun p => (5 # 10 < p_similarity p)%Q
                         /\ from_passed_deal A db deal p) res)
  /\ (fault db = None -> 0 <= limit ->
      Forall (fun d => ~ comparable_deal A deal d) (m_deals db) ->
      _find_similar_passed_deals embed_text compute_similarity A db deal
        limit = Ok [])
  /\ (forall d e,
        fault db = None -> 1 <= limit ->
        In d (m_deals db) -> comparable_deal A deal d ->
        embed_text (deal_query_text deal) = Raise e ->
        _find_similar_passed_deals embed_text compute_similarity A db deal
          limit = Raise e).
Proof.
  split; [|split].
  - intros res H.
    apply find_similar_passed_deals_inv in H
      as (scored & _ & Hlimit & -> & Habove & Hfrom).
    split.
    { unfold len. pose proof (firstn_le_length (Z.to_nat limit)
                                (sort_by by_similarity_desc scored)). lia. }
    split.
    { unfold descending. apply StronglySorted_firstn.
      eapply StronglySorted_weaken;
        [|apply sort_by_sorted;
          [apply by_similarity_desc_total|apply by_similarity_desc_trans]].
      intros a b Hab. now apply Qle_bool_iff. }
    apply Forall_forall. intros p Hp. apply in_firstn in Hp.
    apply (Permutation_in _ (sort_by_perm by_similarity_desc _)) in Hp.
    rewrite Forall_forall in Habove, Hfrom. auto.
  - intros Hf Hlimit Hnone.
    rewrite find_similar_passed_deals_unfold. unfold execute, sql_limit.
    rewrite Hf. destruct (Z.ltb_spec (limit * 2) 0); [lia|]. cbn [bind].
    rewrite filter_none; [cbn [sort_by]; now rewrite firstn_nil|].
    eapply Forall_impl; [|exact Hnone]. intros d Hd. cbn beta in *.
    destruct (compared A deal d) eqn:Hc; [|reflexivity].
    apply compared_comparable in Hc. contradiction.
  - intros d e Hf Hlimit Hin Hcomp Hembed.
    rewrite find_similar_passed_deals_unfold. unfold execute, sql_limit.
    rewrite Hf. destruct (Z.ltb_spec (limit * 2) 0); [lia|]. cbn [bind].
    set (sorted := sort_by newer (filter (compared A deal) (m_deals db))).
    assert (Hd : In d sorted).
    { apply (Permutation_in _ (Permutation_sym (sort_by_perm newer _))).
      apply filter_In. split; [exact Hin|]. now apply compared_comparable. }
    destruct sorted as [|x rest]; [destruct Hd|].
    destruct (Z.to_nat (limit * 2)) as [|n] eqn:Hn; [lia|].
    cbn [firstn nonempty negb]. now rewrite Hembed.
Qed.

Lemma similar_passed_deals_sound_witness :
  (exists res,
     _find_similar_passed_deals unit_embed (fun _ _ => 9 # 10) 1 ghost_db
       new_deal 5 = Ok res
     /\ map p_company_name res = [Some "OldCo"]
     /\ Forall (fun p => (5 # 10 < p_similarity p)%Q
                         /\ from_passed_deal 1 ghost_db new_deal p) res)
  /\ _find_similar_passed_deals embed_down (fun _ _ => 9 # 10) 1 health_db
       fintech_deal 5 = Ok []
  /\ _find_similar_passed_deals embed_down (fun _ _ => 9 # 10) 1 health_db
       new_deal 5 = Raise (ProviderError "model not loaded").
Proof.
  split; [|split].
  - eexists. split; [reflexivity|]. split; [reflexivity|].
    exact (proj2 (proj2
             (proj1 (similar_passed_deals_sound unit_embed
                       (fun _ _ => 9 # 10) 1 ghost_db new_deal 5)
                _ eq_refl))).
  - apply (proj1 (proj2 (similar_passed_deals_sound embed_down
                           (fun _ _ => 9 # 10) 1 health_db fintech_deal 5)));
      [reflexivity|lia|].
    constructor; [|constructor].
    intros (_ & _ & _ & Hsector). specialize (Hsector eq_refl).
    discriminate.
  - apply (proj2 (proj2 (similar_passed_deals_sound embed_down
                           (fun _ _ => 9 # 10) 1 health_db new_deal 5))
             _ _ eq_refl ltac:(lia) (or_introl eq_refl));
      [|reflexivity].
    repeat split; discriminate.
Defined.

Lemma search_pass_vectors_empty embed_text re_search firm db deal limit :
  (forall query_vector,
     embed_text (vector_query_text deal) = Ok query_vector ->
     _search_pass_vectors embed_text re_search firm db deal limit = Ok [])
  /\ (forall vector_patterns,
        _search_pass_vectors embed_text re_search firm db deal limit
        = Ok vector_patterns ->
        vector_patterns = []).
Proof.
  unfold _search_pass_vectors, pass_vector_rows, execute.
  destruct (embed_text _) as [qv|e]; cbn [bind]; split.
  - intros _ _. now destruct (fault db).
  - intros vp H. destruct (fault db); now injection H as <-.
  - discriminate.
  - discriminate.
Qed.

Lemma filter_firstn_length {A : Type} (f : A -> bool) (n : nat)
    (l : list A) :
  (List.length (filter f (firstn n l)) <= List.length (filter f l))%nat.
Proof.
  revert n. induction l as [|a l IH]; intros [|n]; cbn; try lia.
  specialize (IH n). destruct (f a); cbn; lia.
Qed.

(** X23.  [find_ghost_loss_patterns] returns candidates of the structured
    pass only: at most [limit] patterns, most similar first, each built
    from a passed deal of the tenant with a similarity above 0.5, and no
    two of them with the same non-empty lower-cased company name.  The
    narrative pass adds none: its statement is refused and the error is
    absorbed, so once the structured pass has returned and the deal text
    is embedded, the result is the first [limit] of the deduplicated
    candidates of that pass.  A storage failure is not absorbed: the
    structured pass runs first and the error reaches the caller. *)
Theorem ghost_loss_patterns_sound
    (lower : string -> string)
    (embed_text : string -> result Embedding)
    (compute_similarity : Embedding -> Embedding -> Q)
    (re_search : string -> string -> option string)
    (A : UUID) (db : MemoryDB) (deal : Deal) (limit lookback_days : Z) :
  (forall res,
     find_ghost_loss_patterns lower embed_text compute_similarity re_search
       A db deal limit lookback_days = Ok res ->
     len res <= limit
     /\ descending p_similarity res
     /\ Forall (fun p => (5 # 10 < p_similarity p)%Q
                         /\ from_passed_deal A db deal p) res
     /\ (forall k, k <> EmptyString ->
           (List.length (filter (same_company lower k) res) <= 1)%nat))
  /\ (forall passed_deals query_vector,
        _find_similar_passed_deals embed_text compute_similarity A db deal
          limit = Ok passed_deals ->
        embed_text (vector_query_text deal) = Ok query_vector ->
        find_ghost_loss_patterns lower embed_text compute_similarity
          re_search A db deal limit lookback_days
        = Ok (firstn (Z.to_nat limit)
                (_deduplicate_and_rank lower passed_deals)))
  /\ (forall e,
        fault db = Some e ->
        find_ghost_loss_patterns lower embed_text compute_similarity
          re_search A db deal limit lookback_days = Raise e).
Proof.
  split; [|split].
  - intros res. unfold find_ghost_loss_patterns.
    destruct (_find_similar_passed_deals _ _ _ _ _ _) as [pd|e] eqn:Hpd;
      [|discriminate]. cbn [bind].
    destruct (_search_pass_vectors _ _ _ _ _ _) as [vp|e] eqn:Hvp;
      [|discriminate]. cbn [bind]. intros H. injection H as <-.
    pose proof (find_similar_passed_deals_limit _ _ _ _ _ _ _ Hpd) as Hlimit.
    apply find_similar_passed_deals_inv in Hpd
      as (scored & _ & _ & -> & Habove & Hfrom).
    apply search_pass_vectors_empty in Hvp as ->. rewrite app_nil_r.
    unfold slice_to. destruct (Z.ltb_spec limit 0) as [|_]; [lia|].
    set (patterns := firstn (Z.to_nat limit)
                       (sort_by by_similarity_desc scored)).
    assert (Hsorted : StronglySorted
              (fun a b => by_similarity_desc a b = true)
              (_deduplicate_and_rank lower patterns)).
    { apply dedup_loop_sorted. apply sort_by_sorted;
        [apply by_similarity_desc_total|apply by_similarity_desc_trans]. }
    split.
    { unfold len. pose proof (firstn_le_length (Z.to_nat limit)
                                (_deduplicate_and_rank lower patterns)).
      lia. }
    split.
    { unfold descending. apply StronglySorted_firstn.
      eapply StronglySorted_weaken; [|exact Hsorted].
      intros a b Hab. now apply Qle_bool_iff. }
    split.
    { apply Forall_forall. intros p Hp. apply in_firstn in Hp.
      apply dedup_loop_incl in Hp.
      apply (Permutation_in _ (sort_by_perm by_similarity_desc _)) in Hp.
      apply in_firstn in Hp.
      apply (Permutation_in _ (sort_by_perm by_similarity_desc _)) in Hp.
      rewrite Forall_forall in Habove, Hfrom. auto. }
    intros k Hk.
    eapply Nat.le_trans; [apply filter_firstn_length|].
    unfold _deduplicate_and_rank. rewrite (dedup_loop_count lower k _ Hk).
    cbn [seen existsb]. destruct (existsb _ _); lia.
  - intros pd qv Hpd Hqv. unfold find_ghost_loss_patterns.
    rewrite Hpd. cbn [bind].
    rewrite (proj1 (search_pass_vectors_empty _ _ _ _ _ _) qv Hqv).
    cbn [bind]. rewrite app_nil_r.
    pose proof (find_similar_passed_deals_limit _ _ _ _ _ _ _ Hpd) as Hl.
    unfold slice_to. destruct (Z.ltb_spec limit 0); [lia|reflexivity].
  - intros e Hf. unfold find_ghost_loss_patterns.
    rewrite find_similar_passed_deals_unfold. unfold execute.
    now rewrite Hf.
Qed.

Lemma ghost_loss_patterns_sound_witness :
  (exists res,
     find_ghost_loss_patterns ascii_lower unit_embed (fun _ _ => 9 # 10)
       (fun _ _ => None) 1 ghost_db new_deal 5 1095 = Ok res
     /\ map p_type res = ["passed_deal"]
     /\ map p_company_name res = [Some "OldCo"]
     /\ descending p_similarity res)
  /\ find_ghost_loss_patterns ascii_lower unit_embed (fun _ _ => 9 # 10)
       (fun _ _ => None) 1 broken_db new_deal 5 1095
     = Raise (DBAPIError "connection lost").
Proof.
  pose proof (ghost_loss_patterns_sound ascii_lower unit_embed
                (fun _ _ => 9 # 10) (fun _ _ => None) 1 ghost_db new_deal 5
                1095) as (Hsound & Hreturns & _).
  split.
  - assert (Hpd : exists passed_deals,
               _find_similar_passed_deals unit_embed (fun _ _ => 9 # 10) 1
                 ghost_db new_deal 5 = Ok passed_deals)
      by (eexists; reflexivity).
    destruct Hpd as [passed_deals Hpd].
    pose proof (Hreturns passed_deals [1%Q] Hpd eq_refl) as Hres.
    eexists. split; [exact Hres|].
    split; [|split; [|exact (proj1 (proj2 (Hsound _ Hres)))]];
      vm_compute in Hpd; injection Hpd as <-; reflexivity.
  - exact (proj2 (proj2 (ghost_loss_patterns_sound ascii_lower unit_embed
                           (fun _ _ => 9 # 10) (fun _ _ => None) 1
                           broken_db new_deal 5 1095)) _ eq_refl).
Defined.

(** ** Contradictions with historical memos *)

Lemma check_sections_spec embed_text ask firm sections
    (to_check : list (string * string)) (db : MemoryDB) :
  check_sections embed_text ask firm db sections to_check
  = if existsb (fun key => truthy_str (sections key)) (map fst to_check)
    then Raise (match fault db with
                | Some e => e
                | None => syntax_error "$1"
                end)
    else Ok (db, []).
Proof.
  induction to_check as [|[key description] rest IH];
    cbn [check_sections map fst existsb]; [reflexivity|].
  destruct (truthy_str (sections key)); cbn [negb orb]; [|exact IH].
  unfold VectorStore.search_historical_memos, VectorStore.similarity_search.
  now rewrite set_rls_context_raises.
Qed.



(** ** Chunking of the parsed text *)

Section ChunkText.

Context {char : Type}.
Variable char_eqb : char -> char -> bool.
Variable isspace : char -> bool.
Variables newline period space : char.

Abbreviation chunk_end := (PDFParser.chunk_end char_eqb newline period space).
Abbreviation chunk_loop :=
  (PDFParser.chunk_loop char_eqb isspace newline period space).
Abbreviation chunk_text :=
  (PDFParser.chunk_text char_eqb isspace newline period space).
Abbreviation strip := (PDFParser.strip isspace).
Abbreviation lstrip := (PDFParser.lstrip isspace).

Lemma rfind_bound (text sub : list char) (start end_ : Z) :
  PDFParser.rfind char_eqb text sub start end_ = -1
  \/ (PDFParser.bound (len text) start
      <= PDFParser.rfind char_eqb text sub start end_
      <= PDFParser.bound (len text) end_ - len sub).
Proof.
  unfold PDFParser.rfind.
  destruct (find _ _) as [i|] eqn:Hfind; [right|now left].
  apply find_some in Hfind as [Hin _]. apply in_rev in Hin.
  apply in_map_iff in Hin as (k & <- & Hk). apply in_seq in Hk. lia.
Qed.

Lemma bound_inside (n i : Z) : 0 <= i <= n -> PDFParser.bound n i = i.
Proof. unfold PDFParser.bound. destruct (Z.ltb_spec i 0); lia. Qed.

Lemma bound_beyond (n i : Z) : 0 <= n <= i -> PDFParser.bound n i = n.
Proof. unfold PDFParser.bound. destruct (Z.ltb_spec i 0); lia. Qed.

Lemma chunk_end_bounds (text : list char) (chunk_size start : Z) :
  1 <= chunk_size -> 0 <= start ->
  start + chunk_size / 2 < chunk_end text chunk_size start
                           <= start + chunk_size
  /\ (chunk_end text chunk_size start < len text ->
      chunk_end text chunk_size start = start + chunk_size
      \/ start + chunk_size / 2 + 1 <= chunk_end text chunk_size start).
Proof.
  intros Hsize Hstart. unfold PDFParser.chunk_end.
  assert (Hhalf : chunk_size / 2 < chunk_size)
    by (apply Z.div_lt; lia).
  assert (Hhalf0 : 0 <= chunk_size / 2) by (apply Z.div_pos; lia).
  destruct (Z.ltb_spec (start + chunk_size) (len text)) as [Hlt|Hge];
    [|lia].
  destruct (Z.ltb_spec (start + chunk_size / 2)
              (PDFParser.rfind char_eqb text [newline; newline] start
                 (start + chunk_size))) as [Hp|Hp].
  - destruct (rfind_bound text [newline; newline] start
                (start + chunk_size)) as [H|H]; [lia|].
    rewrite (bound_inside _ (start + chunk_size)) in H by lia.
    cbn in H. lia.
  - destruct (Z.ltb_spec (start + chunk_size / 2)
                (PDFParser.rfind char_eqb text [period; space] start
                   (start + chunk_size))) as [Hs|Hs]; [|lia].
    destruct (rfind_bound text [period; space] start
                (start + chunk_size)) as [H|H]; [lia|].
    rewrite (bound_inside _ (start + chunk_size)) in H by lia.
    cbn in H. lia.
Qed.

Lemma lstrip_suffix (s : list char) :
  exists pre, s = (pre ++ lstrip s)%list
              /\ Forall (fun c => isspace c = true) pre.
Proof.
  induction s as [|c t (pre & IH & Hpre)]; cbn.
  - now exists [].
  - destruct (isspace c) eqn:Hc.
    + exists (c :: pre). split; [cbn; now f_equal|now constructor].
    + now exists [].
Qed.

Lemma lstrip_head (s : list char) (c : char) (t : list char) :
  lstrip s = c :: t -> isspace c = false.
Proof.
  induction s as [|d s IH]; cbn; [discriminate|].
  destruct (isspace d) eqn:Hd; [exact IH|].
  intros H. now injection H as <- _.
Qed.

Lemma lstrip_length (s : list char) :
  (List.length (lstrip s) <= List.length s)%nat.
Proof.
  induction s as [|c t IH]; cbn; [lia|]. destruct (isspace c); cbn; lia.
Qed.

Lemma in_lstrip (s : list char) (c : char) :
  In c s -> isspace c = false -> In c (lstrip s).
Proof.
  intros Hin Hc. induction s as [|d t IH]; cbn; [easy|].
  destruct (isspace d) eqn:Hd; [|exact Hin].
  destruct Hin as [->|Hin]; [congruence|now apply IH].
Qed.

Lemma strip_length (s : list char) :
  (List.length (strip s) <= List.length s)%nat.
Proof.
  unfold PDFParser.strip. rewrite length_rev.
  pose proof (lstrip_length (rev (lstrip s))) as H1.
  rewrite length_rev in H1. pose proof (lstrip_length s). lia.
Qed.

Lemma in_strip (s : list char) (c : char) :
  In c s -> isspace c = false -> In c (strip s).
Proof.
  intros Hin Hc. unfold PDFParser.strip. apply in_rev.
  rewrite rev_involutive. apply in_lstrip; [|exact Hc].
  apply -> in_rev. now apply in_lstrip.
Qed.

Lemma strip_incl (s : list char) (c : char) : In c (strip s) -> In c s.
Proof.
  unfold PDFParser.strip. intros H. apply in_rev in H.
  destruct (lstrip_suffix (rev (lstrip s))) as (pre & Heq & _).
  assert (H1 : In c (rev (lstrip s)))
    by (rewrite Heq; apply in_or_app; now right).
  apply in_rev in H1.
  destruct (lstrip_suffix s) as (pre' & Heq' & _).
  rewrite Heq'. apply in_or_app. now right.
Qed.

(** A stripped string neither starts nor ends with white space. *)
Lemma strip_ends (s : list char) (c : char) :
  hd_error (strip s) = Some c \/ hd_error (rev (strip s)) = Some c ->
  isspace c = false.
Proof.
  unfold PDFParser.strip. rewrite rev_involutive. intros [H|H].
  - destruct (lstrip_suffix (rev (lstrip s))) as (pre & Heq & _).
    set (w := lstrip (rev (lstrip s))) in *.
    assert (Hu : lstrip s = (rev w ++ rev pre)%list).
    { rewrite <- rev_app_distr, <- Heq. now rewrite rev_involutive. }
    destruct (rev w) as [|x r] eqn:Hr; [discriminate|].
    cbn in H. injection H as ->. cbn in Hu.
    eapply lstrip_head; eauto.
  - destruct (lstrip (rev (lstrip s))) as [|x r] eqn:Hl; [discriminate|].
    cbn in H. injection H as ->. eapply lstrip_head; eauto.
Qed.

Lemma slice_length (text : list char) (start end_ : Z) :
  0 <= start <= end_ ->
  len (PDFParser.slice text start end_) <= end_ - start.
Proof.
  intros Hstart. unfold PDFParser.slice, len.
  pose proof (firstn_le_length
                (Z.to_nat (PDFParser.bound (len text) end_
                           - PDFParser.bound (len text) start))
                (skipn (Z.to_nat (PDFParser.bound (len text) start)) text))
    as H.
  assert (Hb : PDFParser.bound (len text) end_
               - PDFParser.bound (len text) start
               <= end_ - start).
  { unfold PDFParser.bound, len.
    destruct (Z.ltb_spec end_ 0), (Z.ltb_spec start 0); lia. }
  unfold len in *. lia.
Qed.

Lemma in_slice (text : list char) (start end_ i : Z) (c : char) :
  0 <= start <= i -> i < end_ ->
  nth_error text (Z.to_nat i) = Some c ->
  In c (PDFParser.slice text start end_).
Proof.
  intros Hi Hend Hnth.
  assert (Hlen : (Z.to_nat i < List.length text)%nat).
  { apply nth_error_Some. congruence. }
  unfold PDFParser.slice.
  rewrite (bound_inside _ start) by (unfold len; lia).
  set (b := PDFParser.bound (len text) end_).
  assert (Hb : i < b).
  { unfold b, PDFParser.bound, len.
    destruct (Z.ltb_spec end_ 0); lia. }
  apply nth_error_In with (n := Z.to_nat (i - start)).
  rewrite nth_error_firstn.
  destruct (Nat.ltb_spec (Z.to_nat (i - start)) (Z.to_nat (b - start)));
    [|lia].
  rewrite nth_error_skipn. rewrite <- Hnth. f_equal. lia.
Qed.

Lemma slice_all (text : list char) (end_ : Z) :
  len text <= end_ -> PDFParser.slice text 0 end_ = text.
Proof.
  intros H. unfold PDFParser.slice.
  rewrite (bound_inside _ 0) by (unfold len; lia).
  rewrite (bound_beyond _ end_) by (unfold len in *; lia).
  cbn [Z.to_nat skipn]. apply firstn_all2. unfold len. lia.
Qed.

Lemma strip_spec (s : list char) :
  exists before after,
    s = (before ++ strip s ++ after)%list
    /\ Forall (fun x => isspace x = true) before
    /\ Forall (fun x => isspace x = true) after.
Proof.
  destruct (lstrip_suffix s) as (pre & Hs & Hpre).
  destruct (lstrip_suffix (rev (lstrip s))) as (pre2 & Hr & Hpre2).
  exists pre, (rev pre2). split; [|split; [exact Hpre|]].
  - unfold PDFParser.strip. rewrite <- rev_app_distr, <- Hr.
    now rewrite rev_involutive.
  - apply Forall_forall. intros x Hx. apply in_rev in Hx.
    rewrite Forall_forall in Hpre2. auto.
Qed.

Lemma chunk_loop_more_fuel (text : list char) (chunk_size overlap : Z)
    (fuel : nat) : forall fuel' start chunk_index chunks,
  (fuel <= fuel')%nat ->
  chunk_loop fuel text chunk_size overlap start chunk_index = Some chunks ->
  chunk_loop fuel' text chunk_size overlap start chunk_index = Some chunks.
Proof.
  induction fuel as [|fuel IH]; intros fuel' start chunk_index chunks Hle.
  - cbn [PDFParser.chunk_loop].
    destruct fuel'; cbn [PDFParser.chunk_loop];
      destruct (negb (start <? len text)); congruence.
  - destruct fuel' as [|fuel']; [lia|]. cbn [PDFParser.chunk_loop].
    destruct (negb (start <? len text)); [congruence|].
    destruct (nonempty _).
    + destruct (chunk_loop fuel _ _ _ _ _) as [rest|] eqn:Hrest;
        [|discriminate].
      rewrite (IH fuel' _ _ _ ltac:(lia) Hrest). congruence.
    + apply IH. lia.
Qed.

Lemma chunk_loop_spec (text : list char) (chunk_size overlap : Z) :
  1 <= chunk_size -> overlap <= chunk_size / 2 ->
  forall fuel start chunk_index,
    0 <= start -> len text - start <= Z.of_nat fuel ->
    exists chunks,
      chunk_loop fuel text chunk_size overlap start chunk_index
      = Some chunks
      /\ map PDFParser.tc_chunk_index chunks
         = map (fun k => chunk_index + Z.of_nat k)
               (seq 0 (List.length chunks))
      /\ Forall (fun c => start <= PDFParser.start_char c
                          /\ well_cut isspace text chunk_size c) chunks
      /\ in_text_order chunks
      /\ (0 <= overlap ->
          forall i x,
            start <= i -> nth_error text (Z.to_nat i) = Some x ->
            isspace x = false ->
            exists c, In c chunks
                      /\ PDFParser.start_char c <= i < PDFParser.end_char c
                      /\ In x (PDFParser.tc_content c)).
Proof.
  intros Hsize Hoverlap.
  assert (Hhalf0 : 0 <= chunk_size / 2) by (apply Z.div_pos; lia).
  assert (Hnth : forall i x, nth_error text (Z.to_nat i) = Some x ->
                             0 <= i -> i < len text).
  { intros i x Hx Hi.
    assert ((Z.to_nat i < List.length text)%nat)
      by (apply nth_error_Some; congruence).
    unfold len. lia. }
  induction fuel as [|fuel IH]; intros start chunk_index Hstart Hfuel;
    cbn [PDFParser.chunk_loop];
    destruct (Z.ltb_spec start (len text)) as [Hlt|Hge]; cbn [negb];
    try lia.
  1,3: exists []; split; [reflexivity|]; split; [reflexivity|];
       split; [constructor|]; split; [constructor|];
       intros _ i x Hi Hx _; specialize (Hnth i x Hx); lia.
  set (end_ := chunk_end text chunk_size start).
  destruct (chunk_end_bounds text chunk_size start Hsize Hstart)
    as [Hend _]. fold end_ in Hend.
  set (next := if end_ <? len text then end_ - overlap else len text).
  assert (Hnext : start < next
                  /\ (0 <= overlap -> end_ < len text -> next <= end_)).
  { unfold next. destruct (Z.ltb_spec end_ (len text)); lia. }
  set (content := strip (PDFParser.slice text start end_)).
  assert (Hcover : forall i x,
             start <= i < end_ -> nth_error text (Z.to_nat i) = Some x ->
             isspace x = false -> In x content).
  { intros i x Hi Hx Hsp. apply in_strip; [|exact Hsp].
    apply in_slice with (i := i); [lia|lia|exact Hx]. }
  assert (Hshift : forall n,
             map (fun k => chunk_index + 1 + Z.of_nat k) (seq 0 n)
             = map (fun k => chunk_index + Z.of_nat k) (seq 1 n)).
  { intros n. rewrite <- seq_shift, map_map. apply map_ext.
    intros k. lia. }
  destruct (nonempty content) eqn:Hne.
  - destruct (IH next (chunk_index + 1) ltac:(lia) ltac:(lia))
      as (rest & -> & Hidx & Hall & Hsorted & Hrest).
    cbn [option_map]. eexists. split; [reflexivity|].
    split.
    { cbn [map List.length seq PDFParser.tc_chunk_index].
      rewrite Hidx, Hshift. f_equal. lia. }
    split.
    { constructor.
      - split; [cbn; lia|]. unfold well_cut.
        cbn [PDFParser.start_char PDFParser.end_char PDFParser.tc_content].
        split; [lia|]. split; [lia|]. split; [apply strip_spec|].
        split; [destruct content; [discriminate|easy]|].
        split.
        + pose proof (strip_length (PDFParser.slice text start end_)) as H1.
          pose proof (slice_length text start end_ ltac:(lia)) as H2.
          fold content in H1. unfold len in *. lia.
        + apply strip_ends.
      - eapply Forall_impl; [|exact Hall]. intros c [H1 H2].
        split; [lia|exact H2]. }
    split.
    { constructor; [exact Hsorted|].
      eapply Forall_impl; [|exact Hall]. intros c [H1 _]. cbn. lia. }
    intros Hov i x Hi Hx Hsp.
    destruct (Z.lt_ge_cases i end_) as [Hin|Hout].
    + eexists. split; [now left|]. cbn. split; [lia|].
      now apply (Hcover i).
    + pose proof (Hnth i x Hx ltac:(lia)) as Hi'.
      destruct (Hrest Hov i x ltac:(lia) Hx Hsp) as (c & Hc & Hcx).
      exists c. split; [now right|exact Hcx].
  - destruct (IH next chunk_index ltac:(lia) ltac:(lia))
      as (rest & -> & Hidx & Hall & Hsorted & Hrest).
    exists rest. split; [reflexivity|]. split; [exact Hidx|].
    split.
    { eapply Forall_impl; [|exact Hall]. intros c [H1 H2].
      split; [lia|exact H2]. }
    split; [exact Hsorted|].
    intros Hov i x Hi Hx Hsp.
    destruct (Z.lt_ge_cases i end_) as [Hin|Hout].
    + pose proof (Hcover i x ltac:(lia) Hx Hsp) as Habs.
      destruct content; [destruct Habs|discriminate].
    + pose proof (Hnth i x Hx ltac:(lia)) as Hi'.
      apply Hrest; [exact Hov|lia|exact Hx|exact Hsp].
Qed.

Lemma find_all_false {A : Type} (f : A -> bool) (l : list A) :
  (forall x, In x l -> f x = false) -> find f l = None.
Proof.
  induction l as [|a l IH]; cbn; [reflexivity|]. intros H.
  rewrite (H a) by now left. apply IH. intros x Hx. apply H. now right.
Qed.

Lemma rfind_absent (text : list char) (c0 : char) (sub : list char)
    (start end_ : Z) :
  Forall (fun d => char_eqb c0 d = false) text ->
  PDFParser.rfind char_eqb text (c0 :: sub) start end_ = -1.
Proof.
  intros Habsent. unfold PDFParser.rfind. rewrite find_all_false; [easy|].
  intros i _. destruct (skipn (Z.to_nat i) text) as [|d s] eqn:Hs;
    [reflexivity|]. cbn.
  assert (Hd : In d text).
  { rewrite <- (firstn_skipn (Z.to_nat i) text), Hs.
    apply in_or_app. right. now left. }
  rewrite Forall_forall in Habsent. now rewrite (Habsent d Hd).
Qed.

Lemma chunk_loop_stuck (text : list char) (chunk_size overlap : Z) :
  1 <= chunk_size <= overlap -> chunk_size < len text ->
  Forall (fun d => char_eqb newline d = false) text ->
  Forall (fun d => char_eqb period d = false) text ->
  forall fuel start chunk_index,
    start <= 0 ->
    chunk_loop fuel text chunk_size overlap start chunk_index = None.
Proof.
  intros Hsize Hlen Hnl Hp.
  induction fuel as [|fuel IH]; intros start chunk_index Hstart;
    cbn [PDFParser.chunk_loop];
    destruct (Z.ltb_spec start (len text)); cbn [negb]; try lia;
    [reflexivity|].
  assert (Hend : chunk_end text chunk_size start < len text
                 /\ chunk_end text chunk_size start - overlap <= 0).
  { unfold PDFParser.chunk_end. rewrite !rfind_absent by assumption.
    destruct (Z.ltb_spec (start + chunk_size) (len text)); [|lia].
    destruct (Z.ltb_spec (start + chunk_size / 2) (-1)); lia. }
  destruct Hend as [Hend1 Hend2].
  destruct (Z.ltb_spec (chunk_end text chunk_size start) (len text));
    [|lia].
  destruct (nonempty _); rewrite IH by lia; reflexivity.
Qed.

End ChunkText.

(** X26.  With [chunk_size] at least 1 and [overlap] at most half of it,
    negative or not (the defaults are 1000 and 200), the loop of
    [chunk_text] ends after at most one pass per character.  The chunks
    are numbered 0, 1, 2, ... without gap, in the order of the text; each
    holds the characters of a window of at most [chunk_size] characters
    that starts inside the text, less the white space at the window's
    ends, and none is empty. *)
Theorem chunk_text_well_cut {char : Type} (char_eqb : char -> char -> bool)
    (isspace : char -> bool) (newline period space : char)
    (text : list char) (chunk_size overlap : Z) :
  1 <= chunk_size -> overlap <= chunk_size / 2 ->
  exists chunks,
    (forall fuel, (List.length text <= fuel)%nat ->
       PDFParser.chunk_text char_eqb isspace newline period space fuel text
         chunk_size overlap = Some chunks)
    /\ map PDFParser.tc_chunk_index chunks
       = map Z.of_nat (seq 0 (List.length chunks))
    /\ Forall (well_cut isspace text chunk_size) chunks
    /\ in_text_order chunks.
Proof.
  intros Hsize Hoverlap. unfold PDFParser.chunk_text.
  destruct text as [|x text]; cbn [nonempty negb].
  { exists []. repeat split; constructor. }
  destruct (chunk_loop_spec char_eqb isspace newline period space
              (x :: text) chunk_size overlap Hsize Hoverlap
              (List.length (x :: text)) 0 0 ltac:(lia)
              ltac:(unfold len; lia))
    as (chunks & Hrun & Hidx & Hall & Hsorted & _).
  exists chunks. split; [|split; [|split]].
  - intros fuel Hfuel. eapply chunk_loop_more_fuel; eauto.
  - rewrite Hidx. apply map_ext. intros k. lia.
  - eapply Forall_impl; [|exact Hall]. now intros c [_ H].
  - exact Hsorted.
Qed.

Lemma chunk_text_well_cut_witness :
  exists chunks,
    chunk_ascii 30 "Alpha beta. Gamma delta" 12 3 = Some chunks
    /\ map PDFParser.tc_content chunks
       = [chars "Alpha beta."; chars "ta. Gamma de"; chars "delta"]
    /\ map PDFParser.tc_chunk_index chunks = [0; 1; 2]
    /\ Forall (well_cut space1 (chars "Alpha beta. Gamma delta") 12)
              chunks.
Proof.
  destruct (chunk_text_well_cut Ascii.eqb space1 "010"%char "."%char
              " "%char (chars "Alpha beta. Gamma delta") 12 3
              ltac:(lia) ltac:(cbn; lia))
    as (chunks & Hrun & _ & Hall & _).
  exists chunks. specialize (Hrun 30%nat ltac:(cbn; lia)).
  split; [exact Hrun|].
  assert (Heq : Some chunks
                = chunk_ascii 30 "Alpha beta. Gamma delta" 12 3)
    by (symmetry; exact Hrun).
  vm_compute in Heq. injection Heq as ->.
  split; [reflexivity|]. split; [reflexivity|exact Hall].
Defined.

(** X27.  With [chunk_size] at least 1 and an [overlap] from 0 to half of
    it no character is lost: every character of the text that is not
    white space lies in the window of a returned chunk and is in that
    chunk's content, whatever fuel the run was given.  (A negative
    [overlap] leaves gaps between the windows.) *)
Theorem chunk_text_keeps_every_character {char : Type}
    (char_eqb : char -> char -> bool) (isspace : char -> bool)
    (newline period space : char) (text : list char)
    (chunk_size overlap : Z) (fuel : nat)
    (chunks : list (PDFParser.TextChunk char)) :
  1 <= chunk_size -> 0 <= overlap <= chunk_size / 2 ->
  PDFParser.chunk_text char_eqb isspace newline period space fuel text
    chunk_size overlap = Some chunks ->
  forall i x,
    nth_error text i = Some x -> isspace x = false ->
    exists c,
      In c chunks
      /\ PDFParser.start_char c <= Z.of_nat i < PDFParser.end_char c
      /\ In x (PDFParser.tc_content c).
Proof.
  intros Hsize Hoverlap. unfold PDFParser.chunk_text.
  destruct text as [|x0 text]; cbn [nonempty negb].
  { intros _ [|i] x Hx; discriminate. }
  intros Hrun i x Hx Hsp.
  destruct (chunk_loop_spec char_eqb isspace newline period space
              (x0 :: text) chunk_size overlap Hsize (proj2 Hoverlap)
              (Nat.max fuel (List.length (x0 :: text))) 0 0 ltac:(lia)
              ltac:(unfold len; lia))
    as (chunks' & Hrun' & _ & _ & _ & Hcover).
  apply chunk_loop_more_fuel
    with (fuel' := Nat.max fuel (List.length (x0 :: text))) in Hrun;
    [|lia].
  assert (chunks' = chunks) as -> by congruence.
  apply (Hcover (proj1 Hoverlap) (Z.of_nat i) x); [lia| |exact Hsp].
  now rewrite Nat2Z.id.
Qed.

Lemma chunk_text_keeps_every_character_witness :
  exists chunks,
    chunk_ascii 30 "Alpha beta. Gamma delta" 12 3 = Some chunks
    /\ exists c,
         In c chunks
         /\ PDFParser.start_char c <= 12 < PDFParser.end_char c
         /\ In "G"%char (PDFParser.tc_content c).
Proof.
  eexists. split; [reflexivity|].
  exact (chunk_text_keeps_every_character Ascii.eqb space1 "010"%char
           "."%char " "%char (chars "Alpha beta. Gamma delta") 12 3 30 _
           ltac:(lia) ltac:(cbn; lia) eq_refl 12%nat "G"%char eq_refl
           eq_refl).
Defined.

(** X28.  A text that fits into one window gives a single chunk, the
    stripped text numbered 0, whatever the overlap; its [end_char] is
    [chunk_size], also when the text is shorter.  A text of white space
    only gives no chunk. *)
Theorem chunk_text_short_text {char : Type} (char_eqb : char -> char -> bool)
    (isspace : char -> bool) (newline period space : char)
    (text : list char) (chunk_size overlap : Z) (fuel : nat) :
  text <> [] -> len text <= chunk_size -> (1 <= fuel)%nat ->
  PDFParser.chunk_text char_eqb isspace newline period space fuel text
    chunk_size overlap
  = Some (if nonempty (PDFParser.strip isspace text)
          then [PDFParser.mkTextChunk 0 (PDFParser.strip isspace text) 0
                  chunk_size]
          else []).
Proof.
  intros Htext Hlen Hfuel. unfold PDFParser.chunk_text.
  destruct text as [|x text]; [congruence|]. cbn [nonempty negb].
  destruct fuel as [|fuel]; [lia|]. cbn [PDFParser.chunk_loop].
  assert (Hpos : 0 < len (x :: text)) by (unfold len; cbn; lia).
  destruct (Z.ltb_spec 0 (len (x :: text))); [|lia]. cbn [negb].
  assert (Hend : PDFParser.chunk_end char_eqb newline period space
                   (x :: text) chunk_size 0 = chunk_size).
  { unfold PDFParser.chunk_end. cbn [Z.add].
    destruct (Z.ltb_spec chunk_size (len (x :: text))); [lia|reflexivity]. }
  rewrite Hend, slice_all by exact Hlen.
  destruct (Z.ltb_spec chunk_size (len (x :: text))); [lia|].
  assert (Hstop : forall k,
             PDFParser.chunk_loop char_eqb isspace newline period space fuel
               (x :: text) chunk_size overlap (len (x :: text)) k
             = Some []).
  { intros k. destruct fuel; cbn [PDFParser.chunk_loop];
      rewrite Z.ltb_irrefl; reflexivity. }
  rewrite !Hstop. now destruct (nonempty _).
Qed.

Lemma chunk_text_short_text_witness :
  chunk_ascii 1 "  short memo " 1000 200
  = Some [PDFParser.mkTextChunk 0 (chars "short memo") 0 1000].
Proof.
  exact (chunk_text_short_text Ascii.eqb space1 "010"%char "."%char
           " "%char (chars "  short memo ") 1000 200 1
           ltac:(discriminate) ltac:(cbn; lia) ltac:(lia)).
Defined.

(** X29.  With an [overlap] of [chunk_size] or more the loop of
    [chunk_text] does not end on a text longer than [chunk_size] that has
    no paragraph or sentence break: the start of the next window never
    passes 0, so no number of passes returns. *)
Theorem chunk_text_overlap_too_large {char : Type}
    (char_eqb : char -> char -> bool) (isspace : char -> bool)
    (newline period space : char) (text : list char)
    (chunk_size overlap : Z) :
  1 <= chunk_size <= overlap -> chunk_size < len text ->
  Forall (fun d => char_eqb newline d = false
                   /\ char_eqb period d = false) text ->
  forall fuel,
    PDFParser.chunk_text char_eqb isspace newline period space fuel text
      chunk_size overlap = None.
Proof.
  intros Hsize Hlen Hplain fuel. unfold PDFParser.chunk_text.
  destruct text as [|x text]; [unfold len in Hlen; cbn in Hlen; lia|].
  cbn [nonempty negb].
  apply chunk_loop_stuck; try assumption; try lia.
  - eapply Forall_impl; [|exact Hplain]. now intros d [H _].
  - eapply Forall_impl; [|exact Hplain]. now intros d [_ H].
Qed.

Lemma chunk_text_overlap_too_large_witness :
  chunk_ascii 1000 "one two three" 4 4 = None.
Proof.
  exact (chunk_text_overlap_too_large Ascii.eqb space1 "010"%char
           "."%char " "%char (chars "one two three") 4 4
           ltac:(lia) ltac:(cbn; lia) ltac:(repeat constructor) 1000%nat).
Defined.

(** ** The pass reason taken from a memo chunk *)

Lemma string_append_assoc (a b c : string) : (a ++ b) ++ c = a ++ b ++ c.
Proof. induction a as [|x a IH]; cbn; [reflexivity|now rewrite IH]. Qed.

Lemma str_len_append (a b : string) :
  str_len (a ++ b) = (str_len a + str_len b)%nat.
Proof.
  induction a as [|x a IH]; cbn; [reflexivity|].
  destruct (is_continuation x); now rewrite IH.
Qed.

Lemma take_prefix (n : nat) (s : string) :
  (str_len (take n s) <= n)%nat /\ exists rest, s = take n s ++ rest.
Proof.
  revert n. induction s as [|c t IH]; intros n; cbn.
  - split; [lia|now exists ""].
  - destruct (is_continuation c) eqn:Hc.
    + destruct (IH n) as [Hlen [rest Hrest]]. cbn. rewrite Hc.
      split; [exact Hlen|]. exists rest. now rewrite <- Hrest.
    + destruct n as [|m].
      * split; [cbn; lia|now exists (String c t)].
      * destruct (IH m) as [Hlen [rest Hrest]]. cbn. rewrite Hc.
        split; [lia|]. exists rest. now rewrite <- Hrest.
Qed.

Lemma lstrip_bytes_suffix sp2 sp3 (s : list ascii) :
  exists pre, s = (pre ++ lstrip_bytes sp2 sp3 s)%list.
Proof.
  assert (H : forall n s, (List.length s <= n)%nat ->
                          exists pre, s = (pre ++ lstrip_bytes sp2 sp3 s)%list).
  { clear s. induction n as [|n IH]; intros s Hn.
    - destruct s; [now exists []|cbn in Hn; lia].
    - destruct s as [|a t]; [now exists []|]. cbn [lstrip_bytes].
      cbn in Hn. destruct (space1 a).
      + destruct (IH t ltac:(lia)) as [pre Hpre].
        exists (a :: pre). cbn. now rewrite <- Hpre.
      + destruct t as [|b t2]; [now exists []|]. cbn in Hn.
        destruct (sp2 a b).
        * destruct (IH t2 ltac:(lia)) as [pre Hpre].
          exists (a :: b :: pre). cbn. now rewrite <- Hpre.
        * destruct t2 as [|c t3]; [now exists []|]. cbn in Hn.
          destruct (sp3 a b c); [|now exists []].
          destruct (IH t3 ltac:(lia)) as [pre Hpre].
          exists (a :: b :: c :: pre). cbn. now rewrite <- Hpre. }
  exact (H (List.length s) s (Nat.le_refl _)).
Qed.

Lemma string_of_list_ascii_app (a b : list ascii) :
  string_of_list_ascii (a ++ b)
  = string_of_list_ascii a ++ string_of_list_ascii b.
Proof. induction a as [|x a IH]; cbn; [reflexivity|now rewrite IH]. Qed.

Lemma strip_piece (s : string) :
  piece_of (strip s) s /\ (str_len (strip s) <= str_len s)%nat.
Proof.
  assert (Hpiece : piece_of (strip s) s).
  { unfold strip, lstrip, rstrip.
    destruct (lstrip_bytes_suffix space2 space3 (list_ascii_of_string s))
      as [pre Hpre].
    set (l := lstrip_bytes space2 space3 (list_ascii_of_string s)) in *.
    destruct (lstrip_bytes_suffix (fun a b => space2 b a)
                (fun a b c => space3 c b a) (rev l)) as [post Hpost].
    set (r := lstrip_bytes _ _ (rev l)) in *.
    assert (Hl : l = (rev r ++ rev post)%list).
    { rewrite <- rev_app_distr, <- Hpost. now rewrite rev_involutive. }
    exists (string_of_list_ascii pre), (string_of_list_ascii (rev post)).
    rewrite <- !string_of_list_ascii_app, <- Hl, <- Hpre.
    now rewrite string_of_list_ascii_of_string. }
  split; [exact Hpiece|]. destruct Hpiece as (b & a & Heq).
  rewrite Heq at 2. rewrite !str_len_append. lia.
Qed.

Lemma first_match_none re_search (patterns : list string) content :
  (forall pattern, In pattern patterns -> re_search pattern content = None) ->
  first_match re_search patterns content = None.
Proof.
  induction patterns as [|p rest IH]; cbn; [reflexivity|]. intros H.
  rewrite (H p) by now left. apply IH. intros q Hq. apply H. now right.
Qed.

Lemma first_match_first re_search (earlier : list string) pattern later
    content group :
  (forall p, In p earlier -> re_search p content = None) ->
  re_search pattern content = Some group ->
  first_match re_search (earlier ++ pattern :: later)%list content
  = Some (strip group).
Proof.
  intros Hearlier Hhere. induction earlier as [|p rest IH]; cbn.
  - now rewrite Hhere.
  - rewrite (Hearlier p) by now left. apply IH.
    intros q Hq. apply Hearlier. now right.
Qed.

(** X30.  [_extract_pass_reason] answers with the stripped group of the
    first of its five patterns that matches, in the order of the list;
    when none matches, with a stripped piece of the first 200 characters
    of the content followed by three dots, so with at least 3 and at most
    203 characters.  Characters are counted as Python counts them, by
    code point, and stripping removes the white space of [str.strip]. *)
Theorem extract_pass_reason_first_match_or_excerpt
    (re_search : string -> string -> option string) (content : string) :
  (forall earlier pattern later group,
     pass_reason_patterns = (earlier ++ pattern :: later)%list ->
     (forall p, In p earlier -> re_search p content = None) ->
     re_search pattern content = Some group ->
     _extract_pass_reason re_search content = strip group)
  /\ ((forall pattern, In pattern pass_reason_patterns ->
                       re_search pattern content = None) ->
      exists excerpt,
        _extract_pass_reason re_search content = excerpt ++ "..."
        /\ excerpt = strip (take 200 content)
        /\ piece_of excerpt content
        /\ (str_len excerpt <= 200)%nat
        /\ (3 <= str_len (_extract_pass_reason re_search content)
            <= 203)%nat).
Proof.
  split.
  - intros earlier pattern later group Heq Hearlier Hhere.
    unfold _extract_pass_reason. rewrite Heq.
    now rewrite (first_match_first _ _ _ _ _ _ Hearlier Hhere).
  - intros Hnone. unfold _extract_pass_reason.
    rewrite (first_match_none _ _ _ Hnone).
    exists (strip (take 200 content)).
    destruct (strip_piece (take 200 content)) as [(b & a & Hpiece) Hlen].
    destruct (take_prefix 200 content) as [Htake [rest Hrest]].
    split; [reflexivity|]. split; [reflexivity|]. split.
    { exists b, (a ++ rest). rewrite Hrest at 1. rewrite Hpiece at 1.
      now rewrite !string_append_assoc. }
    split; [lia|]. rewrite str_len_append.
    change (str_len "...") with 3%nat. lia.
Qed.

Lemma extract_pass_reason_first_match_or_excerpt_witness :
  _extract_pass_reason third_only
    "Concerns: churn is high and the sales cycle is far too long for this stage  "
  = "churn is high and the sales cycle is far too long for this stage"
  /\ _extract_pass_reason (fun _ _ => None) "  no pattern here  "
     = "no pattern here..."
  /\ _extract_pass_reason (fun _ _ => None) (nbsp ++ "École" ++ nbsp)
     = "École..."
  /\ str_len (_extract_pass_reason (fun _ _ => None)
                (nbsp ++ "École" ++ nbsp)) = 8%nat.
Proof.
  split; [|split; [|split; reflexivity]].
  - exact (proj1 (extract_pass_reason_first_match_or_excerpt third_only
                    "Concerns: churn is high and the sales cycle is far too long for this stage  ")
             [ "pass(?:ed|ing)?\s+(?:on\s+)?(?:this\s+)?(?:deal\s+)?(?:because|due to|as)\s+(.{50,300})";
               "recommend(?:ation)?\s*:?\s*pass\s*[.\-:]\s*(.{50,300})" ]
             "concerns?\s*(?:include|are|:)\s*(.{50,300})"
             [ "(?:key\s+)?risks?\s*(?:include|are|:)\s*(.{50,300})";
               "not\s+(?:recommend|proceed|invest)\s+(?:because|due to)\s*(.{50,300})" ]
             "churn is high and the sales cycle is far too long for this stage  " eq_refl
             ltac:(intros p [<-|[<-|[]]]; reflexivity) eq_refl).
  - destruct (proj2 (extract_pass_reason_first_match_or_excerpt
                       (fun _ _ => None) "  no pattern here  ")
                (fun _ _ => eq_refl)) as (excerpt & Heq & Hexc & _).
    rewrite Heq, Hexc. reflexivity.
Defined.
